(** * settings-gateway: Settings, Provider.parseUpdateInput, the request handler

    A shallow embedding of [src/lib/settings/Settings.ts] (the constructor,
    [clone], [sync], [destroy]) and of [Provider.parseUpdateInput], with the
    statements of the specification proved or refuted against it, and a model
    of the request handler as the specification describes it. The last part
    goes beyond the specification: what a call settles, what a failed call
    leaves behind, and what every sequence of calls keeps.

    JavaScript objects with identity (Settings instances, gateways) live in a
    store and are named by reference; plain JSON data is modelled by value. An
    asynchronous method is run to completion: no other task is interleaved
    between its awaits. Every statement the methods execute is logged, so that
    the order of their effects can be read off a run. *)

From Stdlib Require Import ZArith Ascii String List Bool Lia.
From stdpp Require Import base list strings.
Import ListNotations.
Open Scope string_scope.
Open Scope list_scope.

(** ** JSON values and plain objects *)

(** A plain object keeps its own enumerable keys in insertion order.
    JavaScript lists the integer-like keys of an object before the others, in
    ascending order; that is not modelled, so what is said of the order of
    keys is said of objects without such keys. *)
#[warnings="-register-all"]
Inductive value : Type :=
| VNull
| VBool (b : bool)
| VNum (n : Z)
| VStr (s : string)
| VArr (items : list value)
| VObj (o : obj)
with obj : Type :=
| ONil
| OCons (key : string) (v : value) (rest : obj).

#[warnings="-register-all"]
Scheme value_obj_ind := Induction for value Sort Prop
with obj_value_ind := Induction for obj Sort Prop.

(** [o[key]] on own keys. *)
Fixpoint oget (o : obj) (k : string) : option value :=
  match o with
  | ONil => None
  | OCons k' v rest => if String.eqb k' k then Some v else oget rest k
  end.

(** [o[key] = v]: an existing key keeps its place, a new key goes last. *)
Fixpoint oset (o : obj) (k : string) (v : value) : obj :=
  match o with
  | ONil => OCons k v ONil
  | OCons k' v' rest =>
      if String.eqb k' k then OCons k' v rest else OCons k' v' (oset rest k v)
  end.

Fixpoint okeys (o : obj) : list string :=
  match o with
  | ONil => []
  | OCons k _ rest => k :: okeys rest
  end.

(** [isObject] of the utilities: a plain object, neither an array nor null. *)
Definition isObject (v : value) : bool :=
  match v with
  | VObj _ => true
  | _ => false
  end.

(** Reading along a route of keys, [v[k1][k2]...]. *)
Fixpoint vlookup (route : list string) (v : value) : option value :=
  match route with
  | [] => Some v
  | k :: route' =>
      match v with
      | VObj o =>
          match oget o k with
          | Some v' => vlookup route' v'
          | None => None
          end
      | _ => None
      end
  end.

(** ** Paths *)

(** [path.split('.')]: [cur] is the segment read so far. *)
Fixpoint split_from (cur : string) (s : string) : list string :=
  match s with
  | EmptyString => [cur]
  | String c rest =>
      if Ascii.eqb c "."%char then cur :: split_from EmptyString rest
      else split_from (cur ++ String c EmptyString)%string rest
  end.

Definition split_dot (path : string) : list string := split_from EmptyString path.

(** [path.includes('.')] *)
Fixpoint includes_dot (s : string) : bool :=
  match s with
  | EmptyString => false
  | String c rest => if Ascii.eqb c "."%char then true else includes_dot rest
  end.

(** ** The utilities imported by Provider.ts *)

(** The object [{k1: {k2: ... {kn: value}}}] along a non-empty route; the
    empty route is never produced by [split_dot]. *)
Fixpoint nest (route : list string) (v : value) : value :=
  match route with
  | [] => v
  | k :: route' => VObj (OCons k (nest route' v) ONil)
  end.

(** Modelled from the spec: [makeObject] is imported from the utilities
    package, whose source is not part of src/. Called with a path and a value
    it builds a fresh object holding the value at that path ("merging each
    change at its schema path"): a dotted path is split into its keys, a path
    without dot is the one key. *)
Definition makeObject (path : string) (v : value) : obj :=
  if includes_dot path then
    match nest (split_dot path) v with
    | VObj o => o
    | _ => ONil
    end
  else OCons path v ONil.

(** Modelled from the spec: [mergeObjects] is imported from the utilities
    package, whose source is not part of src/. It merges the source's keys
    into the target, in the source's key order: where both hold a plain object
    the two are merged recursively ("deep merge, not replacement of parent
    objects"), otherwise the source's value is written ("later entries
    overwriting earlier ones at the same path"); keys of the target that the
    source does not name stay ("leaving sibling paths untouched"). *)
Fixpoint mergeObjects (objTarget objSource : obj) {struct objSource} : obj :=
  match objSource with
  | ONil => objTarget
  | OCons key v rest =>
      let merged :=
        match v, oget objTarget key with
        | VObj src, Some (VObj tgt) => VObj (mergeObjects tgt src)
        | _, _ => v
        end in
      mergeObjects (oset objTarget key merged) rest
  end.

(** ** Schema *)

(** A keyed tree: the shape shared by a schema folder (leaves are schema
    entries) and a settings folder (leaves are values). Like a JavaScript
    [Map], it keeps its keys in insertion order. *)
Inductive node (A : Type) : Type :=
| Leaf (a : A)
| Sub (f : forest A)
with forest (A : Type) : Type :=
| FNil
| FCons (key : string) (n : node A) (rest : forest A).

Arguments Leaf {A} a.
Arguments Sub {A} f.
Arguments FNil {A}.
Arguments FCons {A} key n rest.

Scheme node_forest_ind := Induction for node Sort Prop
with forest_node_ind := Induction for forest Sort Prop.

(** [map.get(key)] *)
Fixpoint fget {A} (f : forest A) (k : string) : option (node A) :=
  match f with
  | FNil => None
  | FCons k' n rest => if String.eqb k' k then Some n else fget rest k
  end.

(** [map.set(key, n)] *)
Fixpoint fset {A} (f : forest A) (k : string) (n : node A) : forest A :=
  match f with
  | FNil => FCons k n FNil
  | FCons k' n' rest =>
      if String.eqb k' k then FCons k' n rest else FCons k' n' (fset rest k n)
  end.

Fixpoint fkeys {A} (f : forest A) : list string :=
  match f with
  | FNil => []
  | FCons k _ rest => k :: fkeys rest
  end.

(** Modelled from the spec: a schema entry (SchemaEntry.ts is not part of
    src/) is a "path-addressable node with a default value"; Provider.ts reads
    its [path]. *)
Module SchemaEntry.
Record t : Type := mk {
  path : string;        (* dotted path from the schema's root *)
  type : string;
  default : value
}.
End SchemaEntry.

(** Modelled from the spec: "a SchemaFolder is a named set of child
    entries/folders". *)
Definition SchemaFolder : Type := forest SchemaEntry.t.

(** ** Provider.parseUpdateInput *)

(** Modelled from the spec: "an ordered sequence of change records, each
    {entry: SchemaEntry, previous: value, next: value}" (the type is declared in
    SettingsFolder.ts, not part of src/); Provider.ts reads [entry.path] and
    [next]. *)
Module SettingsUpdateResult.
Record t : Type := mk {
  entry : SchemaEntry.t;
  previous : value;
  next : value
}.
End SettingsUpdateResult.

(** [ReadonlyAnyObject | SettingsUpdateResults]: the array form is the
    sequence of change records, anything else is a plain object. *)
Inductive UpdateInput : Type :=
| PlainObject (changes : obj)
| UpdateResults (changes : list SettingsUpdateResult.t).

Module Provider.

(** Provider.ts, lines 139-144: anything that is not an array is returned as
    it is; the change records of an array are merged one by one, in order,
    into a fresh object. *)
Definition parseUpdateInput (changes : UpdateInput) : obj :=
  match changes with
  | PlainObject o => o
  | UpdateResults results =>
      fold_left
        (fun updated change =>
           mergeObjects updated
             (makeObject (SchemaEntry.path (SettingsUpdateResult.entry change))
                         (SettingsUpdateResult.next change)))
        results ONil
  end.

End Provider.

(** ** Reading the result of parseUpdateInput *)

Definition change_path (c : SettingsUpdateResult.t) : string :=
  SchemaEntry.path (SettingsUpdateResult.entry c).

Fixpoint is_prefix (r r' : list string) : bool :=
  match r, r' with
  | [], _ => true
  | _ :: _, [] => false
  | k :: r1, k' :: r1' => String.eqb k k' && is_prefix r1 r1'
  end.

(** Two routes part ways: neither leads through the end of the other. Paths
    with such routes are siblings, or lie under siblings. *)
Definition apart (r r' : list string) : bool :=
  negb (is_prefix r r') && negb (is_prefix r' r).

(** Reading along a route in what may not be there. *)
Definition at_route (r : list string) (tv : option value) : option value :=
  match tv with
  | Some t => vlookup r t
  | None => None
  end.

(** How [mergeObjects] combines what the target holds at a key, if anything,
    with what the source holds there. *)
Definition merge_value (tv : option value) (sv : value) : value :=
  match sv, tv with
  | VObj src, Some (VObj tgt) => VObj (mergeObjects tgt src)
  | _, _ => sv
  end.

Definition change (path : string) (v : value) : SettingsUpdateResult.t :=
  SettingsUpdateResult.mk (SchemaEntry.mk path "any" VNull) VNull v.

(** What the changes of a sequence make of one path, taken alone: every change
    at the path is merged, in order, into what the earlier ones left there. *)
Definition merged_at (path : string) (changes : list SettingsUpdateResult.t) : option value :=
  fold_left
    (fun tv c =>
       if String.eqb (change_path c) path
       then Some (merge_value tv (SettingsUpdateResult.next c))
       else tv)
    changes None.

Definition is_plain_object (tv : option value) : bool :=
  match tv with
  | Some v => isObject v
  | None => false
  end.

(** ** SettingsFolder *)

(** The folder's own entries: a value at every schema entry, a sub-folder at
    every schema folder. *)
Definition SettingsFolder : Type := forest value.

(** Modelled from the spec: [SettingsFolder._init] (SettingsFolder.ts is not
    part of src/) "recursively fills every schema path with its default
    value; used both at construction and to reset an entity after deletion".
    Every key of the schema is set in the folder, an entry to its default and
    a schema folder to a new sub-folder filled the same way. *)
Fixpoint _init (folder : SettingsFolder) (schema : SchemaFolder) {struct schema}
  : SettingsFolder :=
  match schema with
  | FNil => folder
  | FCons key (Leaf e) rest =>
      _init (fset folder key (Leaf (SchemaEntry.default e))) rest
  | FCons key (Sub sub) rest =>
      _init (fset folder key (Sub (_init FNil sub))) rest
  end.

(** Modelled from the spec: [SettingsFolder._patch] "merges an incoming plain
    object into the folder by path, overwriting only the leaves present in
    data; unspecified paths retain their current values. Must tolerate
    partial/nested objects matching only part of the schema shape." A key of
    the data that the folder does not have is skipped, a value is written
    over a leaf, and a plain object is patched into a sub-folder; anything
    else met at a sub-folder leaves it alone. *)
Fixpoint _patch (folder : SettingsFolder) (data : obj) {struct data} : SettingsFolder :=
  match data with
  | ONil => folder
  | OCons key v rest =>
      let folder' :=
        match fget folder key with
        | None => folder
        | Some (Leaf _) => fset folder key (Leaf v)
        | Some (Sub sub) =>
            match v with
            | VObj o => fset folder key (Sub (_patch sub o))
            | _ => folder
            end
        end in
      _patch folder' rest
  end.

(** Modelled from the spec: [SettingsFolder.toJSON] "produces a plain snapshot
    of the current shape ...; must be a structural copy, not a shared
    reference into the live tree". *)
Fixpoint toJSON (folder : SettingsFolder) : obj :=
  match folder with
  | FNil => ONil
  | FCons key (Leaf v) rest => OCons key v (toJSON rest)
  | FCons key (Sub sub) rest => OCons key (VObj (toJSON sub)) (toJSON rest)
  end.

(** The schema's invariant "paths are unique within a schema tree": no key
    twice in one folder, at any depth. *)
Fixpoint unique_keys {A} (f : forest A) : bool :=
  match f with
  | FNil => true
  | FCons k n rest =>
      negb (existsb (String.eqb k) (fkeys rest))
      && match n with
         | Leaf _ => true
         | Sub sub => unique_keys sub
         end
      && unique_keys rest
  end.

(** The folder's invariant "the folder's shape always matches the schema's
    shape exactly": the same keys in the same order, leaves at entries and
    sub-folders at folders. *)
Fixpoint same_shape {A B} (f : forest A) (g : forest B) : bool :=
  match f, g with
  | FNil, FNil => true
  | FCons k n f', FCons k' m g' =>
      String.eqb k k'
      && match n, m with
         | Leaf _, Leaf _ => true
         | Sub s, Sub t => same_shape s t
         | _, _ => false
         end
      && same_shape f' g'
  | _, _ => false
  end.

(** ** The existence status *)

(** Modelled from the spec: the enum [SettingsExistenceStatus] is declared in
    SettingsFolder.ts, which is not part of src/: "one of Unsynchronized |
    NotExists | Exists", "a non-nullable enum". *)
Module SettingsExistenceStatus.

Inductive t : Type := Unsynchronized | NotExists | Exists.

Definition eqb (a b : t) : bool :=
  match a, b with
  | Unsynchronized, Unsynchronized | NotExists, NotExists | Exists, Exists => true
  | _, _ => false
  end.

(** What a member is at run time: a TypeScript enum member is a number. *)
Definition to_value (s : t) : value :=
  match s with
  | Unsynchronized => VNum 0
  | NotExists => VNum 1
  | Exists => VNum 2
  end.

End SettingsExistenceStatus.

#[global]
Instance status_eq_dec : EqDecision SettingsExistenceStatus.t.
Proof. solve_decision. Defined.

(** [v !== null] *)
Definition not_null (v : value) : bool :=
  match v with
  | VNull => false
  | _ => true
  end.

(** ** The store: Settings instances, gateways, and what has been done *)

Definition addr : Type := nat.   (* reference to a Settings instance *)
Definition gref : Type := nat.   (* reference to a Gateway *)

(** What is behind a gateway's request handler and provider, which the
    environment sets: the rows of the gateway's table by id, and the error
    with which reads or writes currently fail, if they do. *)
Module Backend.
Record t : Type := mk {
  rows : list (string * obj);
  read_error : option string;
  write_error : option string
}.
End Backend.

(** Modelled from the spec: the Gateway (Gateway.ts is not part of src/) is
    the "composition root binding one Schema, one Provider, one RequestHandler
    ... for one logical table"; Settings.ts reads its [name], [schema] and
    [provider], calls its request handler and emits on its client. *)
Module Gateway.
Record t : Type := mk {
  name : string;
  schema : SchemaFolder;
  provider : option string;     (* [None] is [null]: no provider is available *)
  backend : Backend.t
}.
End Gateway.

Module SettingsObject.
(** Settings.ts, lines 6-9, with the two fields of the SettingsFolder it
    extends: the bound schema and the folder's entries. *)
Record t : Type := mk {
  id : string;
  gateway : gref;
  target : value;
  existenceStatus : SettingsExistenceStatus.t;
  schema : SchemaFolder;
  entries : SettingsFolder
}.
End SettingsObject.

(** The instance [o] after [o.existenceStatus = s]. *)
Definition with_status (o : SettingsObject.t) (s : SettingsExistenceStatus.t) : SettingsObject.t :=
  SettingsObject.mk (SettingsObject.id o) (SettingsObject.gateway o) (SettingsObject.target o)
    s (SettingsObject.schema o) (SettingsObject.entries o).

(** The instance [o] with [f] as its folder's entries. *)
Definition with_entries (o : SettingsObject.t) (f : SettingsFolder) : SettingsObject.t :=
  SettingsObject.mk (SettingsObject.id o) (SettingsObject.gateway o) (SettingsObject.target o)
    (SettingsObject.existenceStatus o) (SettingsObject.schema o) f.

(** The gateway [gw] with [b] behind it. *)
Definition with_backend (gw : Gateway.t) (b : Backend.t) : Gateway.t :=
  Gateway.mk (Gateway.name gw) (Gateway.schema gw) (Gateway.provider gw) b.

(** One line of the log of what a run did, in program order. *)
Inductive Step : Type :=
| CallPush (g : gref) (id : string)                (* gateway.requestHandler.push(id) *)
| CallDelete (g : gref) (table id : string)        (* provider.delete(table, id) *)
| Emit (event : string) (payload : addr)           (* gateway.client.emit(event, payload) *)
| DoPatch (this : addr) (data : obj)               (* this._patch(data) *)
| DoInit (this : addr)                             (* this._init(this, this.schema) *)
| SetStatus (this : addr) (s : SettingsExistenceStatus.t).

Record World : Type := mkWorld {
  heap : list SettingsObject.t;
  gateways : list Gateway.t;
  trace : list Step
}.

(** ** Asynchronous computations over the store *)

Inductive Outcome (A : Type) : Type :=
| Resolved (a : A)
| Rejected (error : string).

Arguments Resolved {A} a.
Arguments Rejected {A} error.

(** [None] stands for the use of a reference that names nothing in the store;
    a program never holds such a reference. *)
Definition M (A : Type) : Type := World -> option (Outcome A * World).

Definition ret {A} (a : A) : M A := fun w => Some (Resolved a, w).

Definition throw {A} (error : string) : M A := fun w => Some (Rejected error, w).

Definition bind {A B} (m : M A) (k : A -> M B) : M B :=
  fun w =>
    match m w with
    | None => None
    | Some (Resolved a, w') => k a w'
    | Some (Rejected e, w') => Some (Rejected e, w')
    end.

Declare Scope async_scope.
Delimit Scope async_scope with async.
Notation "'let*' x ':=' m 'in' k" := (bind m (fun x => k))
  (at level 10, x name, m at level 100, k at level 200) : async_scope.
Notation "m ';;' k" := (bind m (fun _ => k))
  (at level 100, k at level 200, right associativity) : async_scope.
Open Scope async_scope.

Definition log (s : Step) : M unit :=
  fun w => Some (Resolved tt, mkWorld (heap w) (gateways w) (trace w ++ [s])).

Definition read (this : addr) : M SettingsObject.t :=
  fun w =>
    match heap w !! this with
    | Some o => Some (Resolved o, w)
    | None => None
    end.

Definition write (this : addr) (o : SettingsObject.t) : M unit :=
  fun w =>
    match heap w !! this with
    | Some _ => Some (Resolved tt, mkWorld (<[this := o]> (heap w)) (gateways w) (trace w))
    | None => None
    end.

Definition read_gateway (g : gref) : M Gateway.t :=
  fun w =>
    match gateways w !! g with
    | Some gw => Some (Resolved gw, w)
    | None => None
    end.

Definition write_backend (g : gref) (b : Backend.t) : M unit :=
  fun w =>
    match gateways w !! g with
    | Some gw =>
        Some (Resolved tt, mkWorld (heap w) (<[g := with_backend gw b]> (gateways w)) (trace w))
    | None => None
    end.

Definition alloc (o : SettingsObject.t) : M addr :=
  fun w => Some (Resolved (length (heap w)), mkWorld (heap w ++ [o]) (gateways w) (trace w)).

(** The row stored under an id, if any. *)
Fixpoint find_row (rows : list (string * obj)) (id : string) : option obj :=
  match rows with
  | [] => None
  | (id', row) :: rows' => if String.eqb id' id then Some row else find_row rows' id
  end.

Definition remove_row (rows : list (string * obj)) (id : string) : list (string * obj) :=
  List.filter (fun r => negb (String.eqb (fst r) id)) rows.

(** Modelled from the spec: [RequestHandler.push] (not part of src/) has the
    contract "push(id) -> row | absent", and "if the underlying getAll call
    fails, every waiter ... receives the failure". What the handler answers is
    what the environment sets in [Backend]; [Gateway.provider] is the field
    Settings.ts reads (line 56). The two are set independently: a handler
    that cannot reach its provider is a backend whose reads fail, and a
    statement that assumes a fetch went well says nothing of how the handler
    came by the row. *)
Definition push (g : gref) (id : string) : M (option obj) :=
  log (CallPush g id);;
  let* gw := read_gateway g in
  match Backend.read_error (Gateway.backend gw) with
  | Some e => throw e
  | None => ret (find_row (Backend.rows (Gateway.backend gw)) id)
  end.

(** The provider contract's [delete(table, entry)] ("Removes entries from a
    table"; it "may fail with a backend-native error that propagates
    unmodified"). *)
Definition provider_delete (g : gref) (table id : string) : M unit :=
  log (CallDelete g table id);;
  let* gw := read_gateway g in
  let b := Gateway.backend gw in
  match Backend.write_error b with
  | Some e => throw e
  | None =>
      write_backend g
        (Backend.mk (remove_row (Backend.rows b) id) (Backend.read_error b)
           (Backend.write_error b))
  end.

Definition emit (event : string) (payload : addr) : M unit := log (Emit event payload).

(** ** Settings.ts *)

Module Settings.

Import SettingsExistenceStatus.

(** The assignment [this.existenceStatus = s]. *)
Definition set_existenceStatus (this : addr) (s : SettingsExistenceStatus.t) : M unit :=
  log (SetStatus this s);;
  let* o := read this in
  write this (with_status o s).

Definition set_entries (this : addr) (f : SettingsFolder) : M unit :=
  let* o := read this in
  write this (with_entries o f).

(** [this._init(this, this.schema)] *)
Definition init (this : addr) : M unit :=
  log (DoInit this);;
  let* o := read this in
  set_entries this (_init (SettingsObject.entries o) (SettingsObject.schema o)).

(** [this._patch(data)] *)
Definition patch (this : addr) (data : obj) : M unit :=
  log (DoPatch this data);;
  let* o := read this in
  set_entries this (_patch (SettingsObject.entries o) data).

(** [this.toJSON()] *)
Definition snapshot (this : addr) : M obj :=
  let* o := read this in
  ret (toJSON (SettingsObject.entries o)).

(** Lines 11-18: [new Settings(gateway, target, id)]. *)
Definition new (gateway : gref) (target : value) (id : string) : M addr :=
  let* gw := read_gateway gateway in
  let* this :=
    alloc (SettingsObject.mk id gateway target Unsynchronized (Gateway.schema gw) FNil) in
  init this;;
  ret this.

(** Lines 23-27. *)
Definition clone (this : addr) : M addr :=
  let* o := read this in
  let* clone :=
    new (SettingsObject.gateway o) (SettingsObject.target o) (SettingsObject.id o) in
  let* json := snapshot this in
  patch clone json;;
  ret clone.

(** Line 33: the default of [force], evaluated when the argument is left out. *)
Definition default_force (this : addr) : M bool :=
  let* o := read this in
  ret (eqb (SettingsObject.existenceStatus o) Unsynchronized).

(** Lines 33-48; [force = None] is the call without argument. *)
Definition sync (this : addr) (force : option bool) : M addr :=
  let* force :=
    match force with
    | Some b => ret b
    | None => default_force this
    end in
  let* o := read this in
  if negb force && not_null (to_value (SettingsObject.existenceStatus o)) then ret this
  else
    let* data := push (SettingsObject.gateway o) (SettingsObject.id o) in
    match data with
    | Some row =>
        set_existenceStatus this Exists;;
        patch this row;;
        emit "settingsSync" this
    | None =>
        set_existenceStatus this NotExists
    end;;
    ret this.

(** Lines 53-65. *)
Definition destroy (this : addr) : M addr :=
  sync this None;;
  let* o := read this in
  (if eqb (SettingsObject.existenceStatus o) Exists then
     let* gw := read_gateway (SettingsObject.gateway o) in
     match Gateway.provider gw with
     | None => throw "The provider was not available during the destroy operation."
     | Some _ =>
         provider_delete (SettingsObject.gateway o) (Gateway.name gw) (SettingsObject.id o);;
         emit "settingsDelete" this;;
         init this;;
         set_existenceStatus this NotExists
     end
   else ret tt);;
  ret this.

End Settings.

(** ** Reading the store after a run *)

Definition status_at (w : World) (this : addr) : option SettingsExistenceStatus.t :=
  SettingsObject.existenceStatus <$> heap w !! this.

Definition entries_at (w : World) (this : addr) : option SettingsFolder :=
  SettingsObject.entries <$> heap w !! this.

(** [this.toJSON()] read off a store. *)
Definition snapshot_at (w : World) (this : addr) : option obj :=
  toJSON <$> entries_at w this.

(** The value [force] takes in a call of [sync]. *)
Definition effective_force (o : SettingsObject.t) (force : option bool) : bool :=
  match force with
  | Some b => b
  | None => SettingsExistenceStatus.eqb (SettingsObject.existenceStatus o)
              SettingsExistenceStatus.Unsynchronized
  end.

Definition is_delete (s : Step) : bool :=
  match s with
  | CallDelete _ _ _ => true
  | _ => false
  end.

(** The structural reading of "every field equals its schema default". *)
Fixpoint defaults (schema : SchemaFolder) : SettingsFolder :=
  match schema with
  | FNil => FNil
  | FCons key (Leaf e) rest => FCons key (Leaf (SchemaEntry.default e)) (defaults rest)
  | FCons key (Sub sub) rest => FCons key (Sub (defaults sub)) (defaults rest)
  end.

(** An entity is bound to its gateway's schema, and its folder has that
    schema's shape. *)
Definition well_formed (w : World) (o : SettingsObject.t) : Prop :=
  exists gw,
    gateways w !! SettingsObject.gateway o = Some gw
    /\ SettingsObject.schema o = Gateway.schema gw
    /\ unique_keys (SettingsObject.schema o) = true
    /\ same_shape (SettingsObject.schema o) (SettingsObject.entries o) = true.

(** ** Sequences of calls *)

(** A call on some instance, or a change of the environment (the gateways'
    providers and what their backends hold) between two calls. *)
Inductive Op : Type :=
| OpSync (this : addr) (force : option bool)
| OpDestroy (this : addr)
| OpEnvironment (gws : list Gateway.t).

Definition run_op (op : Op) (w : World) : option World :=
  match op with
  | OpSync this force => snd <$> Settings.sync this force w
  | OpDestroy this => snd <$> Settings.destroy this w
  | OpEnvironment gws => Some (mkWorld (heap w) gws (trace w))
  end.

(** A call that rejects leaves the store as it was when it threw; the next
    call goes on from there. *)
Fixpoint run_ops (ops : list Op) (w : World) : option World :=
  match ops with
  | [] => Some w
  | op :: ops' =>
      match run_op op w with
      | Some w' => run_ops ops' w'
      | None => None
      end
  end.

(** ** A small gateway to run the calls on *)

Definition example_schema : SchemaFolder :=
  FCons "prefix" (Leaf (SchemaEntry.mk "prefix" "string" (VStr "!")))
    (FCons "mod"
       (Sub (FCons "level" (Leaf (SchemaEntry.mk "mod.level" "integer" (VNum 0))) FNil))
       FNil).

Definition example_row : obj := OCons "id" (VStr "42") (OCons "prefix" (VStr "?") ONil).

Definition example_gateway (provider : option string) (rows : list (string * obj)) : Gateway.t :=
  Gateway.mk "guilds" example_schema provider (Backend.mk rows None None).

Definition example_settings (s : SettingsExistenceStatus.t) (prefix : string) : SettingsObject.t :=
  SettingsObject.mk "42" 0 VNull s example_schema
    (FCons "prefix" (Leaf (VStr prefix))
       (FCons "mod" (Sub (FCons "level" (Leaf (VNum 0)) FNil)) FNil)).

(** The instance [new Settings(gateway, null, "42")] leaves behind, with the
    row of id 42 in storage and a provider at hand. *)
Definition world_fresh : World :=
  mkWorld [example_settings SettingsExistenceStatus.Unsynchronized "!"]
    [example_gateway (Some "json") [("42", example_row)]] [DoInit 0].

(** The same instance once synchronized, the row still in storage, with or
    without a provider. *)
Definition world_synced (provider : option string) : World :=
  mkWorld [example_settings SettingsExistenceStatus.Exists "?"]
    [example_gateway provider [("42", example_row)]] [].

(** A fresh instance whose id has no row in storage. *)
Definition world_absent : World :=
  mkWorld [example_settings SettingsExistenceStatus.Unsynchronized "!"]
    [example_gateway (Some "json") []] [DoInit 0].

(** ** RequestHandler *)

(** Modelled from the spec: the RequestHandler (its code is not part of src/)
    as the "explicit scheduler" of the design notes: "a pending-request map
    keyed by id holding shared futures, flushed by an explicit tick/queue
    boundary that issues one bulk fetch per flush". A push for an id joins the
    id's future while that future is unsettled ("requests for the same id
    observed before that id's fetch completes collapse onto the same in-flight
    result") and otherwise queues a new future; a dispatch issues one
    [getAll] for the ids queued since the last one ("a new batch begins once
    the previous one has been dispatched"); when a call completes, "each
    waiter resolves with its own row extracted from the batch result (or
    absent if its id was not returned)", and "if the underlying getAll call
    fails, every waiter in that batch receives the failure". *)
Module RequestHandler.

(** What a waiter's push resolves to. *)
Inductive answer : Type :=
| Row (row : obj)
| Absent
| Failure (error : string).

(** What a storage call comes back with. *)
Inductive fetched : Type :=
| Rows (rows : list (string * obj))
| Fails (error : string).

(** The shared future of one id: who waits for it, and the number of the
    storage call that fetches it once it has been dispatched. *)
Record future : Type := mkFuture {
  key : string;
  waiters : list nat;
  batch : option nat
}.

Record t : Type := mk {
  queue : list future;            (* the unsettled futures, in order of arrival *)
  calls : list (list string);     (* the ids of every [getAll] issued so far *)
  settled : list (nat * answer);  (* which waiter got which answer, in order *)
  returned : list nat             (* the numbers of the calls that have come back *)
}.

Definition empty : t := mk [] [] [] [].

(** The waiter joins the future if it is the one of [id]. *)
Definition add_waiter (w : nat) (id : string) (f : future) : future :=
  if String.eqb (key f) id then mkFuture (key f) (waiters f ++ [w]) (batch f) else f.

(** [push(id)], called by waiter [w]: the id's future is joined when the map
    has one, and a new future is queued for the id otherwise. *)
Definition push (w : nat) (id : string) (s : t) : t :=
  if existsb (fun f => String.eqb (key f) id) (queue s)
  then mk (map (add_waiter w id) (queue s)) (calls s) (settled s) (returned s)
  else mk (queue s ++ [mkFuture id [w] None]) (calls s) (settled s) (returned s).

Definition queued (f : future) : bool :=
  match batch f with
  | None => true
  | Some _ => false
  end.

Definition in_batch (b : nat) (f : future) : bool :=
  match batch f with
  | None => false
  | Some b' => Nat.eqb b' b
  end.

(** The flush: one storage call for all the ids queued, none when nothing is
    queued. *)
Definition dispatch (s : t) : t :=
  match List.filter queued (queue s) with
  | [] => s
  | batch_futures =>
      mk (map (fun f => if queued f then mkFuture (key f) (waiters f) (Some (length (calls s)))
                        else f)
            (queue s))
         (calls s ++ [map key batch_futures])
         (settled s)
         (returned s)
  end.

Definition answer_for (result : fetched) (id : string) : answer :=
  match result with
  | Fails e => Failure e
  | Rows rows =>
      match find_row rows id with
      | Some row => Row row
      | None => Absent
      end
  end.

Definition settle (result : fetched) (f : future) : list (nat * answer) :=
  map (fun w => (w, answer_for result (key f))) (waiters f).

(** Call number [b] is under way: it has been made and has not come back. *)
Definition under_way (s : t) (b : nat) : bool :=
  Nat.ltb b (length (calls s)) && negb (existsb (Nat.eqb b) (returned s)).

(** Storage call number [b] comes back with [result]: the futures of its
    batch are settled and leave the map. Storage answers a call once: a number
    that names no call under way is no event of the handler. *)
Definition complete (b : nat) (result : fetched) (s : t) : t :=
  if under_way s b then
    mk (List.filter (fun f => negb (in_batch b f)) (queue s))
       (calls s)
       (settled s ++ flat_map (settle result) (List.filter (in_batch b) (queue s)))
       (returned s ++ [b])
  else s.

Inductive event : Type :=
| Push (w : nat) (id : string)
| Dispatch
| Complete (b : nat) (result : fetched).

Definition step (s : t) (e : event) : t :=
  match e with
  | Push w id => push w id s
  | Dispatch => dispatch s
  | Complete b result => complete b result s
  end.

Definition run (events : list event) (s : t) : t := fold_left step events s.













End RequestHandler.

(** ** Every way a call can end *)

(** What [sync] can make of a store in which [this] names [o]. *)
Inductive sync_outcome (w : World) (this : addr) (o : SettingsObject.t)
  : Outcome addr -> World -> Prop :=
| sync_skipped :
    sync_outcome w this o (Resolved this) w
| sync_failed e :
    sync_outcome w this o (Rejected e)
      (mkWorld (heap w) (gateways w)
         (trace w ++ [CallPush (SettingsObject.gateway o) (SettingsObject.id o)]))
| sync_found row :
    sync_outcome w this o (Resolved this)
      (mkWorld
         (<[this := with_entries (with_status o SettingsExistenceStatus.Exists)
                      (_patch (SettingsObject.entries o) row)]> (heap w))
         (gateways w)
         (trace w ++ [CallPush (SettingsObject.gateway o) (SettingsObject.id o);
                      SetStatus this SettingsExistenceStatus.Exists;
                      DoPatch this row; Emit "settingsSync" this]))
| sync_absent :
    sync_outcome w this o (Resolved this)
      (mkWorld (<[this := with_status o SettingsExistenceStatus.NotExists]> (heap w))
         (gateways w)
         (trace w ++ [CallPush (SettingsObject.gateway o) (SettingsObject.id o);
                      SetStatus this SettingsExistenceStatus.NotExists])).

(** The steps [sync] may log. *)
Definition sync_step (s : Step) : bool :=
  match s with
  | CallPush _ _ | SetStatus _ _ | DoPatch _ _ => true
  | Emit event _ => String.eqb event "settingsSync"
  | _ => false
  end.

(** What [destroy] can make of the store [w1] its ensured sync left, in which
    [this] names [o1]. *)
Inductive destroy_outcome (w1 : World) (this : addr) (o1 : SettingsObject.t)
  : Outcome addr -> World -> Prop :=
| destroy_nothing :
    SettingsObject.existenceStatus o1 <> SettingsExistenceStatus.Exists ->
    destroy_outcome w1 this o1 (Resolved this) w1
| destroy_unavailable :
    SettingsObject.existenceStatus o1 = SettingsExistenceStatus.Exists ->
    destroy_outcome w1 this o1
      (Rejected "The provider was not available during the destroy operation.") w1
| destroy_failed gw e :
    SettingsObject.existenceStatus o1 = SettingsExistenceStatus.Exists ->
    gateways w1 !! SettingsObject.gateway o1 = Some gw ->
    destroy_outcome w1 this o1 (Rejected e)
      (mkWorld (heap w1) (gateways w1)
         (trace w1 ++ [CallDelete (SettingsObject.gateway o1) (Gateway.name gw)
                         (SettingsObject.id o1)]))
| destroy_done gw b :
    SettingsObject.existenceStatus o1 = SettingsExistenceStatus.Exists ->
    gateways w1 !! SettingsObject.gateway o1 = Some gw ->
    destroy_outcome w1 this o1 (Resolved this)
      (mkWorld
         (<[this := with_status
                      (with_entries o1
                         (_init (SettingsObject.entries o1) (SettingsObject.schema o1)))
                      SettingsExistenceStatus.NotExists]> (heap w1))
         (<[SettingsObject.gateway o1 := with_backend gw b]> (gateways w1))
         (trace w1 ++ [CallDelete (SettingsObject.gateway o1) (Gateway.name gw)
                         (SettingsObject.id o1);
                       Emit "settingsDelete" this; DoInit this;
                       SetStatus this SettingsExistenceStatus.NotExists])).

Definition is_delete_event (s : Step) : bool :=
  match s with
  | Emit event _ => String.eqb event "settingsDelete"
  | _ => false
  end.

(** All instances of a store are well formed. *)
Definition well_formed_store (w : World) : Prop :=
  forall a o, heap w !! a = Some o -> well_formed w o.

(** ** Calls of the class, in sequence *)

(** A call of the constructor or of a method, or a change of what is behind a
    gateway: its provider and what its backend holds and answers. A gateway's
    name and schema stay. *)
Inductive Method : Type :=
| New (gateway : gref) (target : value) (id : string)
| Clone (this : addr)
| Sync (this : addr) (force : option bool)
| Destroy (this : addr)
| Behind (g : gref) (provider : option string) (b : Backend.t).

Definition set_behind (g : gref) (provider : option string) (b : Backend.t) (w : World)
  : World :=
  match gateways w !! g with
  | Some gw =>
      mkWorld (heap w)
        (<[g := Gateway.mk (Gateway.name gw) (Gateway.schema gw) provider b]> (gateways w))
        (trace w)
  | None => w
  end.

(** A call that rejects leaves the store as it was when it threw. *)
Definition run_method (m : Method) (w : World) : option World :=
  match m with
  | New g target id => snd <$> Settings.new g target id w
  | Clone this => snd <$> Settings.clone this w
  | Sync this force => snd <$> Settings.sync this force w
  | Destroy this => snd <$> Settings.destroy this w
  | Behind g provider b => Some (set_behind g provider b w)
  end.

Fixpoint run_methods (ms : list Method) (w : World) : option World :=
  match ms with
  | [] => Some w
  | m :: ms' =>
      match run_method m w with
      | Some w' => run_methods ms' w'
      | None => None
      end
  end.

(** The readonly fields of an instance and the schema it is bound to. *)
Definition same_identity (o o' : SettingsObject.t) : Prop :=
  SettingsObject.id o' = SettingsObject.id o
  /\ SettingsObject.gateway o' = SettingsObject.gateway o
  /\ SettingsObject.target o' = SettingsObject.target o
  /\ SettingsObject.schema o' = SettingsObject.schema o.

Definition schemas_unique (w : World) : Prop :=
  forall g gw, gateways w !! g = Some gw -> unique_keys (Gateway.schema gw) = true.

(** ** Reading the log *)

Definition is_push (s : Step) : bool :=
  match s with
  | CallPush _ _ => true
  | _ => false
  end.

Definition is_emit (s : Step) : bool :=
  match s with
  | Emit _ _ => true
  | _ => false
  end.

(** The steps that reach outside the instance: the request handler, the
    provider, the client's listeners. *)
Definition is_io (s : Step) : bool := is_push s || is_delete s || is_emit s.

Definition count (p : Step -> bool) (log : list Step) : nat := length (List.filter p log).

(** How many requests to the handler, and how many [provider.delete], a call
    can make at most. *)
Definition fetches (m : Method) : nat :=
  match m with
  | Sync _ _ | Destroy _ => 1
  | _ => 0
  end.

Definition deletes (m : Method) : nat :=
  match m with
  | Destroy _ => 1
  | _ => 0
  end.

Definition total (f : Method -> nat) (ms : list Method) : nat :=
  fold_right (fun m n => f m + n) 0 ms.

(** The instance a method is called on; the constructor and [clone] make the
    instance they work on. *)
Definition subject (m : Method) : option addr :=
  match m with
  | Sync this _ | Destroy this => Some this
  | _ => None
  end.

(** Every event of the log reports the step right before it: a [settingsSync]
    with an instance follows the patch of that instance, a [settingsDelete]
    follows a [provider.delete], and there is no other event. [prev] is the
    step before the log, if any. *)
Fixpoint events_follow (prev : option Step) (log : list Step) : bool :=
  match log with
  | [] => true
  | s :: rest =>
      match s with
      | Emit event a =>
          match prev with
          | Some (DoPatch a' _) => String.eqb event "settingsSync" && Nat.eqb a' a
          | Some (CallDelete _ _ _) => String.eqb event "settingsDelete"
          | _ => false
          end
      | _ => true
      end
      && events_follow (Some s) rest
  end.

(** The steps one call of [sync] on [this] logs, one of four runs. *)
Inductive sync_log (this : addr) : list Step -> Prop :=
| sync_log_skipped : sync_log this []
| sync_log_failed g id : sync_log this [CallPush g id]
| sync_log_found g id row :
    sync_log this [CallPush g id; SetStatus this SettingsExistenceStatus.Exists;
                   DoPatch this row; Emit "settingsSync" this]
| sync_log_absent g id :
    sync_log this [CallPush g id; SetStatus this SettingsExistenceStatus.NotExists].

(** The steps [destroy] logs after its ensured sync. *)
Inductive destroy_log (this : addr) : list Step -> Prop :=
| destroy_log_nothing : destroy_log this []
| destroy_log_failed g table id : destroy_log this [CallDelete g table id]
| destroy_log_done g table id :
    destroy_log this [CallDelete g table id; Emit "settingsDelete" this; DoInit this;
                      SetStatus this SettingsExistenceStatus.NotExists].

Inductive method_log : Method -> list Step -> Prop :=
| log_new g target id c : method_log (New g target id) [DoInit c]
| log_clone this c json : method_log (Clone this) [DoInit c; DoPatch c json]
| log_sync this force l : sync_log this l -> method_log (Sync this force) l
| log_destroy this l1 l2 :
    sync_log this l1 -> destroy_log this l2 -> method_log (Destroy this) (l1 ++ l2)
| log_behind g provider b : method_log (Behind g provider b) [].

(** ** The keys of a parsed update *)

(** The first key along a path: [path.split('.')[0]]. *)
Definition first_key (path : string) : string :=
  match split_dot path with
  | k :: _ => k
  | [] => path
  end.

(** ** The objects under an instance *)

(** Above, what a folder holds is written by value. That tells what a
    snapshot reads, not which objects two instances share: a folder is a
    mutable map, its sub-folders are mutable maps it refers to, and an array
    or a plain object held at an entry is a mutable object too. Here the
    objects live in a store of cells, named by reference; a cell is written in
    place, and two folders share an object when both refer to its cell. *)
Module Live.

Abbreviation loc := nat.

(** A value as it is held: a primitive is the value itself, an array or a
    plain object is a reference to its cell. *)
Inductive rvalue : Type :=
| Imm (v : value)
| Ref (l : loc).

(** What the map of a folder holds at a key: a value, at a schema entry, or a
    sub-folder, at a schema folder. *)
Inductive slot : Type :=
| Held (rv : rvalue)
| Folder (l : loc).

Inductive cell : Type :=
| CValue (v : value)                          (* an array or a plain object *)
| CFolder (entries : list (string * slot)).   (* the map of a SettingsFolder *)

Abbreviation store := (list cell).

(** [map.get(key)] and [map.set(key, sl)] on the entries of a folder. *)
Fixpoint mget (es : list (string * slot)) (k : string) : option slot :=
  match es with
  | [] => None
  | (k', sl) :: es' => if String.eqb k' k then Some sl else mget es' k
  end.

Fixpoint mset (es : list (string * slot)) (k : string) (sl : slot) : list (string * slot) :=
  match es with
  | [] => [(k, sl)]
  | (k', sl') :: es' =>
      if String.eqb k' k then (k', sl) :: es' else (k', sl') :: mset es' k sl
  end.

Definition folder_at (g : store) (l : loc) : option (list (string * slot)) :=
  match g !! l with
  | Some (CFolder es) => Some es
  | _ => None
  end.

Definition slot_at (g : store) (l : loc) (k : string) : option slot :=
  match folder_at g l with
  | Some es => mget es k
  | None => None
  end.

(** [folder.set(key, sl)], in place. *)
Definition set_slot (g : store) (l : loc) (k : string) (sl : slot) : store :=
  match folder_at g l with
  | Some es => <[l := CFolder (mset es k sl)]> g
  | None => g
  end.

Definition has_identity (v : value) : bool :=
  match v with
  | VArr _ | VObj _ => true
  | _ => false
  end.

(** The value [v] as a folder holds it: an array or a plain object gets a cell
    of its own. *)
Definition hold (g : store) (v : value) : rvalue * store :=
  if has_identity v then (Ref (length g), g ++ [CValue v]) else (Imm v, g).

(** What a held value reads as. *)
Definition deref (g : store) (rv : rvalue) : value :=
  match rv with
  | Imm v => v
  | Ref l =>
      match g !! l with
      | Some (CValue v) => v
      | _ => VNull
      end
  end.

(** A structural copy of a held value: a new array or plain object with the
    content of the old one. *)
Definition copy (g : store) (rv : rvalue) : rvalue * store :=
  match rv with
  | Imm v => (Imm v, g)
  | Ref l => (Ref (length g), g ++ [CValue (deref g rv)])
  end.

(** Modelled from the spec: [SettingsFolder._init] (SettingsFolder.ts is not
    part of src/) "recursively fills every schema path with its default
    value"; at a schema folder it makes a new SettingsFolder, sets it at the
    key and fills it the same way. *)
Fixpoint _init (g : store) (folder : loc) (schema : SchemaFolder) {struct schema} : store :=
  match schema with
  | FNil => g
  | FCons key (Leaf e) rest =>
      let (rv, g1) := hold g (SchemaEntry.default e) in
      _init (set_slot g1 folder key (Held rv)) folder rest
  | FCons key (Sub sub) rest =>
      let settings := length g in
      let g1 := g ++ [CFolder []] in
      let g2 := set_slot g1 folder key (Folder settings) in
      let g3 := _init g2 settings sub in
      _init g3 folder rest
  end.

(** Modelled from the spec: [SettingsFolder.toJSON] "produces a plain snapshot
    of the current shape ...; must be a structural copy, not a shared
    reference into the live tree". The folder has the shape of the schema it
    is bound to (the folder's invariant), and the snapshot is read along it: a
    copy of the value at every entry, the snapshot of the sub-folder at every
    folder. The plain objects the snapshot is made of are new and nothing but
    the snapshot refers to them: they are written by value, as the tree of
    what they hold. *)
Fixpoint toJSON (schema : SchemaFolder) (g : store) (l : loc) {struct schema}
  : forest rvalue * store :=
  match schema with
  | FNil => (FNil, g)
  | FCons key (Leaf _) rest =>
      match slot_at g l key with
      | Some (Held rv) =>
          let (rv', g1) := copy g rv in
          let (json, g2) := toJSON rest g1 l in
          (FCons key (Leaf rv') json, g2)
      | _ => toJSON rest g l
      end
  | FCons key (Sub sub) rest =>
      match slot_at g l key with
      | Some (Folder l') =>
          let (inner, g1) := toJSON sub g l' in
          let (json, g2) := toJSON rest g1 l in
          (FCons key (Sub inner) json, g2)
      | _ => toJSON rest g l
      end
  end.

(** Modelled from the spec: [SettingsFolder._patch] "merges an incoming plain
    object into the folder by path, overwriting only the leaves present in
    data". The value the data holds at a key is set at an entry of the folder,
    as it is; a plain object of the data is patched into the sub-folder there
    is at its key; a key the folder does not have, or holds otherwise, is
    skipped. *)
Fixpoint _patch (g : store) (l : loc) (data : forest rvalue) {struct data} : store :=
  match data with
  | FNil => g
  | FCons key n rest =>
      let g' :=
        match n, slot_at g l key with
        | Leaf rv, Some (Held _) => set_slot g l key (Held rv)
        | Sub inner, Some (Folder l') => _patch g l' inner
        | _, _ => g
        end in
      _patch g' l rest
  end.

(** Settings.ts, lines 11-18, on the cells: [super(gateway.schema)] makes the
    map, [_init] fills it. *)
Definition new (schema : SchemaFolder) (g : store) : loc * store :=
  let this := length g in
  (this, _init (g ++ [CFolder []]) this schema).

(** Settings.ts, lines 23-27, on the cells. *)
Definition clone (schema : SchemaFolder) (g : store) (this : loc) : loc * store :=
  let (clone, g1) := new schema g in
  let (json, g2) := toJSON schema g1 this in
  (clone, _patch g2 clone json).

(** *** Reading a folder off the store *)

(** What the folder at [l] holds, along its schema. *)
Fixpoint leaves (schema : SchemaFolder) (g : store) (l : loc) {struct schema} : forest rvalue :=
  match schema with
  | FNil => FNil
  | FCons key (Leaf _) rest =>
      match slot_at g l key with
      | Some (Held rv) => FCons key (Leaf rv) (leaves rest g l)
      | _ => leaves rest g l
      end
  | FCons key (Sub sub) rest =>
      match slot_at g l key with
      | Some (Folder l') => FCons key (Sub (leaves sub g l')) (leaves rest g l)
      | _ => leaves rest g l
      end
  end.

(** The sub-folders under the folder at [l], at any depth. *)
Fixpoint folders (schema : SchemaFolder) (g : store) (l : loc) {struct schema} : list loc :=
  match schema with
  | FNil => []
  | FCons key (Leaf _) rest => folders rest g l
  | FCons key (Sub sub) rest =>
      match slot_at g l key with
      | Some (Folder l') => l' :: folders sub g l' ++ folders rest g l
      | _ => folders rest g l
      end
  end.

(** The folder at [l] has the shape of the schema: a value at every entry, a
    sub-folder of the same kind at every folder. *)
Fixpoint framed (schema : SchemaFolder) (g : store) (l : loc) {struct schema} : bool :=
  match schema with
  | FNil => true
  | FCons key (Leaf _) rest =>
      match slot_at g l key with
      | Some (Held _) => framed rest g l
      | _ => false
      end
  | FCons key (Sub sub) rest =>
      match slot_at g l key with
      | Some (Folder l') => framed sub g l' && framed rest g l
      | _ => false
      end
  end.

(** A tree of held values, read by value, and the cells it refers to. *)
Fixpoint values (g : store) (t : forest rvalue) : forest value :=
  match t with
  | FNil => FNil
  | FCons key (Leaf rv) rest => FCons key (Leaf (deref g rv)) (values g rest)
  | FCons key (Sub inner) rest => FCons key (Sub (values g inner)) (values g rest)
  end.

Fixpoint refs (t : forest rvalue) : list loc :=
  match t with
  | FNil => []
  | FCons _ (Leaf (Ref a)) rest => a :: refs rest
  | FCons _ (Leaf (Imm _)) rest => refs rest
  | FCons _ (Sub inner) rest => refs inner ++ refs rest
  end.

(** The folder at [l] as the by-value model has it. *)
Definition view (schema : SchemaFolder) (g : store) (l : loc) : SettingsFolder :=
  values g (leaves schema g l).

(** The mutable objects under the folder at [l]: its sub-folders and the
    arrays and plain objects they and it hold. With [l] itself, everything a
    change made through the folder can write to. *)
Definition objects (schema : SchemaFolder) (g : store) (l : loc) : list loc :=
  folders schema g l ++ refs (leaves schema g l).

(** What [toJSON()] of the folder at [l] reads as: the snapshot, by value. *)
Definition snapshot (schema : SchemaFolder) (g : store) (l : loc) : forest value :=
  let (json, g') := toJSON schema g l in values g' json.

(** The folder at [l] is a folder of the store [g]: it has the schema's shape
    and all its objects are cells of [g]. *)
Definition live (schema : SchemaFolder) (g : store) (l : loc) : Prop :=
  folder_at g l <> None
  /\ framed schema g l = true
  /\ forall a, In a (objects schema g l) -> a < length g.

End Live.

(** A schema with an array at an entry of a sub-folder, a new instance of it,
    and the cells of that instance: its map, the map of the sub-folder and the
    array. *)
Definition roles_schema : SchemaFolder :=
  FCons "prefix" (Leaf (SchemaEntry.mk "prefix" "string" (VStr "!")))
    (FCons "mod"
       (Sub (FCons "roles"
               (Leaf (SchemaEntry.mk "mod.roles" "role" (VArr [VStr "admin"]))) FNil))
       FNil).

Definition roles_settings : SettingsObject.t :=
  SettingsObject.mk "42" 0 VNull SettingsExistenceStatus.Unsynchronized roles_schema
    (defaults roles_schema).

Definition world_roles : World :=
  mkWorld [roles_settings]
    [Gateway.mk "guilds" roles_schema (Some "json") (Backend.mk [] None None)] [DoInit 0].

Definition roles_cells : list Live.cell := snd (Live.new roles_schema []).

(** ** Running the primitives *)

(** Reduce the store's projections and use a known lookup, as often as needed. *)
Ltac run_store H :=
  repeat first [ rewrite H | progress cbn [heap gateways trace] ].

Section Primitives.

Context {A : Type}.
Implicit Types (w : World) (k : unit -> M A).

Lemma run_read this o (k : SettingsObject.t -> M A) w :
  heap w !! this = Some o ->
  (let* x := read this in k x) w = k o w.
Proof. intros H. unfold bind, read. now rewrite H. Qed.

Lemma run_read_gateway g gw (k : Gateway.t -> M A) w :
  gateways w !! g = Some gw ->
  (let* x := read_gateway g in k x) w = k gw w.
Proof. intros H. unfold bind, read_gateway. now rewrite H. Qed.

Lemma run_ret {B} (b : B) (k : B -> M A) w : (let* x := ret b in k x) w = k b w.
Proof. reflexivity. Qed.

Lemma bind_assoc {B C} (m : M B) (f : B -> M C) (k : C -> M A) w :
  (let* y := (let* x := m in f x) in k y) w = (let* x := m in let* y := f x in k y) w.
Proof.
  unfold bind. destruct (m w) as [[[b|e] w']|]; reflexivity.
Qed.

End Primitives.

Lemma lookup_written (h : list SettingsObject.t) this o o' :
  h !! this = Some o -> <[this := o']> h !! this = Some o'.
Proof. intros H. apply list_lookup_insert_eq. eapply lookup_lt_Some, H. Qed.

Lemma not_null_status s : not_null (SettingsExistenceStatus.to_value s) = true.
Proof. destruct s; reflexivity. Qed.

(** The value of [force], given or defaulted. *)
Lemma run_force w this o force :
  heap w !! this = Some o ->
  (match force with Some b => ret b | None => Settings.default_force this end) w
  = Some (Resolved (effective_force o force), w).
Proof.
  intros H. destruct force; [reflexivity|].
  unfold Settings.default_force. now rewrite (run_read this o).
Qed.

Section Mutators.

Context {A : Type}.
Implicit Types (w : World) (m : M A).

Lemma run_set_existenceStatus this o s m w :
  heap w !! this = Some o ->
  (Settings.set_existenceStatus this s;; m) w
  = m (mkWorld (<[this := with_status o s]> (heap w)) (gateways w)
         (trace w ++ [SetStatus this s])).
Proof.
  intros H. unfold Settings.set_existenceStatus, bind, log, read, write.
  run_store H. reflexivity.
Qed.

Lemma run_patch this o data m w :
  heap w !! this = Some o ->
  (Settings.patch this data;; m) w
  = m (mkWorld (<[this := with_entries o (_patch (SettingsObject.entries o) data)]> (heap w))
         (gateways w) (trace w ++ [DoPatch this data])).
Proof.
  intros H. unfold Settings.patch, Settings.set_entries, bind, log, read, write.
  run_store H. reflexivity.
Qed.

Lemma run_init this o m w :
  heap w !! this = Some o ->
  (Settings.init this;; m) w
  = m (mkWorld
         (<[this := with_entries o
                      (_init (SettingsObject.entries o) (SettingsObject.schema o))]> (heap w))
         (gateways w) (trace w ++ [DoInit this])).
Proof.
  intros H. unfold Settings.init, Settings.set_entries, bind, log, read, write.
  run_store H. reflexivity.
Qed.

Lemma run_emit event this m w :
  (emit event this;; m) w = m (mkWorld (heap w) (gateways w) (trace w ++ [Emit event this])).
Proof. reflexivity. Qed.

Lemma run_push g gw id (k : option obj -> M A) w :
  gateways w !! g = Some gw ->
  (let* data := push g id in k data) w
  = let w' := mkWorld (heap w) (gateways w) (trace w ++ [CallPush g id]) in
    match Backend.read_error (Gateway.backend gw) with
    | Some e => Some (Rejected e, w')
    | None => k (find_row (Backend.rows (Gateway.backend gw)) id) w'
    end.
Proof.
  intros H. unfold push, bind, log, read_gateway. run_store H.
  destruct (Backend.read_error (Gateway.backend gw)); reflexivity.
Qed.

Lemma run_provider_delete g gw table id m w :
  gateways w !! g = Some gw ->
  (provider_delete g table id;; m) w
  = let b := Gateway.backend gw in
    match Backend.write_error b with
    | Some e =>
        Some (Rejected e, mkWorld (heap w) (gateways w) (trace w ++ [CallDelete g table id]))
    | None =>
        m (mkWorld (heap w)
             (<[g := with_backend gw
                       (Backend.mk (remove_row (Backend.rows b) id) (Backend.read_error b)
                          (Backend.write_error b))]> (gateways w))
             (trace w ++ [CallDelete g table id]))
    end.
Proof.
  intros H. unfold provider_delete, write_backend, bind, log, read_gateway.
  run_store H. cbn zeta.
  destruct (Backend.write_error (Gateway.backend gw)); [reflexivity|].
  run_store H. reflexivity.
Qed.

End Mutators.

(** ** sync, case by case *)

Section Sync.

Variables (w : World) (this : addr) (o : SettingsObject.t).
Hypothesis Hthis : heap w !! this = Some o.

(** Without force the call returns at line 35, whatever the status. *)
Lemma sync_not_forced force :
  effective_force o force = false ->
  Settings.sync this force w = Some (Resolved this, w).
Proof using Hthis.
  intros Hf. unfold Settings.sync.
  unfold bind at 1. rewrite (run_force w this o force), Hf by assumption.
  rewrite (run_read this o) by assumption.
  now rewrite not_null_status.
Qed.

Variable gw : Gateway.t.
Hypothesis Hgw : gateways w !! SettingsObject.gateway o = Some gw.

Lemma sync_forced force :
  effective_force o force = true ->
  Settings.sync this force w
  = match Backend.read_error (Gateway.backend gw) with
    | Some e =>
        Some (Rejected e,
              mkWorld (heap w) (gateways w)
                (trace w ++ [CallPush (SettingsObject.gateway o) (SettingsObject.id o)]))
    | None =>
        match find_row (Backend.rows (Gateway.backend gw)) (SettingsObject.id o) with
        | Some row =>
            Some (Resolved this,
                  mkWorld
                    (<[this := with_entries (with_status o SettingsExistenceStatus.Exists)
                                 (_patch (SettingsObject.entries o) row)]> (heap w))
                    (gateways w)
                    (trace w ++ [CallPush (SettingsObject.gateway o) (SettingsObject.id o);
                                 SetStatus this SettingsExistenceStatus.Exists;
                                 DoPatch this row; Emit "settingsSync" this]))
        | None =>
            Some (Resolved this,
                  mkWorld (<[this := with_status o SettingsExistenceStatus.NotExists]> (heap w))
                    (gateways w)
                    (trace w ++ [CallPush (SettingsObject.gateway o) (SettingsObject.id o);
                                 SetStatus this SettingsExistenceStatus.NotExists]))
        end
    end.
Proof using Hthis Hgw.
  intros Hf. unfold Settings.sync.
  unfold bind at 1. rewrite (run_force w this o force), Hf by assumption.
  rewrite (run_read this o) by assumption.
  cbn [negb andb]. rewrite (run_push _ gw) by assumption. cbn zeta.
  destruct (Backend.read_error (Gateway.backend gw)) as [e|]; [reflexivity|].
  destruct (find_row (Backend.rows (Gateway.backend gw)) (SettingsObject.id o)) as [row|].
  - rewrite bind_assoc.
    rewrite (run_set_existenceStatus this o) by assumption.
    rewrite bind_assoc.
    erewrite run_patch by (cbn [heap]; eapply lookup_written, Hthis).
    rewrite run_emit. cbn [heap gateways trace ret].
    rewrite list_insert_insert_eq. unfold ret. repeat rewrite <- app_assoc. reflexivity.
  - rewrite (run_set_existenceStatus this o) by assumption.
    unfold ret. cbn [heap gateways trace]. repeat rewrite <- app_assoc. reflexivity.
Qed.

End Sync.

Lemma sync_dangling w this force :
  heap w !! this = None -> Settings.sync this force w = None.
Proof.
  intros H. unfold Settings.sync, Settings.default_force, bind, read, ret.
  destruct force; now rewrite ?H.
Qed.

Lemma sync_dangling_gateway w this o force :
  heap w !! this = Some o ->
  effective_force o force = true ->
  gateways w !! SettingsObject.gateway o = None ->
  Settings.sync this force w = None.
Proof.
  intros H Hf Hg. unfold Settings.sync.
  unfold bind at 1. rewrite (run_force w this o force), Hf by assumption.
  rewrite (run_read this o) by assumption.
  cbn [negb andb]. unfold push, bind, log, read_gateway. run_store Hg. reflexivity.
Qed.

(** ** destroy, case by case, after its ensured sync *)

Section Destroy.

Variables (w w1 : World) (this : addr).

Lemma destroy_sync_rejected e :
  Settings.sync this None w = Some (Rejected e, w1) ->
  Settings.destroy this w = Some (Rejected e, w1).
Proof. intros H. unfold Settings.destroy. unfold bind at 1. now rewrite H. Qed.

Lemma destroy_sync_dangling :
  Settings.sync this None w = None -> Settings.destroy this w = None.
Proof. intros H. unfold Settings.destroy. unfold bind at 1. now rewrite H. Qed.

Variables (r : addr) (o1 : SettingsObject.t).
Hypothesis Hsync : Settings.sync this None w = Some (Resolved r, w1).
Hypothesis Hthis : heap w1 !! this = Some o1.

Lemma destroy_not_exists :
  SettingsObject.existenceStatus o1 <> SettingsExistenceStatus.Exists ->
  Settings.destroy this w = Some (Resolved this, w1).
Proof using Hsync Hthis.
  intros Hs. unfold Settings.destroy. unfold bind at 1. rewrite Hsync.
  rewrite (run_read this o1) by assumption.
  destruct (SettingsObject.existenceStatus o1); try reflexivity. now destruct Hs.
Qed.

Variable gw : Gateway.t.
Hypothesis Hexists : SettingsObject.existenceStatus o1 = SettingsExistenceStatus.Exists.
Hypothesis Hgw : gateways w1 !! SettingsObject.gateway o1 = Some gw.

Lemma destroy_no_provider :
  Gateway.provider gw = None ->
  Settings.destroy this w
  = Some (Rejected "The provider was not available during the destroy operation.", w1).
Proof using Hsync Hthis Hexists Hgw.
  intros Hp. unfold Settings.destroy. unfold bind at 1. rewrite Hsync.
  rewrite (run_read this o1) by assumption. rewrite Hexists. cbn [SettingsExistenceStatus.eqb].
  rewrite bind_assoc. rewrite (run_read_gateway _ gw) by assumption. now rewrite Hp.
Qed.

Lemma destroy_exists p :
  Gateway.provider gw = Some p ->
  Settings.destroy this w
  = let g := SettingsObject.gateway o1 in
    let b := Gateway.backend gw in
    let deleted := CallDelete g (Gateway.name gw) (SettingsObject.id o1) in
    match Backend.write_error b with
    | Some e => Some (Rejected e, mkWorld (heap w1) (gateways w1) (trace w1 ++ [deleted]))
    | None =>
        Some (Resolved this,
              mkWorld
                (<[this := with_status
                             (with_entries o1
                                (_init (SettingsObject.entries o1) (SettingsObject.schema o1)))
                             SettingsExistenceStatus.NotExists]> (heap w1))
                (<[g := with_backend gw
                          (Backend.mk (remove_row (Backend.rows b) (SettingsObject.id o1))
                             (Backend.read_error b) (Backend.write_error b))]> (gateways w1))
                (trace w1 ++ [deleted; Emit "settingsDelete" this; DoInit this;
                              SetStatus this SettingsExistenceStatus.NotExists]))
    end.
Proof using Hsync Hthis Hexists Hgw.
  intros Hp. unfold Settings.destroy. unfold bind at 1. rewrite Hsync.
  rewrite (run_read this o1) by assumption. rewrite Hexists. cbn [SettingsExistenceStatus.eqb].
  rewrite bind_assoc. rewrite (run_read_gateway _ gw) by assumption. rewrite Hp.
  rewrite bind_assoc. rewrite (run_provider_delete _ gw) by assumption. cbn zeta.
  destruct (Backend.write_error (Gateway.backend gw)) as [e|]; [reflexivity|].
  rewrite bind_assoc. rewrite run_emit.
  rewrite bind_assoc. erewrite run_init by (cbn [heap]; exact Hthis).
  erewrite run_set_existenceStatus by (cbn [heap]; eapply lookup_written, Hthis).
  unfold ret. cbn [heap gateways trace].
  rewrite list_insert_insert_eq. repeat rewrite <- app_assoc. reflexivity.
Qed.

End Destroy.

Lemma sync_inv w this force r w' :
  Settings.sync this force w = Some (r, w') ->
  exists o, heap w !! this = Some o /\ sync_outcome w this o r w'.
Proof.
  intros H. destruct (heap w !! this) as [o|] eqn:Ho.
  2: { rewrite sync_dangling in H by assumption. discriminate. }
  exists o. split; [reflexivity|].
  destruct (effective_force o force) eqn:Hf.
  - destruct (gateways w !! SettingsObject.gateway o) as [gw|] eqn:Hg.
    2: { rewrite (sync_dangling_gateway w this o) in H by assumption. discriminate. }
    rewrite (sync_forced w this o Ho gw Hg force Hf) in H.
    destruct (Backend.read_error (Gateway.backend gw)).
    + injection H as <- <-. constructor.
    + destruct (find_row _ _); injection H as <- <-; constructor.
  - rewrite (sync_not_forced w this o Ho force Hf) in H. injection H as <- <-. constructor.
Qed.

(** Where the references are good, [sync] ends. *)
Lemma sync_total w this o gw force :
  heap w !! this = Some o ->
  gateways w !! SettingsObject.gateway o = Some gw ->
  exists r w', Settings.sync this force w = Some (r, w').
Proof.
  intros Ho Hg. destruct (effective_force o force) eqn:Hf.
  - rewrite (sync_forced w this o Ho gw Hg force Hf).
    destruct (Backend.read_error _); [eauto|]. destruct (find_row _ _); eauto.
  - rewrite (sync_not_forced w this o Ho force Hf). eauto.
Qed.

Lemma sync_outcome_trace w this o r w' :
  sync_outcome w this o r w' ->
  exists added : list Step, trace w' = trace w ++ added /\ forallb sync_step added = true.
Proof.
  intros H. destruct H; cbn [trace].
  - exists []. now rewrite app_nil_r.
  - eexists. split; reflexivity.
  - eexists. split; reflexivity.
  - eexists. split; reflexivity.
Qed.

Lemma sync_outcome_gateways w this o r w' :
  sync_outcome w this o r w' -> gateways w' = gateways w.
Proof. intros H. now destruct H. Qed.

(** [sync] leaves the status as it was or makes it [Exists] or [NotExists],
    and it touches no other instance. *)
Lemma sync_outcome_status w this o r w' a s :
  heap w !! this = Some o ->
  sync_outcome w this o r w' ->
  status_at w a = Some s ->
  exists s', status_at w' a = Some s'
    /\ (s' = s \/ (a = this /\ (s' = SettingsExistenceStatus.Exists
                              \/ s' = SettingsExistenceStatus.NotExists))).
Proof.
  intros Ho H Hs. unfold status_at in *.
  destruct H; cbn [heap]; try (exists s; split; [assumption|now left]).
  - destruct (decide (a = this)) as [->|Hne].
    + rewrite (lookup_written _ _ o) by assumption. eexists. split; [reflexivity|]. right. auto.
    + rewrite list_lookup_insert_ne by congruence. exists s. split; [assumption|now left].
  - destruct (decide (a = this)) as [->|Hne].
    + rewrite (lookup_written _ _ o) by assumption. eexists. split; [reflexivity|]. right. auto.
    + rewrite list_lookup_insert_ne by congruence. exists s. split; [assumption|now left].
Qed.

Lemma sync_outcome_resolved w this o a w1 :
  heap w !! this = Some o ->
  sync_outcome w this o (Resolved a) w1 ->
  a = this /\ exists o1, heap w1 !! this = Some o1.
Proof.
  intros Ho H. inversion H; subst; split; try reflexivity; cbn [heap].
  - eauto.
  - eexists. eapply lookup_written, Ho.
  - eexists. eapply lookup_written, Ho.
Qed.

Lemma destroy_dangling_gateway w w1 this r o1 :
  Settings.sync this None w = Some (Resolved r, w1) ->
  heap w1 !! this = Some o1 ->
  SettingsObject.existenceStatus o1 = SettingsExistenceStatus.Exists ->
  gateways w1 !! SettingsObject.gateway o1 = None ->
  Settings.destroy this w = None.
Proof.
  intros Hsync Hthis Hexists Hg. unfold Settings.destroy. unfold bind at 1. rewrite Hsync.
  rewrite (run_read this o1) by assumption. rewrite Hexists. cbn [SettingsExistenceStatus.eqb].
  unfold bind, read_gateway. now rewrite Hg.
Qed.

Lemma destroy_inv w this r w' :
  Settings.destroy this w = Some (r, w') ->
  exists r1 w1,
    Settings.sync this None w = Some (r1, w1)
    /\ ((exists e, r1 = Rejected e /\ r = Rejected e /\ w' = w1)
        \/ (exists o1, r1 = Resolved this /\ heap w1 !! this = Some o1
                       /\ destroy_outcome w1 this o1 r w')).
Proof.
  intros H. destruct (Settings.sync this None w) as [[r1 w1]|] eqn:Hsync.
  2: { rewrite destroy_sync_dangling in H by assumption. discriminate. }
  exists r1, w1. split; [reflexivity|].
  destruct r1 as [a|e].
  2: { rewrite (destroy_sync_rejected w w1 this e Hsync) in H. injection H as <- <-.
       left. eauto. }
  right. destruct (sync_inv _ _ _ _ _ Hsync) as (o & Ho & Hout).
  destruct (sync_outcome_resolved _ _ _ _ _ Ho Hout) as (-> & o1 & Ho1).
  exists o1. split; [reflexivity|]. split; [assumption|].
  destruct (decide (SettingsObject.existenceStatus o1 = SettingsExistenceStatus.Exists))
    as [Hex|Hnex].
  2: { rewrite (destroy_not_exists w w1 this this o1 Hsync Ho1 Hnex) in H.
       injection H as <- <-. now constructor. }
  destruct (gateways w1 !! SettingsObject.gateway o1) as [gw|] eqn:Hg.
  2: { rewrite (destroy_dangling_gateway w w1 this this o1) in H by assumption. discriminate. }
  destruct (Gateway.provider gw) as [p|] eqn:Hp.
  - rewrite (destroy_exists w w1 this this o1 Hsync Ho1 gw Hex Hg p Hp) in H. cbn zeta in H.
    destruct (Backend.write_error (Gateway.backend gw)); injection H as <- <-.
    + now apply destroy_failed.
    + now apply destroy_done.
  - rewrite (destroy_no_provider w w1 this this o1 Hsync Ho1 gw Hex Hg Hp) in H.
    injection H as <- <-. now constructor.
Qed.

Lemma destroy_total w this o gw :
  heap w !! this = Some o ->
  gateways w !! SettingsObject.gateway o = Some gw ->
  exists r w', Settings.destroy this w = Some (r, w').
Proof.
  intros Ho Hg. destruct (sync_total w this o gw None Ho Hg) as (r1 & w1 & Hsync).
  destruct r1 as [a|e].
  2: { rewrite (destroy_sync_rejected w w1 this e Hsync). eauto. }
  destruct (sync_inv _ _ _ _ _ Hsync) as (o' & Ho' & Hout).
  assert (o' = o) as -> by congruence.
  destruct (sync_outcome_resolved _ _ _ _ _ Ho Hout) as (-> & o1 & Ho1).
  assert (Hg1 : gateways w1 !! SettingsObject.gateway o1 = Some gw).
  { rewrite (sync_outcome_gateways _ _ _ _ _ Hout).
    enough (SettingsObject.gateway o1 = SettingsObject.gateway o) as -> by assumption.
    inversion Hout; subst; cbn [heap] in Ho1.
    - congruence.
    - rewrite (lookup_written _ _ o) in Ho1 by assumption. now injection Ho1 as <-.
    - rewrite (lookup_written _ _ o) in Ho1 by assumption. now injection Ho1 as <-. }
  destruct (decide (SettingsObject.existenceStatus o1 = SettingsExistenceStatus.Exists))
    as [Hex|Hnex].
  2: { rewrite (destroy_not_exists w w1 this this o1 Hsync Ho1 Hnex). eauto. }
  destruct (Gateway.provider gw) as [p|] eqn:Hp.
  - rewrite (destroy_exists w w1 this this o1 Hsync Ho1 gw Hex Hg1 p Hp). cbn zeta.
    destruct (Backend.write_error (Gateway.backend gw)); eauto.
  - rewrite (destroy_no_provider w w1 this this o1 Hsync Ho1 gw Hex Hg1 Hp). eauto.
Qed.

(** After its ensured sync, [destroy] leaves the status as it was or makes it
    [NotExists], and it touches no other instance. *)
Lemma destroy_outcome_status w1 this o1 r w' a s :
  heap w1 !! this = Some o1 ->
  destroy_outcome w1 this o1 r w' ->
  status_at w1 a = Some s ->
  exists s', status_at w' a = Some s'
    /\ (s' = s \/ (a = this /\ s' = SettingsExistenceStatus.NotExists)).
Proof.
  intros Ho H Hs. unfold status_at in *.
  destruct H; cbn [heap]; try (exists s; split; [assumption|now left]).
  destruct (decide (a = this)) as [->|Hne].
  - rewrite (lookup_written _ _ o1) by assumption. eexists. split; [reflexivity|]. right. auto.
  - rewrite list_lookup_insert_ne by congruence. exists s. split; [assumption|now left].
Qed.

(** * The folder against its schema *)

Section Forest.

Context {A : Type}.
Implicit Types (f : forest A) (n : node A) (k : string).

Lemma fset_head k n m f : fset (FCons k n f) k m = FCons k m f.
Proof. cbn. now rewrite String.eqb_refl. Qed.

Lemma fset_other k k' n m f :
  String.eqb k k' = false -> fset (FCons k n f) k' m = FCons k n (fset f k' m).
Proof. intros H. cbn. now rewrite H. Qed.

Lemma fget_head k n f : fget (FCons k n f) k = Some n.
Proof. cbn. now rewrite String.eqb_refl. Qed.

Lemma fget_other k k' n f :
  String.eqb k k' = false -> fget (FCons k n f) k' = fget f k'.
Proof. intros H. cbn. now rewrite H. Qed.

End Forest.

Lemma init_cons_fresh k n (f : SettingsFolder) (s : SchemaFolder) :
  existsb (String.eqb k) (fkeys s) = false ->
  _init (FCons k n f) s = FCons k n (_init f s).
Proof.
  revert f. induction s as [|k' n' s IH]; intros f H; [reflexivity|].
  cbn [fkeys existsb] in H. apply orb_false_iff in H as [Hk Hs].
  destruct n' as [e|sub]; cbn [_init]; rewrite fset_other by assumption; now apply IH.
Qed.

Lemma init_defaults (s : SchemaFolder) :
  unique_keys s = true -> _init FNil s = defaults s.
Proof.
  induction s as [e|sub IH| |k n IHn rest IHrest]
    using forest_node_ind
    with (P := fun n => match n with
                        | Leaf _ => True
                        | Sub sub => unique_keys sub = true -> _init FNil sub = defaults sub
                        end);
    try easy.
  intros H. cbn [unique_keys] in H.
  apply andb_true_iff in H as [H Hrest]. apply andb_true_iff in H as [Hk Hn].
  apply negb_true_iff in Hk.
  destruct n as [e|sub]; cbn [_init defaults fset].
  - rewrite init_cons_fresh by assumption. now rewrite IHrest.
  - rewrite init_cons_fresh by assumption. now rewrite IHn, IHrest.
Qed.

Lemma same_shape_keys {A B} (f : forest A) (g : forest B) :
  same_shape f g = true -> fkeys g = fkeys f.
Proof.
  revert g. induction f as [|k n f IH]; intros [|k' m g] H; try discriminate; [reflexivity|].
  cbn [same_shape] in H. apply andb_true_iff in H as [H Hrest].
  apply andb_true_iff in H as [Hk _]. apply String.eqb_eq in Hk as ->.
  cbn [fkeys]. now rewrite (IH g).
Qed.

(** Resetting a folder of the schema's shape gives the defaults. *)
Lemma init_reset (s : SchemaFolder) (f : SettingsFolder) :
  unique_keys s = true -> same_shape s f = true -> _init f s = defaults s.
Proof.
  revert f. induction s as [|k n s IH]; intros [|k' m f] Hu Hs; try discriminate; [reflexivity|].
  cbn [same_shape] in Hs. apply andb_true_iff in Hs as [Hs Hrest].
  apply andb_true_iff in Hs as [Hk _]. apply String.eqb_eq in Hk as <-.
  cbn [unique_keys] in Hu. apply andb_true_iff in Hu as [Hu Hurest].
  apply andb_true_iff in Hu as [Hfresh Hn]. apply negb_true_iff in Hfresh.
  destruct n as [e|sub]; cbn [_init defaults]; rewrite fset_head.
  - rewrite init_cons_fresh by assumption. now rewrite IH.
  - rewrite init_cons_fresh by assumption. rewrite init_defaults by assumption. now rewrite IH.
Qed.

Lemma okeys_toJSON (f : SettingsFolder) : okeys (toJSON f) = fkeys f.
Proof.
  induction f as [|k n f IH]; [reflexivity|].
  destruct n; cbn [toJSON okeys fkeys]; now rewrite IH.
Qed.

Lemma patch_cons_fresh k n (f : SettingsFolder) (d : obj) :
  existsb (String.eqb k) (okeys d) = false ->
  _patch (FCons k n f) d = FCons k n (_patch f d).
Proof.
  revert f. induction d as [|k' v d IH]; intros f H; [reflexivity|].
  cbn [okeys existsb] in H. apply orb_false_iff in H as [Hk Hd].
  cbn [_patch]. rewrite fget_other by assumption.
  destruct (fget f k') as [[a|sub]|].
  - rewrite fset_other by assumption. now apply IH.
  - destruct v; try (now apply IH). rewrite fset_other by assumption. now apply IH.
  - now apply IH.
Qed.

(** Patching a folder with the snapshot of a folder of the same shape gives
    that folder back. *)
Lemma patch_snapshot (f : SettingsFolder) :
  forall t : SettingsFolder,
    unique_keys f = true -> same_shape t f = true -> _patch t (toJSON f) = f.
Proof.
  induction f as [e|sub IH| |k n IHn rest IHrest]
    using forest_node_ind
    with (P := fun n => match n with
                        | Leaf _ => True
                        | Sub sub =>
                            forall t : SettingsFolder,
                              unique_keys sub = true -> same_shape t sub = true ->
                              _patch t (toJSON sub) = sub
                        end);
    try easy.
  - intros [|? ? ?] _ H; [reflexivity|discriminate].
  - intros [|k' m t] Hu Hs; [discriminate|].
    cbn [same_shape] in Hs. apply andb_true_iff in Hs as [Hs Hrest].
    apply andb_true_iff in Hs as [Hk Hn]. apply String.eqb_eq in Hk as ->.
    cbn [unique_keys] in Hu. apply andb_true_iff in Hu as [Hu Hurest].
    apply andb_true_iff in Hu as [Hfresh Hun]. apply negb_true_iff in Hfresh.
    rewrite <- okeys_toJSON in Hfresh.
    destruct n as [v|sub]; destruct m as [v'|sub']; try discriminate;
      cbn [toJSON _patch]; rewrite fget_head, fset_head.
    + rewrite patch_cons_fresh by assumption. now rewrite IHrest.
    + rewrite IHn by assumption.
      rewrite patch_cons_fresh by assumption. now rewrite IHrest.
Qed.

Lemma same_shape_defaults (s : SchemaFolder) : same_shape s (defaults s) = true.
Proof.
  induction s as [e|sub IH| |k n IHn rest IHrest]
    using forest_node_ind
    with (P := fun n => match n with
                        | Leaf _ => True
                        | Sub sub => same_shape sub (defaults sub) = true
                        end);
    try easy.
  destruct n; cbn [defaults same_shape]; rewrite String.eqb_refl, IHrest; [reflexivity|].
  now rewrite IHn.
Qed.

(** The shape relation does not look at what the leaves hold. *)
Lemma same_shape_trans {A B C} (f : forest A) :
  forall (g : forest B) (h : forest C),
    same_shape f g = true -> same_shape f h = true -> same_shape g h = true.
Proof.
  induction f as [e|sub IH| |k n IHn rest IHrest]
    using forest_node_ind
    with (P := fun n => match n with
                        | Leaf _ => True
                        | Sub sub =>
                            forall (g : forest B) (h : forest C),
                              same_shape sub g = true -> same_shape sub h = true ->
                              same_shape g h = true
                        end);
    try easy.
  - intros [|? ? ?] [|? ? ?]; easy.
  - intros [|kg ng g] [|kh nh h] Hg Hh; try discriminate.
    cbn [same_shape] in *.
    apply andb_true_iff in Hg as [Hg Hgrest]. apply andb_true_iff in Hg as [Hkg Hng].
    apply andb_true_iff in Hh as [Hh Hhrest]. apply andb_true_iff in Hh as [Hkh Hnh].
    apply String.eqb_eq in Hkg as <-. apply String.eqb_eq in Hkh as <-.
    rewrite String.eqb_refl, (IHrest g h) by assumption.
    destruct n, ng, nh; try discriminate; try reflexivity.
    cbn. rewrite (IHn f0 f1) by assumption. reflexivity.
Qed.

Lemma unique_keys_shape {A B} (f : forest A) :
  forall g : forest B, same_shape f g = true -> unique_keys g = unique_keys f.
Proof.
  induction f as [e|sub IH| |k n IHn rest IHrest]
    using forest_node_ind
    with (P := fun n => match n with
                        | Leaf _ => True
                        | Sub sub =>
                            forall g : forest B,
                              same_shape sub g = true -> unique_keys g = unique_keys sub
                        end);
    try easy.
  - intros [|? ? ?]; easy.
  - intros [|kg ng g] Hg; try discriminate.
    pose proof (same_shape_keys _ _ Hg) as Hkeys.
    cbn [same_shape] in Hg.
    apply andb_true_iff in Hg as [Hg Hgrest]. apply andb_true_iff in Hg as [Hkg Hng].
    apply String.eqb_eq in Hkg as <-. cbn [fkeys] in Hkeys. injection Hkeys as Hkeys.
    cbn [unique_keys]. rewrite Hkeys, (IHrest g) by assumption.
    destruct n, ng; try discriminate; try reflexivity.
    now rewrite (IHn f0).
Qed.

(** * The claims about sync *)

Example new_gives_world_fresh :
  Settings.new 0 VNull "42" (mkWorld [] [example_gateway (Some "json") [("42", example_row)]] [])
  = Some (Resolved 0, world_fresh).
Proof. reflexivity. Qed.

(** The default of [force] is true only when the status is [Unsynchronized]. *)
Lemma default_force_iff o :
  effective_force o None = true
  <-> SettingsObject.existenceStatus o = SettingsExistenceStatus.Unsynchronized.
Proof.
  unfold effective_force. destruct (SettingsObject.existenceStatus o); intuition discriminate.
Qed.

(** C1, at the input where the code leaves it: [sync(false)] on an instance
    whose status is still [Unsynchronized] returns the instance at once; the
    store is as before, so nothing was pushed to the request handler. The
    guard of line 35 compares the status with [null], which no member of the
    enum is, so it lets every call without force return. *)
Theorem sync_false_returns_while_unsynchronized w this o :
  heap w !! this = Some o ->
  SettingsObject.existenceStatus o = SettingsExistenceStatus.Unsynchronized ->
  Settings.sync this (Some false) w = Some (Resolved this, w).
Proof.
  intros Ho _. now apply (sync_not_forced w this o Ho (Some false)).
Qed.

Lemma sync_false_returns_while_unsynchronized_witness :
  status_at world_fresh 0 = Some SettingsExistenceStatus.Unsynchronized
  /\ Settings.sync 0 (Some false) world_fresh = Some (Resolved 0, world_fresh).
Proof.
  split; [reflexivity|].
  apply (sync_false_returns_while_unsynchronized world_fresh 0
           (example_settings SettingsExistenceStatus.Unsynchronized "!")); reflexivity.
Defined.

(** C2, as the code has it: a [sync] that fetches and is answered sets the
    status to [Exists], patches the row onto the folder and then emits
    [settingsSync] with the instance, when a row came back; it sets the status
    to [NotExists] and leaves the folder's values alone when none did. So,
    for an id absent from storage, the fields equal their schema defaults
    afterwards when they did before, as in a newly made instance. *)
Theorem sync_fetch_result w this o gw force :
  heap w !! this = Some o ->
  gateways w !! SettingsObject.gateway o = Some gw ->
  effective_force o force = true ->
  Backend.read_error (Gateway.backend gw) = None ->
  exists w',
    Settings.sync this force w = Some (Resolved this, w')
    /\ gateways w' = gateways w
    /\ match find_row (Backend.rows (Gateway.backend gw)) (SettingsObject.id o) with
       | Some row =>
           heap w' = <[this := with_entries (with_status o SettingsExistenceStatus.Exists)
                                 (_patch (SettingsObject.entries o) row)]> (heap w)
           /\ status_at w' this = Some SettingsExistenceStatus.Exists
           /\ entries_at w' this = Some (_patch (SettingsObject.entries o) row)
           /\ trace w' = trace w ++ [CallPush (SettingsObject.gateway o) (SettingsObject.id o);
                                     SetStatus this SettingsExistenceStatus.Exists;
                                     DoPatch this row; Emit "settingsSync" this]
       | None =>
           heap w' = <[this := with_status o SettingsExistenceStatus.NotExists]> (heap w)
           /\ status_at w' this = Some SettingsExistenceStatus.NotExists
           /\ entries_at w' this = Some (SettingsObject.entries o)
           /\ trace w' = trace w ++ [CallPush (SettingsObject.gateway o) (SettingsObject.id o);
                                     SetStatus this SettingsExistenceStatus.NotExists]
           /\ (SettingsObject.entries o = _init FNil (SettingsObject.schema o) ->
               entries_at w' this = Some (_init FNil (SettingsObject.schema o)))
       end.
Proof.
  intros Ho Hg Hf He.
  rewrite (sync_forced w this o Ho gw Hg force Hf), He.
  unfold status_at, entries_at.
  destruct (find_row _ _) as [row|]; eexists; (split; [reflexivity|]); cbn [heap gateways trace];
    rewrite (lookup_written _ _ o) by assumption; cbn [fmap option_fmap option_map];
    repeat split; intros H; cbn; now rewrite H.
Qed.

Lemma sync_fetch_result_witness :
  find_row [] "42" = None
  /\ exists w',
       Settings.sync 0 None world_absent = Some (Resolved 0, w')
       /\ status_at w' 0 = Some SettingsExistenceStatus.NotExists
       /\ entries_at w' 0 = Some (_init FNil example_schema).
Proof.
  split; [reflexivity|].
  destruct (sync_fetch_result world_absent 0
              (example_settings SettingsExistenceStatus.Unsynchronized "!")
              (example_gateway (Some "json") []) None
              eq_refl eq_refl eq_refl eq_refl) as (w' & Hrun & _ & H).
  cbn in H. destruct H as (_ & Hs & _ & _ & Hd).
  exists w'. repeat split; [exact Hrun | exact Hs | exact (Hd eq_refl)].
Defined.

(** C2 as the specification states it fails: an instance is synchronized
    while its row is in storage, and the row is then removed. [sync(true)]
    fetches, finds nothing and sets the status to [NotExists], and the prefix
    is still the row's "?", not the schema's "!"; a [sync()] without argument
    does not even fetch. *)
Lemma sync_absent_keeps_values :
  let gone := [example_gateway (Some "json") []] in
  find_row (Backend.rows (Gateway.backend (example_gateway (Some "json") []))) "42" = None
  /\ (exists w',
        run_ops [OpSync 0 None; OpEnvironment gone; OpSync 0 (Some true)] world_fresh = Some w'
        /\ trace w' = [DoInit 0;
                       CallPush 0 "42"; SetStatus 0 SettingsExistenceStatus.Exists;
                       DoPatch 0 example_row; Emit "settingsSync" 0;
                       CallPush 0 "42"; SetStatus 0 SettingsExistenceStatus.NotExists]
        /\ status_at w' 0 = Some SettingsExistenceStatus.NotExists
        /\ entries_at w' 0
           = Some (SettingsObject.entries (example_settings SettingsExistenceStatus.Exists "?"))
        /\ entries_at w' 0 <> Some (_init FNil example_schema)
        /\ entries_at w' 0 <> Some (defaults example_schema))
  /\ (exists w',
        run_ops [OpSync 0 None; OpEnvironment gone; OpSync 0 None] world_fresh = Some w'
        /\ trace w' = [DoInit 0;
                       CallPush 0 "42"; SetStatus 0 SettingsExistenceStatus.Exists;
                       DoPatch 0 example_row; Emit "settingsSync" 0]
        /\ entries_at w' 0 <> Some (_init FNil example_schema)).
Proof.
  cbv zeta. split; [reflexivity|]. split.
  - eexists. split; [vm_compute; reflexivity|].
    repeat split; try (vm_compute; reflexivity); vm_compute; discriminate.
  - eexists. split; [vm_compute; reflexivity|].
    repeat split; try (vm_compute; reflexivity); vm_compute; discriminate.
Qed.

(** * The claims about destroy *)

Lemma sync_step_no_delete added :
  forallb sync_step added = true ->
  forallb (fun s => negb (is_delete s) && negb (is_delete_event s)) added = true.
Proof.
  intros H. apply forallb_forall. intros s Hs.
  apply (proj1 (forallb_forall _ _) H) in Hs.
  destruct s; try discriminate; try reflexivity.
  cbn in *. apply String.eqb_eq in Hs as ->. reflexivity.
Qed.

(** C5: when the ensured sync leaves the instance [Exists] and the gateway
    has no provider, [destroy] throws, and the store is the one the sync left:
    the status is still [Exists], the folder's values are not reset, and of
    the steps the call logged none is a [provider.delete] or a delete event. *)
Theorem destroy_without_provider_throws w w1 this r o1 gw :
  Settings.sync this None w = Some (Resolved r, w1) ->
  heap w1 !! this = Some o1 ->
  SettingsObject.existenceStatus o1 = SettingsExistenceStatus.Exists ->
  gateways w1 !! SettingsObject.gateway o1 = Some gw ->
  Gateway.provider gw = None ->
  Settings.destroy this w
  = Some (Rejected "The provider was not available during the destroy operation.", w1)
  /\ status_at w1 this = Some SettingsExistenceStatus.Exists
  /\ entries_at w1 this = Some (SettingsObject.entries o1)
  /\ exists added : list Step,
       trace w1 = trace w ++ added
       /\ forallb (fun s => negb (is_delete s) && negb (is_delete_event s)) added = true.
Proof.
  intros Hsync Ho1 Hex Hg Hp.
  split; [exact (destroy_no_provider w w1 this r o1 Hsync Ho1 gw Hex Hg Hp)|].
  unfold status_at, entries_at. rewrite Ho1. cbn. rewrite Hex.
  split; [reflexivity|]. split; [reflexivity|].
  destruct (sync_inv _ _ _ _ _ Hsync) as (o & Ho & Hout).
  destruct (sync_outcome_trace _ _ _ _ _ Hout) as (added & Ht & Hadded).
  exists added. split; [assumption|]. now apply sync_step_no_delete.
Qed.

Lemma destroy_without_provider_throws_witness :
  Settings.destroy 0 (world_synced None)
  = Some (Rejected "The provider was not available during the destroy operation.",
          world_synced None)
  /\ status_at (world_synced None) 0 = Some SettingsExistenceStatus.Exists.
Proof.
  destruct (destroy_without_provider_throws (world_synced None) (world_synced None) 0 0
              (example_settings SettingsExistenceStatus.Exists "?")
              (example_gateway None [("42", example_row)])
              eq_refl eq_refl eq_refl eq_refl eq_refl) as (Hrun & Hs & _).
  split; [exact Hrun | exact Hs].
Defined.

(** C6: when the ensured sync leaves the instance [Exists] and a provider is
    at hand, [destroy] first calls [provider.delete] with the gateway's name
    and the id; once that call has resolved it emits [settingsDelete] with the
    instance, then resets the folder with [_init], then sets the status to
    [NotExists], in this order, and returns the instance it was called on;
    the reset folder holds the schema's defaults. (A [provider.delete] that
    rejects ends the call there, with its error.) *)
Theorem destroy_existing_entry w w1 this r o1 gw p :
  Settings.sync this None w = Some (Resolved r, w1) ->
  heap w1 !! this = Some o1 ->
  SettingsObject.existenceStatus o1 = SettingsExistenceStatus.Exists ->
  gateways w1 !! SettingsObject.gateway o1 = Some gw ->
  Gateway.provider gw = Some p ->
  let deleted :=
    CallDelete (SettingsObject.gateway o1) (Gateway.name gw) (SettingsObject.id o1) in
  match Backend.write_error (Gateway.backend gw) with
  | Some e =>
      Settings.destroy this w
      = Some (Rejected e, mkWorld (heap w1) (gateways w1) (trace w1 ++ [deleted]))
  | None =>
      exists w',
        Settings.destroy this w = Some (Resolved this, w')
        /\ trace w' = trace w1 ++ [deleted;
                                   Emit "settingsDelete" this;
                                   DoInit this;
                                   SetStatus this SettingsExistenceStatus.NotExists]
        /\ heap w' = <[this := with_status
                                (with_entries o1
                                   (_init (SettingsObject.entries o1) (SettingsObject.schema o1)))
                                SettingsExistenceStatus.NotExists]> (heap w1)
        /\ status_at w' this = Some SettingsExistenceStatus.NotExists
        /\ entries_at w' this
           = Some (_init (SettingsObject.entries o1) (SettingsObject.schema o1))
        /\ (unique_keys (SettingsObject.schema o1) = true ->
            same_shape (SettingsObject.schema o1) (SettingsObject.entries o1) = true ->
            entries_at w' this = Some (defaults (SettingsObject.schema o1))
            /\ entries_at w' this = Some (_init FNil (SettingsObject.schema o1)))
  end.
Proof.
  intros Hsync Ho1 Hex Hg Hp deleted.
  rewrite (destroy_exists w w1 this r o1 Hsync Ho1 gw Hex Hg p Hp). cbn zeta.
  destruct (Backend.write_error (Gateway.backend gw)) as [e|]; [reflexivity|].
  eexists. split; [reflexivity|]. cbn [heap gateways trace].
  split; [reflexivity|]. split; [reflexivity|].
  unfold status_at, entries_at. cbn [heap].
  rewrite (lookup_written _ _ o1) by assumption. cbn.
  split; [reflexivity|]. split; [reflexivity|].
  intros Hu Hs. rewrite init_reset, init_defaults by assumption. split; reflexivity.
Qed.

Lemma destroy_existing_entry_witness :
  exists w',
    Settings.destroy 0 (world_synced (Some "json")) = Some (Resolved 0, w')
    /\ trace w' = [CallDelete 0 "guilds" "42"; Emit "settingsDelete" 0; DoInit 0;
                   SetStatus 0 SettingsExistenceStatus.NotExists]
    /\ status_at w' 0 = Some SettingsExistenceStatus.NotExists
    /\ entries_at w' 0 = Some (defaults example_schema).
Proof.
  destruct (destroy_existing_entry (world_synced (Some "json")) (world_synced (Some "json")) 0 0
              (example_settings SettingsExistenceStatus.Exists "?")
              (example_gateway (Some "json") [("42", example_row)]) "json"
              eq_refl eq_refl eq_refl eq_refl eq_refl)
    as (w' & Hrun & Ht & _ & Hs & _ & Hd).
  exists w'. split; [exact Hrun|]. split; [exact Ht|]. split; [exact Hs|].
  exact (proj1 (Hd eq_refl eq_refl)).
Defined.

(** C7: when the ensured sync leaves the instance with a status other than
    [Exists], [destroy] returns it with the store exactly as the sync left it
    (values, status, storage and log), and of the steps the whole call logged
    none is a [provider.delete]: they are the sync's. *)
Theorem destroy_absent_entry w w1 this r o1 :
  Settings.sync this None w = Some (Resolved r, w1) ->
  heap w1 !! this = Some o1 ->
  SettingsObject.existenceStatus o1 <> SettingsExistenceStatus.Exists ->
  Settings.destroy this w = Some (Resolved this, w1)
  /\ exists added : list Step,
       trace w1 = trace w ++ added
       /\ forallb sync_step added = true
       /\ forallb (fun s => negb (is_delete s)) added = true.
Proof.
  intros Hsync Ho1 Hs. split.
  - exact (destroy_not_exists w w1 this r o1 Hsync Ho1 Hs).
  - destruct (sync_inv _ _ _ _ _ Hsync) as (o & Ho & Hout).
    destruct (sync_outcome_trace _ _ _ _ _ Hout) as (added & Ht & Hadded).
    exists added. split; [assumption|]. split; [assumption|].
    apply forallb_forall. intros s Hin.
    apply (proj1 (forallb_forall _ _) Hadded) in Hin. now destruct s.
Qed.

Lemma destroy_absent_entry_witness :
  exists w1,
    Settings.sync 0 None world_absent = Some (Resolved 0, w1)
    /\ status_at w1 0 = Some SettingsExistenceStatus.NotExists
    /\ Settings.destroy 0 world_absent = Some (Resolved 0, w1)
    /\ trace w1 = trace world_absent
                  ++ [CallPush 0 "42"; SetStatus 0 SettingsExistenceStatus.NotExists].
Proof.
  eexists. split; [reflexivity|]. split; [reflexivity|]. split; [|reflexivity].
  eapply (destroy_absent_entry world_absent _ 0 0
            (example_settings SettingsExistenceStatus.NotExists "!")).
  - reflexivity.
  - reflexivity.
  - discriminate.
Defined.

(** * Construction and cloning *)

Lemma lookup_last_added (h : list SettingsObject.t) o : (h ++ [o]) !! length h = Some o.
Proof. now apply list_lookup_middle. Qed.

Lemma insert_last_added (h : list SettingsObject.t) o o' :
  <[length h := o']> (h ++ [o]) = h ++ [o'].
Proof.
  rewrite insert_app_r_alt by lia. now rewrite Nat.sub_diag.
Qed.

Lemma new_run w g gw target id :
  gateways w !! g = Some gw ->
  Settings.new g target id w
  = Some (Resolved (length (heap w)),
          mkWorld
            (heap w ++ [SettingsObject.mk id g target SettingsExistenceStatus.Unsynchronized
                          (Gateway.schema gw) (_init FNil (Gateway.schema gw))])
            (gateways w)
            (trace w ++ [DoInit (length (heap w))])).
Proof.
  intros Hg. unfold Settings.new. rewrite (run_read_gateway g gw) by assumption.
  unfold bind at 1. unfold alloc.
  erewrite run_init by (cbn [heap]; apply lookup_last_added).
  unfold ret. cbn [heap gateways trace]. now rewrite insert_last_added.
Qed.

Lemma clone_run w this o gw :
  heap w !! this = Some o ->
  gateways w !! SettingsObject.gateway o = Some gw ->
  Settings.clone this w
  = Some (Resolved (length (heap w)),
          mkWorld
            (heap w ++ [SettingsObject.mk (SettingsObject.id o) (SettingsObject.gateway o)
                          (SettingsObject.target o) SettingsExistenceStatus.Unsynchronized
                          (Gateway.schema gw)
                          (_patch (_init FNil (Gateway.schema gw))
                             (toJSON (SettingsObject.entries o)))])
            (gateways w)
            (trace w ++ [DoInit (length (heap w));
                         DoPatch (length (heap w)) (toJSON (SettingsObject.entries o))])).
Proof.
  intros Ho Hg. unfold Settings.clone. rewrite (run_read this o) by assumption.
  unfold bind at 1. rewrite (new_run w _ gw) by assumption.
  unfold Settings.snapshot. rewrite bind_assoc.
  assert (Hold : forall x, (heap w ++ [x]) !! this = Some o).
  { intros x. rewrite lookup_app_l; [assumption|]. eapply lookup_lt_Some, Ho. }
  erewrite run_read by (cbn [heap]; apply Hold).
  rewrite run_ret.
  erewrite run_patch by (cbn [heap]; apply lookup_last_added).
  unfold ret. cbn [heap gateways trace]. rewrite insert_last_added.
  repeat rewrite <- app_assoc. reflexivity.
Qed.

(** * The lifecycle of the status *)

Lemma run_op_status op w w' a s :
  run_op op w = Some w' ->
  status_at w a = Some s ->
  exists s', status_at w' a = Some s'
    /\ (s' = s \/ s' = SettingsExistenceStatus.Exists
        \/ s' = SettingsExistenceStatus.NotExists).
Proof.
  intros Hrun Hs. destruct op as [this force|this|gws]; cbn [run_op] in Hrun.
  - destruct (Settings.sync this force w) as [[r w0]|] eqn:Hsync; [|discriminate].
    injection Hrun as <-.
    destruct (sync_inv _ _ _ _ _ Hsync) as (o & Ho & Hout).
    destruct (sync_outcome_status _ _ _ _ _ a s Ho Hout Hs) as (s' & Hs' & Hcase).
    exists s'. split; [assumption|]. tauto.
  - destruct (Settings.destroy this w) as [[r w0]|] eqn:Hd; [|discriminate].
    injection Hrun as <-.
    destruct (destroy_inv _ _ _ _ Hd) as (r1 & w1 & Hsync & Hcase).
    destruct (sync_inv _ _ _ _ _ Hsync) as (o & Ho & Hout).
    destruct (sync_outcome_status _ _ _ _ _ a s Ho Hout Hs) as (s1 & Hs1 & Hcase1).
    destruct Hcase as [(e & _ & _ & ->)|(o1 & _ & Ho1 & Hdout)].
    + exists s1. split; [assumption|]. tauto.
    + destruct (destroy_outcome_status _ _ _ _ _ a s1 Ho1 Hdout Hs1) as (s' & Hs' & Hcase').
      exists s'. split; [assumption|]. destruct Hcase' as [->|[_ ->]]; tauto.
  - injection Hrun as <-. exists s. split; [assumption|now left].
Qed.

(** C4: a new instance is [Unsynchronized]; [sync] leaves the status of an
    instance as it was or makes it [Exists] or [NotExists]; after its ensured
    sync, [destroy] leaves it as it was or makes it [NotExists]; and over any
    sequence of calls of [sync] and [destroy], on any instances and with the
    environment changing in between, a status that is not [Unsynchronized]
    never becomes [Unsynchronized] again. Where the references are good, the
    calls do end. *)
Theorem existence_status_lifecycle :
  (forall w g gw target id,
     gateways w !! g = Some gw ->
     exists w',
       Settings.new g target id w = Some (Resolved (length (heap w)), w')
       /\ status_at w' (length (heap w)) = Some SettingsExistenceStatus.Unsynchronized)
  /\ (forall w this o gw force,
        heap w !! this = Some o ->
        gateways w !! SettingsObject.gateway o = Some gw ->
        (exists r w', Settings.sync this force w = Some (r, w'))
        /\ (exists r w', Settings.destroy this w = Some (r, w')))
  /\ (forall w this force r w' a s,
        Settings.sync this force w = Some (r, w') ->
        status_at w a = Some s ->
        exists s', status_at w' a = Some s'
          /\ (s' = s \/ s' = SettingsExistenceStatus.Exists
              \/ s' = SettingsExistenceStatus.NotExists))
  /\ (forall w this r w' a,
        Settings.destroy this w = Some (r, w') ->
        exists r1 w1,
          Settings.sync this None w = Some (r1, w1)
          /\ forall s1, status_at w1 a = Some s1 ->
               exists s', status_at w' a = Some s'
                 /\ (s' = s1 \/ s' = SettingsExistenceStatus.NotExists))
  /\ (forall ops w w' a s,
        run_ops ops w = Some w' ->
        status_at w a = Some s ->
        s <> SettingsExistenceStatus.Unsynchronized ->
        exists s', status_at w' a = Some s'
          /\ s' <> SettingsExistenceStatus.Unsynchronized).
Proof.
  split; [|split; [|split; [|split]]].
  - intros w g gw target id Hg. rewrite (new_run w g gw) by assumption.
    eexists. split; [reflexivity|]. unfold status_at. cbn [heap].
    now rewrite lookup_last_added.
  - intros w this o gw force Ho Hg. split.
    + exact (sync_total w this o gw force Ho Hg).
    + exact (destroy_total w this o gw Ho Hg).
  - intros w this force r w' a s Hsync Hs.
    apply (run_op_status (OpSync this force) w w' a s); [|assumption].
    cbn [run_op]. now rewrite Hsync.
  - intros w this r w' a Hd.
    destruct (destroy_inv _ _ _ _ Hd) as (r1 & w1 & Hsync & Hcase).
    exists r1, w1. split; [assumption|]. intros s1 Hs1.
    destruct Hcase as [(e & _ & _ & ->)|(o1 & _ & Ho1 & Hdout)].
    + exists s1. split; [assumption|now left].
    + destruct (destroy_outcome_status _ _ _ _ _ a s1 Ho1 Hdout Hs1) as (s' & Hs' & Hcase').
      exists s'. split; [assumption|]. tauto.
  - intros ops. induction ops as [|op ops IH]; intros w w' a s Hrun Hs Hne.
    + injection Hrun as <-. eauto.
    + cbn [run_ops] in Hrun. destruct (run_op op w) as [w0|] eqn:Hop; [|discriminate].
      destruct (run_op_status op w w0 a s Hop Hs) as (s0 & Hs0 & Hcase).
      apply (IH w0 w' a s0 Hrun Hs0).
      destruct Hcase as [->|[->| ->]]; [assumption|discriminate|discriminate].
Qed.

Lemma existence_status_lifecycle_witness :
  exists w',
    run_ops [OpDestroy 0; OpEnvironment [example_gateway None [("42", example_row)]];
             OpSync 0 (Some true); OpDestroy 0; OpSync 0 (Some false)]
      (world_synced (Some "json")) = Some w'
    /\ exists s', status_at w' 0 = Some s' /\ s' <> SettingsExistenceStatus.Unsynchronized.
Proof.
  eexists. split; [vm_compute; reflexivity|].
  eapply (proj2 (proj2 (proj2 (proj2 existence_status_lifecycle)))
            [OpDestroy 0; OpEnvironment [example_gateway None [("42", example_row)]];
             OpSync 0 (Some true); OpDestroy 0; OpSync 0 (Some false)]
            (world_synced (Some "json")) _ 0 SettingsExistenceStatus.Exists).
  - vm_compute. reflexivity.
  - reflexivity.
  - discriminate.
Defined.

(** * clone *)

(** A call on one instance leaves every other instance as it is. *)
Lemma sync_frame w this force r w' a :
  Settings.sync this force w = Some (r, w') -> a <> this -> heap w' !! a = heap w !! a.
Proof.
  intros H Hne. destruct (sync_inv _ _ _ _ _ H) as (o & Ho & Hout).
  destruct Hout; cbn [heap]; try reflexivity; now rewrite list_lookup_insert_ne by congruence.
Qed.

Lemma destroy_frame w this r w' a :
  Settings.destroy this w = Some (r, w') -> a <> this -> heap w' !! a = heap w !! a.
Proof.
  intros H Hne. destruct (destroy_inv _ _ _ _ H) as (r1 & w1 & Hsync & Hcase).
  rewrite <- (sync_frame _ _ _ _ _ a Hsync Hne).
  destruct Hcase as [(e & _ & _ & ->)|(o1 & _ & Ho1 & Hout)]; [reflexivity|].
  destruct Hout; cbn [heap]; try reflexivity; now rewrite list_lookup_insert_ne by congruence.
Qed.

Lemma patch_run w this o data :
  heap w !! this = Some o ->
  Settings.patch this data w
  = Some (Resolved tt,
          mkWorld (<[this := with_entries o (_patch (SettingsObject.entries o) data)]> (heap w))
            (gateways w) (trace w ++ [DoPatch this data])).
Proof.
  intros Ho. unfold Settings.patch, Settings.set_entries, bind, log, read, write.
  run_store Ho. reflexivity.
Qed.

(** The folder [clone] builds equals the original's when the original has its
    schema's shape. *)
Lemma clone_entries (schema : SchemaFolder) (f : SettingsFolder) :
  unique_keys schema = true ->
  same_shape schema f = true ->
  _patch (_init FNil schema) (toJSON f) = f.
Proof.
  intros Hu Hs. rewrite init_defaults by assumption.
  apply patch_snapshot.
  - now rewrite (unique_keys_shape schema f Hs).
  - exact (same_shape_trans schema (defaults schema) f (same_shape_defaults schema) Hs).
Qed.

(** ** The objects of a clone *)

Section LiveFacts.

Import Live.

Implicit Types (g : store) (l a : loc) (es : list (string * slot)).

Lemma mget_mset_same es k sl : mget (mset es k sl) k = Some sl.
Proof.
  induction es as [|[k' sl'] es IH]; cbn.
  - now rewrite String.eqb_refl.
  - destruct (String.eqb k' k) eqn:E; cbn; rewrite E; [reflexivity|assumption].
Qed.

Lemma mget_mset_other es k k' sl :
  String.eqb k k' = false -> mget (mset es k sl) k' = mget es k'.
Proof.
  intros Hne. induction es as [|[k0 sl0] es IH]; cbn.
  - now rewrite Hne.
  - destruct (String.eqb k0 k) eqn:E; cbn.
    + apply String.eqb_eq in E as ->. now rewrite Hne.
    + now rewrite IH.
Qed.

Lemma folder_at_lt g l es : folder_at g l = Some es -> l < length g.
Proof.
  unfold folder_at. destruct (g !! l) eqn:E; [|discriminate].
  intros _. eapply lookup_lt_Some, E.
Qed.

Lemma folder_at_app g extra l : l < length g -> folder_at (g ++ extra) l = folder_at g l.
Proof. intros H. unfold folder_at. now rewrite lookup_app_l. Qed.

Lemma set_slot_length g l k sl : length (set_slot g l k sl) = length g.
Proof. unfold set_slot. destruct (folder_at g l); [apply length_insert|reflexivity]. Qed.

Lemma set_slot_other g l k sl a : a <> l -> set_slot g l k sl !! a = g !! a.
Proof.
  intros H. unfold set_slot. destruct (folder_at g l); [|reflexivity].
  now rewrite list_lookup_insert_ne by congruence.
Qed.

Lemma set_slot_folder g l k sl es :
  folder_at g l = Some es -> folder_at (set_slot g l k sl) l = Some (mset es k sl).
Proof.
  intros H. unfold set_slot. rewrite H. unfold folder_at.
  now rewrite list_lookup_insert_eq by (eapply folder_at_lt, H).
Qed.

(** Setting a key of a folder changes what that folder holds at that key, and
    nothing else that is read off a folder. *)
Lemma set_slot_same g l k sl es :
  folder_at g l = Some es -> slot_at (set_slot g l k sl) l k = Some sl.
Proof.
  intros H. unfold slot_at. rewrite (set_slot_folder g l k sl es H). apply mget_mset_same.
Qed.

Lemma set_slot_key g l k sl k' :
  String.eqb k k' = false -> slot_at (set_slot g l k sl) l k' = slot_at g l k'.
Proof.
  intros Hne. unfold slot_at. destruct (folder_at g l) as [es|] eqn:E.
  - rewrite (set_slot_folder g l k sl es E). now apply mget_mset_other.
  - unfold set_slot. now rewrite E, E.
Qed.

Lemma set_slot_folder_other g l k sl a :
  a <> l -> folder_at (set_slot g l k sl) a = folder_at g a.
Proof. intros H. unfold folder_at. now rewrite set_slot_other. Qed.

Lemma slot_at_folder g g' l k :
  folder_at g' l = folder_at g l -> slot_at g' l k = slot_at g l k.
Proof. intros H. unfold slot_at. now rewrite H. Qed.

(** What is read off a folder depends on what it holds at the keys of its
    schema and on its sub-folders. *)
Lemma frame (schema : SchemaFolder) : forall g g' l,
  (forall k, In k (fkeys schema) -> slot_at g' l k = slot_at g l k) ->
  (forall a, In a (folders schema g l) -> folder_at g' a = folder_at g a) ->
  leaves schema g' l = leaves schema g l
  /\ folders schema g' l = folders schema g l
  /\ framed schema g' l = framed schema g l.
Proof.
  induction schema as [e|sub IH| |key n IHn rest IHrest]
    using forest_node_ind
    with (P := fun n => match n with
                        | Leaf _ => True
                        | Sub sub =>
                            forall g g' l,
                              (forall k, In k (fkeys sub) -> slot_at g' l k = slot_at g l k) ->
                              (forall a, In a (folders sub g l) ->
                                 folder_at g' a = folder_at g a) ->
                              leaves sub g' l = leaves sub g l
                              /\ folders sub g' l = folders sub g l
                              /\ framed sub g' l = framed sub g l
                        end);
    try easy.
  intros g g' l Hk Hf.
  assert (Hkey : slot_at g' l key = slot_at g l key) by (apply Hk; now left).
  assert (Hkrest : forall k, In k (fkeys rest) -> slot_at g' l k = slot_at g l k)
    by (intros k Hin; apply Hk; now right).
  destruct n as [e|sub]; cbn [leaves folders framed] in *; rewrite Hkey.
  - destruct (IHrest g g' l Hkrest Hf) as (-> & -> & ->). now repeat split.
  - revert Hf. destruct (slot_at g l key) as [[rv|l']|] eqn:Hs; intros Hf;
      try (destruct (IHrest g g' l Hkrest Hf) as (-> & -> & _); now repeat split).
    destruct (IHrest g g' l Hkrest) as (E1 & E2 & E3).
    { intros a Hin. apply Hf. right. apply in_or_app. now right. }
    destruct (IHn g g' l') as (E4 & E5 & E6).
    { intros k Hin. apply slot_at_folder, Hf. now left. }
    { intros a Hin. apply Hf. right. apply in_or_app. now left. }
    now rewrite E1, E2, E3, E4, E5, E6.
Qed.

(** Cells that did not change read the same. *)
Lemma frame_cells (schema : SchemaFolder) g g' l :
  (forall a, In a (l :: folders schema g l) -> g' !! a = g !! a) ->
  leaves schema g' l = leaves schema g l
  /\ folders schema g' l = folders schema g l
  /\ framed schema g' l = framed schema g l.
Proof.
  intros H. apply frame.
  - intros k _. apply slot_at_folder. unfold folder_at. rewrite H; [reflexivity|now left].
  - intros a Hin. unfold folder_at. rewrite H; [reflexivity|now right].
Qed.

Lemma values_frame (t : forest rvalue) : forall g g',
  (forall a, In a (refs t) -> g' !! a = g !! a) -> values g' t = values g t.
Proof.
  induction t as [rv|inner IH| |key n IHn rest IHrest]
    using forest_node_ind
    with (P := fun n => match n with
                        | Leaf _ => True
                        | Sub inner =>
                            forall g g',
                              (forall a, In a (refs inner) -> g' !! a = g !! a) ->
                              values g' inner = values g inner
                        end);
    try easy.
  intros g g' H. destruct n as [[v|a]|inner]; cbn [values refs deref] in *.
  - now rewrite (IHrest g g').
  - rewrite (H a) by now left. rewrite (IHrest g g'); [reflexivity|].
    intros a' Hin. apply H. now right.
  - rewrite (IHn g g'), (IHrest g g'); [reflexivity| |];
      intros a Hin; apply H, in_or_app; [now right|now left].
Qed.

Lemma frame_folders (schema : SchemaFolder) g g' l :
  (forall a, folder_at g' a = folder_at g a) ->
  leaves schema g' l = leaves schema g l
  /\ folders schema g' l = folders schema g l
  /\ framed schema g' l = framed schema g l.
Proof.
  intros H. apply frame.
  - intros k _. apply slot_at_folder, H.
  - intros a _. apply H.
Qed.

Lemma folder_at_bound g l : folder_at g l <> None -> l < length g.
Proof.
  destruct (folder_at g l) as [es|] eqn:E; [|easy]. intros _. eapply folder_at_lt, E.
Qed.

Lemma slot_at_bound g l k sl : slot_at g l k = Some sl -> folder_at g l <> None.
Proof. unfold slot_at. now destruct (folder_at g l). Qed.

Lemma set_slot_kept g l k sl : folder_at g l <> None -> folder_at (set_slot g l k sl) l <> None.
Proof.
  destruct (folder_at g l) as [es|] eqn:E; [|easy]. intros _.
  now rewrite (set_slot_folder g l k sl es E).
Qed.

Lemma set_slot_held g l k sl : folder_at g l <> None -> slot_at (set_slot g l k sl) l k = Some sl.
Proof.
  destruct (folder_at g l) as [es|] eqn:E; [|easy]. intros _. eapply set_slot_same, E.
Qed.

Lemma set_slot_apart g l k sl k' :
  k <> k' -> slot_at (set_slot g l k sl) l k' = slot_at g l k'.
Proof. intros H. apply set_slot_key. now apply String.eqb_neq. Qed.

Lemma unique_key_fresh {A} key (n : node A) rest :
  unique_keys (FCons key n rest) = true ->
  ~ In key (fkeys rest)
  /\ match n with Leaf _ => True | Sub sub => unique_keys sub = true end
  /\ unique_keys rest = true.
Proof.
  cbn [unique_keys]. intros H.
  apply andb_true_iff in H as [H Hrest]. apply andb_true_iff in H as [Hk Hn].
  split; [|split; [now destruct n|assumption]].
  intros Hin. apply negb_true_iff in Hk.
  assert (existsb (String.eqb key) (fkeys rest) = true); [|congruence].
  apply existsb_exists. exists key. split; [assumption|apply String.eqb_refl].
Qed.

Lemma NoDup_app_apart {A} (l k : list A) x :
  List.NoDup (l ++ k) -> In x l -> ~ In x k.
Proof.
  induction l as [|y l IH]; [easy|]. cbn. intros H [->|Hin] Hk.
  - apply List.NoDup_cons_iff in H as [H _]. apply H, in_or_app. now right.
  - apply List.NoDup_cons_iff in H as [_ H]. now apply (IH H Hin).
Qed.

Lemma hold_spec g v rv g1 :
  hold g v = (rv, g1) -> exists extra, g1 = g ++ extra.
Proof.
  unfold hold. destruct (has_identity v); intros H; injection H as <- <-.
  - now eexists.
  - exists []. now rewrite app_nil_r.
Qed.

(** [_init] fills the folder it is given and the sub-folders it makes; it
    writes to no other cell there was, and every sub-folder is a new cell. *)
Lemma init_spec (schema : SchemaFolder) : forall g folder,
  folder_at g folder <> None ->
  unique_keys schema = true ->
  let g' := _init g folder schema in
  length g <= length g'
  /\ (forall a, a < length g -> a <> folder -> g' !! a = g !! a)
  /\ folder_at g' folder <> None
  /\ (forall k, ~ In k (fkeys schema) -> slot_at g' folder k = slot_at g folder k)
  /\ framed schema g' folder = true
  /\ (forall a, In a (folders schema g' folder) -> length g <= a < length g')
  /\ List.NoDup (folders schema g' folder).
Proof.
  induction schema as [e|sub IH| |key n IHn rest IHrest]
    using forest_node_ind
    with (P := fun n => match n with
                        | Leaf _ => True
                        | Sub sub =>
                            forall g folder,
                              folder_at g folder <> None ->
                              unique_keys sub = true ->
                              let g' := _init g folder sub in
                              length g <= length g'
                              /\ (forall a, a < length g -> a <> folder -> g' !! a = g !! a)
                              /\ folder_at g' folder <> None
                              /\ (forall k, ~ In k (fkeys sub) ->
                                    slot_at g' folder k = slot_at g folder k)
                              /\ framed sub g' folder = true
                              /\ (forall a, In a (folders sub g' folder) ->
                                    length g <= a < length g')
                              /\ List.NoDup (folders sub g' folder)
                        end).
  - exact I.
  - exact IH.
  - intros g folder Hf _. cbn. repeat split; try easy. constructor.
  - intros g folder Hf Hu.
    apply unique_key_fresh in Hu as (Hkey & Hn & Hrest).
    pose proof (folder_at_bound g folder Hf) as Hlt.
    destruct n as [e|sub]; cbn [_init folders framed fkeys].
    + destruct (hold g (SchemaEntry.default e)) as [rv g1] eqn:Hh.
      apply hold_spec in Hh as [extra ->].
      assert (Hf1 : folder_at (g ++ extra) folder <> None) by now rewrite folder_at_app.
      pose proof (set_slot_kept _ _ key (Held rv) Hf1) as Hfm.
      pose proof (set_slot_held _ _ key (Held rv) Hf1) as Hheld.
      pose proof (set_slot_length (g ++ extra) folder key (Held rv)) as Hlen.
      rewrite length_app in Hlen.
      destruct (IHrest _ folder Hfm Hrest) as (L & C & F & K & Fr & R & N).
      cbv zeta.
      split; [lia|]. split; [|split; [exact F|split; [|split; [|split; [|exact N]]]]].
      * intros a Ha Hne. rewrite C by (assumption || lia).
        rewrite set_slot_other by assumption. now apply lookup_app_l.
      * intros k Hk. rewrite K by (intros Hin; apply Hk; now right).
        rewrite set_slot_apart by (intros ->; apply Hk; now left).
        apply slot_at_folder. now apply folder_at_app.
      * rewrite (K key Hkey), Hheld. exact Fr.
      * intros a Hin. apply R in Hin. lia.
    + set (settings := length g).
      assert (Hns : folder <> settings) by (unfold settings; lia).
      assert (Hf1 : folder_at (g ++ [CFolder []]) folder <> None) by now rewrite folder_at_app.
      pose proof (set_slot_held _ _ key (Folder settings) Hf1) as Hheld.
      pose proof (set_slot_kept _ _ key (Folder settings) Hf1) as Hf2.
      pose proof (set_slot_length (g ++ [CFolder []]) folder key (Folder settings)) as Hlen.
      rewrite length_app in Hlen. cbn [length] in Hlen.
      set (g2 := set_slot (g ++ [CFolder []]) folder key (Folder settings)) in *.
      assert (Hs2 : folder_at g2 settings <> None).
      { unfold g2. rewrite set_slot_folder_other by congruence.
        unfold folder_at, settings. now rewrite (list_lookup_middle g [] (CFolder []) _ eq_refl). }
      destruct (IHn g2 settings Hs2 Hn) as (L3 & C3 & F3 & K3 & Fr3 & R3 & N3).
      set (g3 := _init g2 settings sub) in *.
      assert (Hfolder3 : folder_at g3 folder = folder_at g2 folder).
      { unfold folder_at. rewrite C3 by lia. reflexivity. }
      assert (Hf3 : folder_at g3 folder <> None) by now rewrite Hfolder3.
      destruct (IHrest g3 folder Hf3 Hrest) as (L & C & F & K & Fr & R & N).
      set (g' := _init g3 folder rest) in *.
      assert (Hslot : slot_at g' folder key = Some (Folder settings)).
      { rewrite (K key Hkey), (slot_at_folder g2 g3 folder key Hfolder3). exact Hheld. }
      destruct (frame_cells sub g3 g' settings) as (_ & Efolders & Eframed).
      { intros a [<-|Hin]; apply C; try lia. apply R3 in Hin. lia. apply R3 in Hin. lia. }
      cbv zeta. rewrite Hslot, Efolders, Eframed, Fr3, Fr.
      split; [lia|]. split; [|split; [exact F|split; [|split; [reflexivity|split]]]].
      * intros a Ha Hne. rewrite C by (assumption || lia). rewrite C3 by lia.
        unfold g2. rewrite set_slot_other by assumption. now apply lookup_app_l.
      * intros k Hk. rewrite K by (intros Hin; apply Hk; now right).
        rewrite (slot_at_folder g2 g3 folder k Hfolder3). unfold g2.
        rewrite set_slot_apart by (intros ->; apply Hk; now left).
        apply slot_at_folder. now apply folder_at_app.
      * intros a [<-|Hin]; [unfold settings; lia|].
        apply in_app_or in Hin as [Hin|Hin]; [apply R3 in Hin|apply R in Hin]; lia.
      * constructor.
        -- intros Hin. apply in_app_or in Hin as [Hin|Hin];
             [apply R3 in Hin|apply R in Hin]; unfold settings in *; lia.
        -- apply List.NoDup_app; try assumption.
           intros a Ha Hb. apply R3 in Ha. apply R in Hb. lia.
Qed.

Lemma copy_spec g rv rv' g1 :
  copy g rv = (rv', g1) ->
  (forall a, folder_at g1 a = folder_at g a)
  /\ (forall a, a < length g -> g1 !! a = g !! a)
  /\ length g <= length g1
  /\ (forall a, rv' = Ref a -> length g <= a < length g1)
  /\ ((forall a, rv = Ref a -> a < length g) -> deref g1 rv' = deref g rv).
Proof.
  destruct rv as [v|b]; cbn [copy]; intros H; injection H as <- <-.
  - repeat split; try easy; try lia.
  - split; [|split; [|split; [|split]]].
    + intros a. unfold folder_at.
      destruct (Nat.lt_ge_cases a (length g)) as [Ha|Ha].
      * now rewrite lookup_app_l.
      * rewrite lookup_app_r by assumption.
        rewrite (lookup_ge_None_2 g a) by assumption.
        destruct (a - length g) as [|n]; reflexivity.
    + intros a Ha. now apply lookup_app_l.
    + rewrite length_app. lia.
    + intros a Ha. injection Ha as <-. rewrite length_app. cbn [length]. lia.
    + intros _. cbn [deref].
      now rewrite (list_lookup_middle g [] _ _ eq_refl).
Qed.

Lemma deref_frame g g' rv :
  (forall a, rv = Ref a -> g' !! a = g !! a) -> deref g' rv = deref g rv.
Proof. destruct rv as [v|a]; cbn [deref]; intros H; [reflexivity|now rewrite (H a)]. Qed.

(** [toJSON] writes to no cell there was: the arrays and plain objects of the
    snapshot are new cells, each with the content of the one it copies. *)
Lemma toJSON_spec (schema : SchemaFolder) : forall g l json g',
  toJSON schema g l = (json, g') ->
  (forall a, folder_at g' a = folder_at g a)
  /\ (forall a, a < length g -> g' !! a = g !! a)
  /\ length g <= length g'
  /\ (forall a, In a (refs json) -> length g <= a < length g')
  /\ ((forall a, In a (refs (leaves schema g l)) -> a < length g) ->
      values g' json = values g (leaves schema g l))
  /\ (framed schema g l = true -> same_shape schema json = true).
Proof.
  induction schema as [e|sub IH| |key n IHn rest IHrest]
    using forest_node_ind
    with (P := fun n => match n with
                        | Leaf _ => True
                        | Sub sub =>
                            forall g l json g',
                              toJSON sub g l = (json, g') ->
                              (forall a, folder_at g' a = folder_at g a)
                              /\ (forall a, a < length g -> g' !! a = g !! a)
                              /\ length g <= length g'
                              /\ (forall a, In a (refs json) -> length g <= a < length g')
                              /\ ((forall a, In a (refs (leaves sub g l)) -> a < length g) ->
                                  values g' json = values g (leaves sub g l))
                              /\ (framed sub g l = true -> same_shape sub json = true)
                        end).
  - exact I.
  - exact IH.
  - intros g l json g' H. cbn in H. injection H as <- <-. repeat split; try easy; lia.
  - intros g l json g' H.
    destruct n as [e|sub]; cbn [toJSON leaves framed] in *.
    + destruct (slot_at g l key) as [[rv|l']|] eqn:Hs;
        try (destruct (IHrest g l json g' H) as (A & B & C & D & E & _);
             repeat split; solve [assumption | apply A | apply B; assumption
                                 | apply D; assumption | discriminate]).
      destruct (copy g rv) as [rv' g1] eqn:Hc.
      destruct (toJSON rest g1 l) as [json' g2] eqn:Hr.
      injection H as <- <-.
      apply copy_spec in Hc as (A1 & B1 & C1 & D1 & E1).
      destruct (IHrest g1 l json' g2 Hr) as (A & B & C & D & E & F).
      destruct (frame_folders rest g g1 l A1) as (El & _ & Ef).
      split; [|split; [|split; [|split; [|split]]]].
      * intros a. now rewrite A, A1.
      * intros a Ha. rewrite B by lia. now apply B1.
      * lia.
      * intros a Hin. destruct rv' as [v|b]; cbn [refs] in Hin.
        -- apply D in Hin. lia.
        -- destruct Hin as [<-|Hin]; [specialize (D1 b eq_refl)|apply D in Hin]; lia.
      * intros Hb. cbn [values]. f_equal.
        -- f_equal. rewrite <- E1.
           ++ apply deref_frame. intros a ->. apply B. now apply (D1 a).
           ++ intros a ->. apply Hb. now left.
        -- rewrite E, El.
           ++ apply values_frame. intros a Hin. apply B1, Hb.
              destruct rv; [assumption|now right].
           ++ rewrite El. intros a Hin.
              assert (a < length g); [|lia].
              apply Hb. destruct rv; [assumption|now right].
      * intros Hfr. cbn [same_shape]. rewrite String.eqb_refl. cbn.
        apply F. now rewrite Ef.
    + destruct (slot_at g l key) as [[rv|l']|] eqn:Hs;
        try (destruct (IHrest g l json g' H) as (A & B & C & D & E & _);
             repeat split; solve [assumption | apply A | apply B; assumption
                                 | apply D; assumption | discriminate]).
      destruct (toJSON sub g l') as [inner g1] eqn:Hi.
      destruct (toJSON rest g1 l) as [json' g2] eqn:Hr.
      injection H as <- <-.
      destruct (IHn g l' inner g1 Hi) as (A1 & B1 & C1 & D1 & E1 & F1).
      destruct (IHrest g1 l json' g2 Hr) as (A & B & C & D & E & F).
      destruct (frame_folders rest g g1 l A1) as (El & _ & Ef).
      split; [|split; [|split; [|split; [|split]]]].
      * intros a. now rewrite A, A1.
      * intros a Ha. rewrite B by lia. now apply B1.
      * lia.
      * intros a Hin. cbn [refs] in Hin.
        apply in_app_or in Hin as [Hin|Hin]; [apply D1 in Hin|apply D in Hin]; lia.
      * intros Hb. cbn [values refs] in *. f_equal.
        -- f_equal. rewrite <- E1.
           ++ apply values_frame. intros a Hin. apply B. now apply D1.
           ++ intros a Hin. apply Hb, in_or_app. now left.
        -- rewrite E, El.
           ++ apply values_frame. intros a Hin. apply B1, Hb, in_or_app. now right.
           ++ rewrite El. intros a Hin.
              assert (a < length g); [|lia].
              apply Hb, in_or_app. now right.
      * intros Hfr. apply andb_true_iff in Hfr as [Hfs Hfr].
        cbn [same_shape]. rewrite String.eqb_refl, (F1 Hfs). cbn.
        apply F. now rewrite Ef.
Qed.

Lemma folder_at_cell g g' a : g' !! a = g !! a -> folder_at g' a = folder_at g a.
Proof. intros H. unfold folder_at. now rewrite H. Qed.

(** [_patch] with data of the schema's shape writes the data's values at the
    folder's entries, to the folder and its sub-folders and to no other
    cell. *)
Lemma patch_spec (schema : SchemaFolder) : forall g l (json : forest rvalue),
  unique_keys schema = true ->
  same_shape schema json = true ->
  framed schema g l = true ->
  List.NoDup (l :: folders schema g l) ->
  let g' := _patch g l json in
  length g' = length g
  /\ (forall a, ~ In a (l :: folders schema g l) -> g' !! a = g !! a)
  /\ (forall k, ~ In k (fkeys schema) -> slot_at g' l k = slot_at g l k)
  /\ folders schema g' l = folders schema g l
  /\ framed schema g' l = true
  /\ leaves schema g' l = json
  /\ (folder_at g l <> None -> folder_at g' l <> None).
Proof.
  induction schema as [e|sub IH| |key n IHn rest IHrest]
    using forest_node_ind
    with (P := fun n => match n with
                        | Leaf _ => True
                        | Sub sub =>
                            forall g l (json : forest rvalue),
                              unique_keys sub = true ->
                              same_shape sub json = true ->
                              framed sub g l = true ->
                              List.NoDup (l :: folders sub g l) ->
                              let g' := _patch g l json in
                              length g' = length g
                              /\ (forall a, ~ In a (l :: folders sub g l) -> g' !! a = g !! a)
                              /\ (forall k, ~ In k (fkeys sub) ->
                                    slot_at g' l k = slot_at g l k)
                              /\ folders sub g' l = folders sub g l
                              /\ framed sub g' l = true
                              /\ leaves sub g' l = json
                              /\ (folder_at g l <> None -> folder_at g' l <> None)
                        end).
  - exact I.
  - exact IH.
  - intros g l [|? ? ?] _ Hs _ _; [|discriminate]. cbn. now repeat split.
  - intros g l [|key' m json'] Hu Hs Hfr Hnd; [discriminate|].
    apply unique_key_fresh in Hu as (Hkey & Hn & Hrest).
    cbn [same_shape] in Hs.
    apply andb_true_iff in Hs as [Hs Hsrest]. apply andb_true_iff in Hs as [Hk Hs].
    apply String.eqb_eq in Hk as <-.
    apply List.NoDup_cons_iff in Hnd as [Hl Hnd].
    destruct n as [e|sub], m as [rv|inner]; try discriminate;
      cbn [_patch framed folders leaves fkeys] in *.
    + destruct (slot_at g l key) as [[old|l']|] eqn:Hslot; try discriminate.
      pose proof (slot_at_bound _ _ _ _ Hslot) as Hf.
      pose proof (set_slot_held g l key (Held rv) Hf) as Hheld.
      set (gm := set_slot g l key (Held rv)) in *.
      destruct (frame rest g gm l) as (El & Efo & Efr).
      { intros k Hin. apply set_slot_apart. now intros ->. }
      { intros a Hin. apply set_slot_folder_other. now intros ->. }
      destruct (IHrest gm l json' Hrest Hsrest) as (L & C & K & Fo & Fr & Le & Fa).
      { now rewrite Efr. }
      { rewrite Efo. now constructor. }
      cbv zeta. rewrite (K key Hkey), Hheld.
      rewrite Fo, Efo, Fr, Le, L.
      split; [apply set_slot_length|]. split; [|split; [|repeat split]].
      * intros a Ha. rewrite C by now rewrite Efo.
        apply set_slot_other. intros ->. apply Ha. now left.
      * intros k Hk. rewrite K by (intros Hin; apply Hk; now right).
        apply set_slot_apart. intros ->. apply Hk. now left.
      * intros _. apply Fa. now apply set_slot_kept.
    + destruct (slot_at g l key) as [[old|l']|] eqn:Hslot; try discriminate.
      apply andb_true_iff in Hfr as [Hfs Hfr].
      apply List.NoDup_cons_iff in Hnd as [Hl' Hnd].
      assert (Hnd' : List.NoDup (l' :: folders sub g l')).
      { constructor; [|now apply NoDup_app_remove_r in Hnd].
        intros Hin. apply Hl', in_or_app. now left. }
      destruct (IHn g l' inner Hn Hs Hfs Hnd') as (L1 & C1 & _ & Fo1 & Fr1 & Le1 & _).
      set (gm := _patch g l' inner) in *.
      assert (Hcell : gm !! l = g !! l).
      { apply C1. intros [->|Hin]; apply Hl; [now left|]. right. apply in_or_app. now left. }
      assert (Hslots : forall k, slot_at gm l k = slot_at g l k).
      { intros k. now apply slot_at_folder, folder_at_cell. }
      destruct (frame rest g gm l) as (El & Efo & Efr).
      { intros k _. apply Hslots. }
      { intros a Hin. apply folder_at_cell, C1. intros [->|Hin'].
        - apply Hl', in_or_app. now right.
        - exact (NoDup_app_apart _ _ a Hnd Hin' Hin). }
      destruct (IHrest gm l json' Hrest Hsrest) as (L & C & K & Fo & Fr & Le & Fa).
      { now rewrite Efr. }
      { rewrite Efo. constructor; [|now apply NoDup_app_remove_l in Hnd].
        intros Hin. apply Hl. right. apply in_or_app. now right. }
      destruct (frame_cells sub gm (_patch gm l json') l') as (Els & Efos & Efrs).
      { intros a Hin. rewrite Fo1 in Hin. apply C. rewrite Efo. intros [->|Hin'].
        - apply Hl. destruct Hin as [->|Hin]; [now left|].
          right. apply in_or_app. now left.
        - destruct Hin as [<-|Hin].
          + apply Hl', in_or_app. now right.
          + exact (NoDup_app_apart _ _ a Hnd Hin Hin'). }
      cbv zeta. rewrite (K key Hkey), Hslots, Hslot.
      rewrite Els, Efos, Efrs, Fo, Efo, Fo1, Fr, Fr1, Le, Le1, L, L1.
      split; [reflexivity|]. split; [|split; [|repeat split]].
      * intros a Ha. rewrite C.
        -- apply C1. intros [->|Hin]; apply Ha; right; [now left|].
           right. apply in_or_app. now left.
        -- rewrite Efo. intros [->|Hin]; apply Ha; [now left|].
           right. right. apply in_or_app. now right.
      * intros k Hk. rewrite K by (intros Hin; apply Hk; now right). apply Hslots.
      * intros Hf. apply Fa. now rewrite (folder_at_cell g gm l Hcell).
Qed.

Lemma snapshot_view (schema : SchemaFolder) g l :
  (forall a, In a (refs (leaves schema g l)) -> a < length g) ->
  snapshot schema g l = view schema g l.
Proof.
  intros Hb. unfold snapshot, view.
  destruct (toJSON schema g l) as [json g'] eqn:Ht.
  apply toJSON_spec in Ht as (_ & _ & _ & _ & E & _). now apply E.
Qed.

Lemma live_snapshot (schema : SchemaFolder) g l :
  live schema g l -> snapshot schema g l = view schema g l.
Proof.
  intros (_ & _ & Hb). apply snapshot_view. intros a Hin. apply Hb, in_or_app. now right.
Qed.

(** A folder reads the same, and has the same objects, in a store whose cells
    at the folder and at its objects are the same. *)
Lemma live_frame (schema : SchemaFolder) g g' l :
  live schema g l ->
  (forall a, In a (l :: objects schema g l) -> g' !! a = g !! a) ->
  live schema g' l
  /\ objects schema g' l = objects schema g l
  /\ view schema g' l = view schema g l.
Proof.
  intros (Hf & Hfr & Hb) H.
  destruct (frame_cells schema g g' l) as (El & Efo & Efr).
  { intros a [<-|Hin]; apply H; [now left|]. right. apply in_or_app. now left. }
  assert (Ev : values g' (leaves schema g l) = values g (leaves schema g l)).
  { apply values_frame. intros a Hin. apply H. right. apply in_or_app. now right. }
  unfold live, objects, view. rewrite El, Efo, Efr, Ev.
  repeat split; try assumption.
  - now rewrite (folder_at_cell g g' l (H l (or_introl eq_refl))).
  - intros a Hin. apply lookup_lt_is_Some. rewrite H by now right.
    apply lookup_lt_is_Some. now apply Hb.
Qed.

(** The cells of a clone: [clone] makes the map of the new instance and of
    each of its sub-folders, and a copy of every array and plain object the
    original holds; it writes to no cell there was. *)
Lemma clone_cells (schema : SchemaFolder) g root :
  unique_keys schema = true ->
  live schema g root ->
  exists g',
    clone schema g root = (length g, g')
    /\ live schema g' (length g)
    /\ view schema g' (length g) = view schema g root
    /\ (forall a, a < length g -> g' !! a = g !! a)
    /\ (forall a, In a (length g :: objects schema g' (length g)) -> length g <= a)
    /\ List.NoDup (length g :: folders schema g' (length g)).
Proof.
  intros Hu Hlive. pose proof Hlive as (Hf & Hfr & Hb).
  pose proof (folder_at_bound g root Hf) as Hroot.
  unfold clone, new.
  set (c := length g). set (g0 := g ++ [CFolder []]).
  assert (Hlen0 : length g0 = c + 1) by (unfold g0; now rewrite length_app).
  assert (Hc0 : folder_at g0 c <> None).
  { unfold folder_at, g0, c. now rewrite (list_lookup_middle g [] _ _ eq_refl). }
  destruct (init_spec schema g0 c Hc0 Hu) as (L1 & C1 & F1 & _ & Fr1 & R1 & N1).
  set (g1 := _init g0 c schema) in *.
  assert (Hagree1 : forall a, a < c -> g1 !! a = g !! a).
  { intros a Ha. rewrite C1 by lia. unfold g0. now apply lookup_app_l. }
  destruct (live_frame schema g g1 root Hlive) as ((_ & Hfr1 & Hb1) & Eo1 & Ev1).
  { intros a [<-|Hin]; apply Hagree1; [assumption|]. now apply Hb. }
  destruct (toJSON schema g1 root) as [json g2] eqn:Ht.
  apply toJSON_spec in Ht as (A2 & B2 & C2 & D2 & E2 & F2).
  specialize (F2 Hfr1).
  assert (Ev2 : values g2 json = view schema g root).
  { rewrite <- Ev1. apply E2. intros a Hin. apply Hb1, in_or_app. now right. }
  destruct (frame_folders schema g1 g2 c A2) as (_ & Efo2 & Efr2).
  assert (Hnd : List.NoDup (c :: folders schema g2 c)).
  { rewrite Efo2. constructor; [|assumption]. intros Hin. apply R1 in Hin. lia. }
  destruct (patch_spec schema g2 c json Hu F2) as (L3 & C3 & _ & Fo3 & Fr3 & Le3 & Fa3);
    [now rewrite Efr2|assumption|].
  set (g' := _patch g2 c json) in *.
  assert (Hfolders : forall a, In a (folders schema g' c) -> c < a < length g1).
  { intros a Hin. rewrite Fo3, Efo2 in Hin. apply R1 in Hin. lia. }
  exists g'. split; [reflexivity|]. split; [|split; [|split; [|split]]].
  - split; [|split].
    + apply Fa3. now rewrite A2.
    + exact Fr3.
    + intros a Hin. unfold objects in Hin. rewrite Le3 in Hin.
      apply in_app_or in Hin as [Hin|Hin]; [apply Hfolders in Hin|apply D2 in Hin]; lia.
  - unfold view at 1. rewrite Le3, <- Ev2. apply values_frame.
    intros a Hin. apply D2 in Hin. apply C3. rewrite Efo2.
    intros [<-|Hin']; [|apply R1 in Hin']; lia.
  - intros a Ha. rewrite C3.
    + rewrite B2 by lia. now apply Hagree1.
    + rewrite Efo2. intros [<-|Hin]; [|apply R1 in Hin]; lia.
  - intros a [<-|Hin]; [lia|]. unfold objects in Hin. rewrite Le3 in Hin.
    apply in_app_or in Hin as [Hin|Hin]; [apply Hfolders in Hin|apply D2 in Hin]; lia.
  - now rewrite Fo3.
Qed.

(** Whatever is written to the cells of an instance made after another, the
    other's snapshot is the same. *)
Lemma snapshot_apart (schema : SchemaFolder) g g' g'' root c :
  live schema g root ->
  length g <= length g' ->
  (forall a, a < length g -> g' !! a = g !! a) ->
  (forall a, In a (c :: objects schema g' c) -> length g <= a) ->
  (forall a, a < length g' -> ~ In a (c :: objects schema g' c) -> g'' !! a = g' !! a) ->
  snapshot schema g'' root = snapshot schema g root.
Proof.
  intros Hlive Hlen Hagree Hnew Hmut.
  pose proof Hlive as (Hf & _ & Hb).
  pose proof (folder_at_bound g root Hf) as Hroot.
  assert (Hcells : forall a, In a (root :: objects schema g root) -> g'' !! a = g !! a).
  { intros a Hin.
    assert (Ha : a < length g) by (destruct Hin as [<-|Hin]; [assumption|now apply Hb]).
    rewrite Hmut; [now apply Hagree|lia|].
    intros Hin'. apply Hnew in Hin'. lia. }
  destruct (live_frame schema g g'' root Hlive Hcells) as (Hlive'' & _ & Ev).
  now rewrite (live_snapshot schema g'' root Hlive''), (live_snapshot schema g root Hlive).
Qed.

End LiveFacts.

(** C8: for an instance whose folder has the shape of its gateway's schema
    (the folder invariant, kept by every call: [folder_shape_invariant]),
    [clone] makes a new instance (a reference no instance had) with the
    gateway, target and id of the original, and patches the original's
    snapshot onto it; right after, the two snapshots are equal and the
    original is as it was. On the cells, whatever store the original lives in:
    the clone is a new cell, no cell there was is written, the two snapshots
    read the same, and the clone shares no object with the original (neither
    a map nor an array or plain object at an entry), so that whatever is
    written to the clone's objects, a patch of the clone among it, leaves the
    original's snapshot as it was. *)
Theorem clone_is_independent_copy w this o :
  heap w !! this = Some o ->
  well_formed w o ->
  exists w' c oc,
    Settings.clone this w = Some (Resolved c, w')
    /\ heap w !! c = None
    /\ heap w' !! c = Some oc
    /\ SettingsObject.gateway oc = SettingsObject.gateway o
    /\ SettingsObject.target oc = SettingsObject.target o
    /\ SettingsObject.id oc = SettingsObject.id o
    /\ SettingsObject.entries oc
       = _patch (_init FNil (SettingsObject.schema o)) (toJSON (SettingsObject.entries o))
    /\ snapshot_at w' c = Some (toJSON (SettingsObject.entries o))
    /\ snapshot_at w' this = Some (toJSON (SettingsObject.entries o))
    /\ heap w' !! this = Some o
    /\ forall g root,
         Live.live (SettingsObject.schema o) g root ->
         Live.view (SettingsObject.schema o) g root = SettingsObject.entries o ->
         exists clone g',
           Live.clone (SettingsObject.schema o) g root = (clone, g')
           /\ g !! clone = None
           /\ Live.live (SettingsObject.schema o) g' clone
           /\ (forall a, a < length g -> g' !! a = g !! a)
           /\ Live.snapshot (SettingsObject.schema o) g' clone = SettingsObject.entries oc
           /\ Live.snapshot (SettingsObject.schema o) g' root = SettingsObject.entries o
           /\ (forall a, In a (clone :: Live.objects (SettingsObject.schema o) g' clone) ->
                 ~ In a (root :: Live.objects (SettingsObject.schema o) g' root))
           /\ (forall g'',
                 (forall a, a < length g' ->
                    ~ In a (clone :: Live.objects (SettingsObject.schema o) g' clone) ->
                    g'' !! a = g' !! a) ->
                 Live.snapshot (SettingsObject.schema o) g'' root
                 = Live.snapshot (SettingsObject.schema o) g root)
           /\ (forall data : forest Live.rvalue,
                 same_shape (SettingsObject.schema o) data = true ->
                 Live.leaves (SettingsObject.schema o) (Live._patch g' clone data) clone = data
                 /\ Live.snapshot (SettingsObject.schema o) (Live._patch g' clone data) root
                    = Live.snapshot (SettingsObject.schema o) g root).
Proof.
  intros Ho (gw & Hg & Hschema & Hu & Hs).
  rewrite (clone_run w this o gw Ho Hg).
  assert (Hlt : this < length (heap w)) by (eapply lookup_lt_Some, Ho).
  do 3 eexists. split; [reflexivity|]. cbn [heap gateways trace].
  assert (Hold : forall x, (heap w ++ [x]) !! this = Some o).
  { intros x. rewrite lookup_app_l; assumption. }
  split; [now apply lookup_ge_None|].
  split; [apply lookup_last_added|].
  cbn [SettingsObject.gateway SettingsObject.target SettingsObject.id SettingsObject.entries].
  rewrite <- Hschema.
  do 4 (split; [reflexivity|]).
  unfold snapshot_at, entries_at. cbn [heap].
  rewrite lookup_last_added, Hold. cbn [fmap option_fmap option_map SettingsObject.entries].
  rewrite clone_entries by assumption.
  do 3 (split; [reflexivity|]).
  intros g root Hlive Hview.
  destruct (clone_cells _ g root Hu Hlive) as (g' & Hclone & Hlc & Hv & Hagree & Hnew & Hnd).
  pose proof Hlc as (Hfc & Hfrc & _).
  pose proof (folder_at_bound _ _ Hfc) as Hlen.
  pose proof Hlive as (Hf & _ & Hb).
  pose proof (folder_at_bound _ _ Hf) as Hroot.
  assert (Hsnap : forall g'',
            (forall a, a < length g' ->
               ~ In a (length g :: Live.objects (SettingsObject.schema o) g' (length g)) ->
               g'' !! a = g' !! a) ->
            Live.snapshot (SettingsObject.schema o) g'' root
            = Live.snapshot (SettingsObject.schema o) g root).
  { intros g'' Hmut.
    apply (snapshot_apart _ g g' g'' root (length g)); try assumption. lia. }
  exists (length g), g'.
  split; [exact Hclone|]. split; [now apply lookup_ge_None_2|].
  split; [exact Hlc|]. split; [exact Hagree|].
  split; [now rewrite (live_snapshot _ _ _ Hlc), Hv|].
  split; [rewrite (Hsnap g') by reflexivity; now rewrite (live_snapshot _ _ _ Hlive)|].
  split; [|split; [exact Hsnap|]].
  - intros a Hin Hin'. apply Hnew in Hin.
    destruct (live_frame _ g g' root Hlive) as (_ & Eo & _).
    { intros b [<-|Hinb]; apply Hagree; [assumption|now apply Hb]. }
    rewrite Eo in Hin'. destruct Hin' as [<-|Hin']; [|apply Hb in Hin']; lia.
  - intros data Hshape.
    destruct (patch_spec _ g' (length g) data Hu Hshape Hfrc Hnd)
      as (_ & C & _ & _ & _ & Le & _).
    split; [exact Le|]. apply Hsnap. intros a _ Hna. apply C.
    intros [<-|Hin]; apply Hna; [now left|]. right. apply in_or_app. now left.
Qed.

Lemma world_roles_well_formed : well_formed world_roles roles_settings.
Proof.
  exists (Gateway.mk "guilds" roles_schema (Some "json") (Backend.mk [] None None)).
  repeat split; reflexivity.
Qed.

Lemma roles_cells_live : Live.live roles_schema roles_cells 0.
Proof.
  split; [discriminate|]. split; [reflexivity|].
  intros a [<-|[<-|[]]]; vm_compute; lia.
Qed.

Lemma clone_is_independent_copy_witness :
  exists w' g',
    Settings.clone 0 world_roles = Some (Resolved 1, w')
    /\ snapshot_at w' 1 = snapshot_at w' 0
    /\ Live.clone roles_schema roles_cells 0 = (3, g')
    /\ Live.snapshot roles_schema g' 3 = Live.snapshot roles_schema g' 0
    /\ Live.objects roles_schema g' 0 = [1; 2]
    /\ Live.objects roles_schema g' 3 = [4; 6]
    /\ Live.snapshot roles_schema (<[6 := Live.CValue (VArr [])]> g') 3
       <> Live.snapshot roles_schema roles_cells 0
    /\ Live.snapshot roles_schema (<[6 := Live.CValue (VArr [])]> g') 0
       = Live.snapshot roles_schema roles_cells 0.
Proof.
  destruct (clone_is_independent_copy world_roles 0 roles_settings
              eq_refl world_roles_well_formed)
    as (w' & c & oc & Hrun & _ & _ & _ & _ & _ & _ & Hsc & Hst & _ & Hcells).
  assert (c = 1) as ->.
  { rewrite (clone_run world_roles 0 roles_settings
               (Gateway.mk "guilds" roles_schema (Some "json") (Backend.mk [] None None))
               eq_refl eq_refl) in Hrun.
    now injection Hrun as <- _. }
  destruct (Hcells roles_cells 0 roles_cells_live eq_refl)
    as (clone & g' & Hclone & _ & _ & _ & Hc & Hr & _ & Hmut & _).
  pose proof Hclone as Hcl. vm_compute in Hcl. injection Hcl as <- <-.
  exists w'. eexists.
  split; [exact Hrun|]. split; [now rewrite Hsc, Hst|].
  split; [exact Hclone|].
  split; [vm_compute; reflexivity|]. split; [reflexivity|]. split; [reflexivity|].
  split; [vm_compute; discriminate|].
  apply Hmut. intros a Ha Hn.
  do 7 (destruct a as [|a]; [first [reflexivity | exfalso; apply Hn; vm_compute; tauto]|]).
  exfalso. cbn in Ha. lia.
Defined.

(** C10: whatever the status of the original, its clone is [Unsynchronized]
    (so a call of the clone's own [sync()] is one with force) while its folder
    is built from the original's snapshot, and equals the original's when that
    has its schema's shape; the original keeps its status. *)
Theorem clone_is_unsynchronized w this o gw :
  heap w !! this = Some o ->
  gateways w !! SettingsObject.gateway o = Some gw ->
  exists w' c oc,
    Settings.clone this w = Some (Resolved c, w')
    /\ heap w' !! c = Some oc
    /\ SettingsObject.existenceStatus oc = SettingsExistenceStatus.Unsynchronized
    /\ status_at w' c = Some SettingsExistenceStatus.Unsynchronized
    /\ effective_force oc None = true
    /\ status_at w' this = Some (SettingsObject.existenceStatus o)
    /\ SettingsObject.entries oc
       = _patch (_init FNil (Gateway.schema gw)) (toJSON (SettingsObject.entries o))
    /\ (unique_keys (Gateway.schema gw) = true ->
        same_shape (Gateway.schema gw) (SettingsObject.entries o) = true ->
        SettingsObject.entries oc = SettingsObject.entries o).
Proof.
  intros Ho Hg. rewrite (clone_run w this o gw Ho Hg).
  do 3 eexists. split; [reflexivity|]. cbn [heap].
  split; [apply lookup_last_added|].
  assert (Hold : forall x, (heap w ++ [x]) !! this = Some o).
  { intros x. rewrite lookup_app_l; [assumption|]. eapply lookup_lt_Some, Ho. }
  unfold status_at. cbn [heap]. rewrite lookup_last_added, Hold.
  cbn. repeat split. intros Hu Hs. now apply clone_entries.
Qed.

Lemma clone_is_unsynchronized_witness :
  status_at (world_synced (Some "json")) 0 = Some SettingsExistenceStatus.Exists
  /\ exists w' c,
       Settings.clone 0 (world_synced (Some "json")) = Some (Resolved c, w')
       /\ status_at w' c = Some SettingsExistenceStatus.Unsynchronized
       /\ status_at w' 0 = Some SettingsExistenceStatus.Exists.
Proof.
  split; [reflexivity|].
  destruct (clone_is_unsynchronized (world_synced (Some "json")) 0
              (example_settings SettingsExistenceStatus.Exists "?")
              (example_gateway (Some "json") [("42", example_row)]) eq_refl eq_refl)
    as (w' & c & oc & Hrun & _ & _ & Hs & _ & Hs0 & _).
  exists w', c. split; [exact Hrun|]. split; [exact Hs | exact Hs0].
Defined.

(** * The folder keeps its schema's shape *)

(** Replacing what a folder holds at a key by something of the same kind (a
    leaf by a leaf, a sub-folder by one of the same shape) keeps its shape. *)
Lemma fset_shape {A} (f : SettingsFolder) : forall (s : forest A) k n n',
  same_shape s f = true ->
  fget f k = Some n ->
  match n, n' with
  | Leaf _, Leaf _ => True
  | Sub sub, Sub sub' =>
      forall t : forest A, same_shape t sub = true -> same_shape t sub' = true
  | _, _ => False
  end ->
  same_shape s (fset f k n') = true.
Proof.
  induction f as [|kf nf f IH]; intros [|ks ns s] k n n' Hs Hget Hn; try discriminate.
  cbn [same_shape] in Hs. apply andb_true_iff in Hs as [Hs Hrest].
  apply andb_true_iff in Hs as [Hk Hnode].
  cbn [fget] in Hget. cbn [fset]. destruct (String.eqb kf k).
  - injection Hget as <-. cbn [same_shape]. rewrite Hk, Hrest.
    destruct ns as [a|t], nf as [v|sub], n' as [v'|sub']; try discriminate; try easy.
    cbn. rewrite (Hn t Hnode). reflexivity.
  - cbn [same_shape]. rewrite Hk, Hnode. cbn. exact (IH s k n n' Hrest Hget Hn).
Qed.

Lemma patch_shape (d : obj) :
  forall {A} (s : forest A) (f : SettingsFolder),
    same_shape s f = true -> same_shape s (_patch f d) = true.
Proof.
  induction d as [| | | | |o IH| |k v IHv rest IHrest]
    using obj_value_ind
    with (P := fun v => match v with
                        | VObj o =>
                            forall A (s : forest A) (f : SettingsFolder),
                              same_shape s f = true -> same_shape s (_patch f o) = true
                        | _ => True
                        end);
    try easy.
  intros A s f Hs. cbn [_patch]. apply IHrest.
  destruct (fget f k) as [[a|sub]|] eqn:Hget; [| |assumption].
  - now apply (fset_shape f s k (Leaf a) (Leaf v)).
  - destruct v; try assumption.
    apply (fset_shape f s k (Sub sub) (Sub (_patch sub o))); [assumption|assumption|].
    intros t Ht. now apply IHv.
Qed.

Lemma lookup_added_other (h : list SettingsObject.t) x a o :
  a <> length h -> (h ++ [x]) !! a = Some o -> h !! a = Some o.
Proof.
  intros Hne H. destruct (decide (a < length h)) as [Hlt|Hge].
  - now rewrite lookup_app_l in H.
  - rewrite lookup_ge_None_2 in H; [discriminate|]. rewrite length_app. cbn. lia.
Qed.

Lemma well_formed_patched w o data :
  well_formed w o ->
  well_formed w (with_entries o (_patch (SettingsObject.entries o) data)).
Proof.
  intros (gw & Hg & Hschema & Hu & Hs). exists gw. cbn. repeat split; try assumption.
  now apply patch_shape.
Qed.

Lemma well_formed_status w o s : well_formed w o -> well_formed w (with_status o s).
Proof. intros (gw & H). exists gw. exact H. Qed.

Lemma well_formed_reset w o :
  well_formed w o ->
  well_formed w (with_entries o (_init (SettingsObject.entries o) (SettingsObject.schema o))).
Proof.
  intros (gw & Hg & Hschema & Hu & Hs). exists gw. cbn. repeat split; try assumption.
  rewrite init_reset by assumption. apply same_shape_defaults.
Qed.

(** Well-formedness looks at the store's gateways only through their schemas. *)
Lemma well_formed_gateways w w' o :
  (forall g gw, gateways w !! g = Some gw ->
     exists gw', gateways w' !! g = Some gw' /\ Gateway.schema gw' = Gateway.schema gw) ->
  well_formed w o -> well_formed w' o.
Proof.
  intros H (gw & Hg & Hschema & Hu & Hs).
  destruct (H _ _ Hg) as (gw' & Hg' & Hsch). exists gw'. repeat split; try assumption.
  congruence.
Qed.

Lemma well_formed_store_insert w this o' gws t :
  (forall g gw, gateways w !! g = Some gw ->
     exists gw', gws !! g = Some gw' /\ Gateway.schema gw' = Gateway.schema gw) ->
  well_formed_store w ->
  well_formed w o' ->
  well_formed_store (mkWorld (<[this := o']> (heap w)) gws t).
Proof.
  intros Hg Hw Ho' a o Ha. cbn [heap] in Ha.
  apply (well_formed_gateways w); [exact Hg|].
  destruct (decide (a = this)) as [->|Hne].
  - destruct (heap w !! this) as [o0|] eqn:Ho0.
    + rewrite (lookup_written _ _ o0) in Ha by assumption. now injection Ha as <-.
    + rewrite list_insert_ge in Ha by (now apply lookup_ge_None). congruence.
  - rewrite list_lookup_insert_ne in Ha by congruence. exact (Hw _ _ Ha).
Qed.

Lemma gateways_kept (gws : list Gateway.t) :
  forall g gw, gws !! g = Some gw ->
    exists gw', gws !! g = Some gw' /\ Gateway.schema gw' = Gateway.schema gw.
Proof. eauto. Qed.

Lemma gateways_backend (gws : list Gateway.t) g0 gw0 b :
  gws !! g0 = Some gw0 ->
  forall g gw, gws !! g = Some gw ->
    exists gw', <[g0 := with_backend gw0 b]> gws !! g = Some gw'
                /\ Gateway.schema gw' = Gateway.schema gw.
Proof.
  intros H0 g gw Hg. destruct (decide (g = g0)) as [->|Hne].
  - rewrite list_lookup_insert_eq by (eapply lookup_lt_Some, H0).
    eexists. split; [reflexivity|]. cbn. congruence.
  - rewrite list_lookup_insert_ne by congruence. eauto.
Qed.

(** The folder invariant of the data model: every instance that [new] or
    [clone] makes has its schema's shape when the schema's keys are unique,
    and [sync] and [destroy] keep every instance's folder in shape. *)
Lemma folder_shape_invariant w :
  well_formed_store w ->
  (forall this force r w', Settings.sync this force w = Some (r, w') -> well_formed_store w')
  /\ (forall this r w', Settings.destroy this w = Some (r, w') -> well_formed_store w')
  /\ (forall g gw target id r w',
        gateways w !! g = Some gw -> unique_keys (Gateway.schema gw) = true ->
        Settings.new g target id w = Some (r, w') -> well_formed_store w')
  /\ (forall this r w', Settings.clone this w = Some (r, w') -> well_formed_store w').
Proof.
  intros Hw.
  assert (Hsync : forall this force r w',
            Settings.sync this force w = Some (r, w') -> well_formed_store w').
  { intros this force r w' H. destruct (sync_inv _ _ _ _ _ H) as (o & Ho & Hout).
    pose proof (Hw _ _ Ho) as Hwf.
    destruct Hout; try assumption.
    - apply well_formed_store_insert; [apply gateways_kept|assumption|].
      apply (well_formed_patched w (with_status o SettingsExistenceStatus.Exists)).
      now apply well_formed_status.
    - apply well_formed_store_insert; [apply gateways_kept|assumption|].
      now apply well_formed_status. }
  split; [exact Hsync|]. split; [|split].
  - intros this r w' H. destruct (destroy_inv _ _ _ _ H) as (r1 & w1 & Hs & Hcase).
    pose proof (Hsync _ _ _ _ Hs) as Hw1.
    destruct Hcase as [(e & _ & _ & ->)|(o1 & _ & Ho1 & Hout)]; [assumption|].
    pose proof (Hw1 _ _ Ho1) as Hwf1.
    destruct Hout as [| |gw e Hex Hgw|gw b Hex Hgw]; try assumption.
    + apply well_formed_store_insert; [now apply gateways_backend|assumption|].
      apply well_formed_status. now apply well_formed_reset.
  - intros g gw target id r w' Hg Hu H. rewrite (new_run w g gw) in H by assumption.
    injection H as <- <-. intros a o Ha. cbn [heap] in Ha.
    apply (well_formed_gateways w); [apply gateways_kept|].
    destruct (decide (a = length (heap w))) as [->|Hne].
    + rewrite lookup_last_added in Ha. injection Ha as <-.
      exists gw. cbn. repeat split; try assumption.
      rewrite init_defaults by assumption. apply same_shape_defaults.
    + apply (Hw a). exact (lookup_added_other _ _ _ _ Hne Ha).
  - intros this r w' H.
    destruct (heap w !! this) as [o|] eqn:Ho.
    2: { unfold Settings.clone, bind, read in H. rewrite Ho in H. discriminate. }
    destruct (Hw _ _ Ho) as (gw & Hg & Hschema & Hu & Hs).
    rewrite (clone_run w this o gw Ho Hg) in H. injection H as <- <-.
    intros a o' Ha. cbn [heap] in Ha.
    apply (well_formed_gateways w); [apply gateways_kept|].
    destruct (decide (a = length (heap w))) as [->|Hne].
    + rewrite lookup_last_added in Ha. injection Ha as <-.
      exists gw. cbn. rewrite <- Hschema. repeat split; try assumption.
      now rewrite clone_entries.
    + apply (Hw a). exact (lookup_added_other _ _ _ _ Hne Ha).
Qed.

Lemma world_fresh_well_formed : well_formed_store world_fresh.
Proof.
  intros [|a] o H; [|destruct a; discriminate]. injection H as <-.
  exists (example_gateway (Some "json") [("42", example_row)]). repeat split; reflexivity.
Qed.

(** * parseUpdateInput *)

Lemma append_snoc (s : string) c rest :
  ((s ++ String c EmptyString) ++ rest)%string = (s ++ String c rest)%string.
Proof.
  induction s as [|a s IH]; [reflexivity|].
  change (String a ((s ++ String c EmptyString) ++ rest) = String a (s ++ String c rest))%string.
  now rewrite IH.
Qed.

Lemma split_from_no_dot s : forall cur,
  includes_dot s = false -> split_from cur s = [(cur ++ s)%string].
Proof.
  induction s as [|c rest IH]; intros cur H; cbn [split_from includes_dot] in *.
  - f_equal. induction cur as [|a cur IHc]; [reflexivity|].
    change (String a cur = String a (cur ++ EmptyString))%string. now rewrite <- IHc.
  - destruct (Ascii.eqb c "."); [discriminate|]. rewrite IH by assumption.
    now rewrite append_snoc.
Qed.

Lemma split_from_cons s : forall cur, exists k r, split_from cur s = k :: r.
Proof.
  induction s as [|c rest IH]; intros cur; cbn [split_from]; [eauto|].
  destruct (Ascii.eqb c "."); [eauto|apply IH].
Qed.

(** What [makeObject] builds is the one-key object on top of the nesting
    along the rest of the route. *)
Lemma makeObject_route path v :
  exists k r, split_dot path = k :: r /\ makeObject path v = OCons k (nest r v) ONil.
Proof.
  unfold makeObject. destruct (includes_dot path) eqn:Hd.
  - destruct (split_from_cons path EmptyString) as (k & r & Hs). unfold split_dot.
    exists k, r. now rewrite Hs.
  - exists path, []. unfold split_dot. now rewrite split_from_no_dot.
Qed.

Lemma oget_oset_same o k v : oget (oset o k v) k = Some v.
Proof.
  induction o as [|k' v' o IH]; cbn.
  - now rewrite String.eqb_refl.
  - destruct (String.eqb k' k) eqn:E; cbn; rewrite E; [reflexivity|assumption].
Qed.

Lemma oget_oset_other o k k' v : String.eqb k k' = false -> oget (oset o k v) k' = oget o k'.
Proof.
  intros Hne. induction o as [|k0 v0 o IH]; cbn.
  - now rewrite Hne.
  - destruct (String.eqb k0 k) eqn:E; cbn.
    + apply String.eqb_eq in E as ->. now rewrite Hne.
    + now rewrite IH.
Qed.

Lemma mergeObjects_single t k sv :
  mergeObjects t (OCons k sv ONil) = oset t k (merge_value (oget t k) sv).
Proof. reflexivity. Qed.

Lemma vlookup_nest r v : vlookup r (nest r v) = Some v.
Proof. induction r as [|k r IH]; cbn; [reflexivity|]. now rewrite String.eqb_refl. Qed.

(** Routes that part ways read nothing in a nesting along the other. *)
Lemma vlookup_nest_apart r : forall r' v,
  is_prefix r r' = false -> is_prefix r' r = false -> vlookup r' (nest r v) = None.
Proof.
  induction r as [|k r IH]; intros [|k' r'] v H1 H2; try discriminate.
  cbn in *. rewrite String.eqb_sym in H2.
  destruct (String.eqb k k'); [|reflexivity]. now apply IH.
Qed.

(** At its own route, what is merged in is merged with what was there. *)
Lemma vlookup_merge_at r : forall tv v,
  vlookup r (merge_value tv (nest r v)) = Some (merge_value (at_route r tv) v).
Proof.
  induction r as [|k r IH]; intros tv v.
  - cbn [nest vlookup]. now destruct tv.
  - cbn [nest]. unfold merge_value at 1.
    destruct tv as [[| | | | |tgt]|];
      try (change (VObj (OCons k (nest r v) ONil)) with (nest (k :: r) v);
           rewrite vlookup_nest; cbn; now destruct v).
    rewrite mergeObjects_single. cbn [vlookup at_route]. rewrite oget_oset_same, IH.
    now destruct (oget tgt k).
Qed.

(** Merging at one route leaves what is read at a route that parts ways
    with it. *)
Lemma vlookup_merge_apart r : forall r' tv v,
  is_prefix r r' = false -> is_prefix r' r = false ->
  vlookup r' (merge_value tv (nest r v)) = at_route r' tv.
Proof.
  induction r as [|k r IH]; intros [|k' r'] tv v H1 H2; try discriminate.
  cbn [nest]. unfold merge_value at 1.
  destruct tv as [[| | | | |tgt]|];
    try (change (VObj (OCons k (nest r v) ONil)) with (nest (k :: r) v);
         rewrite vlookup_nest_apart by assumption; reflexivity).
  rewrite mergeObjects_single. cbn [vlookup at_route].
  cbn [is_prefix] in H1, H2. rewrite String.eqb_sym in H2.
  destruct (String.eqb k k') eqn:E.
  - apply String.eqb_eq in E as <-. rewrite oget_oset_same.
    rewrite IH by assumption. now destruct (oget tgt k).
  - now rewrite oget_oset_other.
Qed.

Lemma apart_spec r r' :
  apart r r' = true <-> is_prefix r r' = false /\ is_prefix r' r = false.
Proof.
  unfold apart. rewrite andb_true_iff, !negb_true_iff. tauto.
Qed.

Lemma parse_snoc cs c :
  Provider.parseUpdateInput (UpdateResults (cs ++ [c]))
  = mergeObjects (Provider.parseUpdateInput (UpdateResults cs))
      (makeObject (change_path c) (SettingsUpdateResult.next c)).
Proof. unfold Provider.parseUpdateInput. now rewrite fold_left_app. Qed.

(** One more change, seen in the parsed object. *)
Lemma parse_snoc_lookup cs c :
  let route := split_dot (change_path c) in
  let before := VObj (Provider.parseUpdateInput (UpdateResults cs)) in
  let after := VObj (Provider.parseUpdateInput (UpdateResults (cs ++ [c]))) in
  vlookup route after
  = Some (merge_value (vlookup route before) (SettingsUpdateResult.next c))
  /\ forall r, apart route r = true -> vlookup r after = vlookup r before.
Proof.
  cbv zeta. rewrite parse_snoc.
  destruct (makeObject_route (change_path c) (SettingsUpdateResult.next c))
    as (k & r & Hroute & ->).
  change (VObj (mergeObjects ?t (OCons k (nest r ?x) ONil)))
    with (merge_value (Some (VObj t)) (nest (k :: r) x)).
  rewrite Hroute. split.
  - apply vlookup_merge_at.
  - intros r' Hr. apply apart_spec in Hr as [H1 H2].
    now rewrite vlookup_merge_apart.
Qed.

Lemma merged_at_snoc p cs c :
  merged_at p (cs ++ [c])
  = if String.eqb (change_path c) p
    then Some (merge_value (merged_at p cs) (SettingsUpdateResult.next c))
    else merged_at p cs.
Proof. unfold merged_at. now rewrite fold_left_app. Qed.

(** A value that is merged in replaces what was there, unless both are plain
    objects. *)
Lemma merge_value_replaces tv v :
  isObject v && is_plain_object tv = false -> merge_value tv v = v.
Proof.
  destruct v; try reflexivity. destruct tv as [[| | | | |t]|]; try reflexivity. discriminate.
Qed.

Lemma parse_merged_at cs : forall p,
  (forall c, In c cs ->
     change_path c = p \/ apart (split_dot (change_path c)) (split_dot p) = true) ->
  vlookup (split_dot p) (VObj (Provider.parseUpdateInput (UpdateResults cs))) = merged_at p cs.
Proof.
  induction cs as [|c cs IH] using rev_ind; intros p Hp.
  - cbn. unfold split_dot. destruct (split_from_cons p EmptyString) as (k & r & ->). reflexivity.
  - assert (Hcs : forall c0, In c0 cs ->
              change_path c0 = p
              \/ apart (split_dot (change_path c0)) (split_dot p) = true).
    { intros c0 Hin. apply Hp, in_or_app. now left. }
    pose proof (parse_snoc_lookup cs c) as H. cbv zeta in H. destruct H as [Hsame Hother].
    rewrite merged_at_snoc. destruct (String.eqb (change_path c) p) eqn:E.
    + apply String.eqb_eq in E. subst p. rewrite Hsame. now rewrite (IH _ Hcs).
    + destruct (Hp c) as [Heq|Hapart]; [apply in_or_app; right; now left| |].
      * rewrite Heq, String.eqb_refl in E. discriminate.
      * rewrite (Hother _ Hapart). now apply IH.
Qed.

(** C3, as the code has it: a plain object is returned as it is, whatever
    its keys. A sequence of change records gives one nested object, built
    change by change: at the route of its own path a change merges its value
    with what the changes before it left there, and at every route that parts
    ways with its own (a sibling path, or one under a sibling) it leaves what
    was there. The value merged in replaces what was there (the later entry
    overwrites the earlier one), unless both are plain objects, which are
    merged key by key. So what the whole sequence leaves at a path is what the
    changes at that path make of it in their order, when the other changes are
    at paths that part ways with it; and changes at a.b and a.c give
    [{a: {b: .., c: ..}}]. *)
Theorem parseUpdateInput_deep_merge :
  (forall o, Provider.parseUpdateInput (PlainObject o) = o)
  /\ (forall cs c,
        let route := split_dot (change_path c) in
        let before := VObj (Provider.parseUpdateInput (UpdateResults cs)) in
        let after := VObj (Provider.parseUpdateInput (UpdateResults (cs ++ [c]))) in
        vlookup route after
        = Some (merge_value (vlookup route before) (SettingsUpdateResult.next c))
        /\ forall r, apart route r = true -> vlookup r after = vlookup r before)
  /\ (forall tv v, isObject v && is_plain_object tv = false -> merge_value tv v = v)
  /\ (forall t s, merge_value (Some (VObj t)) (VObj s) = VObj (mergeObjects t s))
  /\ (forall cs p,
        (forall c, In c cs ->
           change_path c = p \/ apart (split_dot (change_path c)) (split_dot p) = true) ->
        vlookup (split_dot p) (VObj (Provider.parseUpdateInput (UpdateResults cs)))
        = merged_at p cs)
  /\ (forall p cs c,
        merged_at p (cs ++ [c])
        = if String.eqb (change_path c) p
          then Some (merge_value (merged_at p cs) (SettingsUpdateResult.next c))
          else merged_at p cs)
  /\ (forall eb ec pb pc vb vc,
        SchemaEntry.path eb = "a.b" ->
        SchemaEntry.path ec = "a.c" ->
        Provider.parseUpdateInput
          (UpdateResults [SettingsUpdateResult.mk eb pb vb; SettingsUpdateResult.mk ec pc vc])
        = OCons "a" (VObj (OCons "b" vb (OCons "c" vc ONil))) ONil).
Proof.
  split; [reflexivity|]. split; [exact parse_snoc_lookup|].
  split; [exact merge_value_replaces|]. split; [reflexivity|].
  split; [exact parse_merged_at|]. split; [exact merged_at_snoc|].
  intros [pathb tb db] [pathc tc dc] pb pc vb vc Hb Hc. cbn in Hb, Hc. subst.
  destruct vc; reflexivity.
Qed.

Lemma parseUpdateInput_deep_merge_witness :
  let cs := [change "a.b" (VNum 1); change "a.c" (VNum 2); change "a.b" (VNum 3);
             change "x" (VObj (OCons "y" (VNum 4) ONil))] in
  Provider.parseUpdateInput (UpdateResults cs)
  = OCons "a" (VObj (OCons "b" (VNum 3) (OCons "c" (VNum 2) ONil)))
      (OCons "x" (VObj (OCons "y" (VNum 4) ONil)) ONil)
  /\ vlookup ["a"; "b"] (VObj (Provider.parseUpdateInput (UpdateResults cs))) = Some (VNum 3)
  /\ vlookup ["x"] (VObj (Provider.parseUpdateInput (UpdateResults cs)))
     = Some (VObj (OCons "y" (VNum 4) ONil)).
Proof.
  cbv zeta. split; [reflexivity|]. split.
  - apply (proj1 (proj2 (proj2 (proj2 (proj2 parseUpdateInput_deep_merge))))
             [change "a.b" (VNum 1); change "a.c" (VNum 2); change "a.b" (VNum 3);
              change "x" (VObj (OCons "y" (VNum 4) ONil))] "a.b").
    intros c [<-|[<-|[<-|[<-|[]]]]]; (now left) || (now right).
  - apply (proj1 (proj2 (proj2 (proj2 (proj2 parseUpdateInput_deep_merge))))
             [change "a.b" (VNum 1); change "a.c" (VNum 2); change "a.b" (VNum 3);
              change "x" (VObj (OCons "y" (VNum 4) ONil))] "x").
    intros c [<-|[<-|[<-|[<-|[]]]]]; (now left) || (now right).
Defined.

(** C3 as the specification states it fails. A plain mapping from paths to
    values comes back as it went in, with its dotted keys, and is not the
    nested object the same changes give as a sequence. In a sequence, a later
    entry does not overwrite an earlier one at the same path when both carry
    plain objects: the two are merged. And the value of the last change at a
    path is not what is read there when another change goes through that
    path: a change at a.b after one at a replaces the value at a by an
    object. *)
Lemma parseUpdateInput_as_stated_fails :
  let flat := OCons "a.b" (VNum 1) (OCons "a.c" (VNum 2) ONil) in
  let nested := OCons "a" (VObj (OCons "b" (VNum 1) (OCons "c" (VNum 2) ONil))) ONil in
  let x1 := VObj (OCons "x" (VNum 1) ONil) in
  let y2 := VObj (OCons "y" (VNum 2) ONil) in
  (Provider.parseUpdateInput (PlainObject flat) = flat
   /\ Provider.parseUpdateInput (PlainObject flat) <> nested
   /\ vlookup (split_dot "a.b") (VObj (Provider.parseUpdateInput (PlainObject flat))) = None
   /\ Provider.parseUpdateInput
        (UpdateResults [change "a.b" (VNum 1); change "a.c" (VNum 2)]) = nested)
  /\ (Provider.parseUpdateInput (UpdateResults [change "a" x1; change "a" y2])
      = OCons "a" (VObj (OCons "x" (VNum 1) (OCons "y" (VNum 2) ONil))) ONil
      /\ vlookup (split_dot "a")
           (VObj (Provider.parseUpdateInput (UpdateResults [change "a" x1; change "a" y2])))
         <> Some y2)
  /\ (Provider.parseUpdateInput (UpdateResults [change "a" (VNum 5); change "a.b" (VNum 1)])
      = OCons "a" (VObj (OCons "b" (VNum 1) ONil)) ONil
      /\ merged_at "a" [change "a" (VNum 5); change "a.b" (VNum 1)] = Some (VNum 5)
      /\ vlookup (split_dot "a")
           (VObj (Provider.parseUpdateInput
                    (UpdateResults [change "a" (VNum 5); change "a.b" (VNum 1)])))
         <> Some (VNum 5)).
Proof.
  cbv zeta. repeat split; try reflexivity; discriminate.
Qed.

(** * The RequestHandler *)

Section RequestHandlerFacts.

Import RequestHandler.

Implicit Types (s : RequestHandler.t) (q : list future) (w : nat) (id : string).




















(** ** What the handler keeps *)











(** ** Every waiter is answered once *)












End RequestHandlerFacts.



(** * The scenarios of the specification *)

(** A fresh instance without a row: [sync()] gives [NotExists] and the
    default prefix; once storage holds the row, [sync(true)] gives [Exists]
    and the row's prefix. *)
Example end_to_end_scenario :
  exists w1 w2,
    Settings.sync 0 None world_absent = Some (Resolved 0, w1)
    /\ status_at w1 0 = Some SettingsExistenceStatus.NotExists
    /\ snapshot_at w1 0
       = Some (OCons "prefix" (VStr "!") (OCons "mod" (VObj (OCons "level" (VNum 0) ONil)) ONil))
    /\ run_ops [OpEnvironment [example_gateway (Some "json") [("42", example_row)]];
                OpSync 0 (Some true)] w1 = Some w2
    /\ status_at w2 0 = Some SettingsExistenceStatus.Exists
    /\ snapshot_at w2 0
       = Some (OCons "prefix" (VStr "?") (OCons "mod" (VObj (OCons "level" (VNum 0) ONil)) ONil)).
Proof.
  eexists. eexists. split; [vm_compute; reflexivity|].
  split; [reflexivity|]. split; [reflexivity|].
  split; [vm_compute; reflexivity|]. split; reflexivity.
Qed.

(** Two calls of [sync(false)] in a row fetch nothing. *)
Example sync_false_twice :
  run_ops [OpSync 0 (Some false); OpSync 0 (Some false)] world_fresh = Some world_fresh.
Proof. reflexivity. Qed.

(** [push("a")] and [push("b")] before the dispatch: one [getAll] with both
    ids. *)
Example concurrent_push_scenario :
  RequestHandler.calls
    (RequestHandler.run
       [RequestHandler.Push 1 "a"; RequestHandler.Push 2 "b"; RequestHandler.Dispatch]
       RequestHandler.empty)
  = [["a"; "b"]].
Proof. reflexivity. Qed.

(** * Beyond the specification: what the calls settle *)

(** A [sync] that fetched or was called without argument, and resolved,
    leaves the instance with a status other than [Unsynchronized]. *)
Lemma sync_resolved_status w this force r w1 :
  force <> Some false ->
  Settings.sync this force w = Some (Resolved r, w1) ->
  r = this
  /\ exists o1, heap w1 !! this = Some o1
       /\ SettingsObject.existenceStatus o1 <> SettingsExistenceStatus.Unsynchronized.
Proof.
  intros Hforce H.
  destruct (heap w !! this) as [o|] eqn:Ho.
  2: { rewrite sync_dangling in H by assumption. discriminate. }
  destruct (effective_force o force) eqn:Hf.
  - destruct (gateways w !! SettingsObject.gateway o) as [gw|] eqn:Hg.
    2: { rewrite (sync_dangling_gateway w this o) in H by assumption. discriminate. }
    rewrite (sync_forced w this o Ho gw Hg force Hf) in H.
    destruct (Backend.read_error (Gateway.backend gw)); [discriminate|].
    destruct (find_row _ _); injection H as <- <-; (split; [reflexivity|]); cbn [heap];
      eexists; (split; [eapply lookup_written, Ho|]); cbn; discriminate.
  - rewrite (sync_not_forced w this o Ho force Hf) in H. injection H as <- <-.
    split; [reflexivity|]. exists o. split; [assumption|].
    destruct force as [[|]|]; [discriminate|congruence|].
    intros Hs. apply default_force_iff in Hs. congruence.
Qed.

(** On an instance that is not [Unsynchronized], [sync()] does nothing. *)
Lemma sync_settled w this o :
  heap w !! this = Some o ->
  SettingsObject.existenceStatus o <> SettingsExistenceStatus.Unsynchronized ->
  Settings.sync this None w = Some (Resolved this, w).
Proof.
  intros Ho Hs. apply (sync_not_forced w this o Ho None).
  destruct (effective_force o None) eqn:Hf; [|reflexivity].
  apply default_force_iff in Hf. congruence.
Qed.

(** On an instance that is [NotExists], [destroy()] does nothing. *)
Lemma destroy_settled w this o :
  heap w !! this = Some o ->
  SettingsObject.existenceStatus o = SettingsExistenceStatus.NotExists ->
  Settings.destroy this w = Some (Resolved this, w).
Proof.
  intros Ho Hs.
  apply (destroy_not_exists w w this this o); [|assumption|congruence].
  apply (sync_settled w this o Ho). congruence.
Qed.

(** X1: a [sync()] or [sync(true)] that resolves returns the instance it was
    called on and leaves it synchronized: its status is [Exists] or
    [NotExists]. From then on [sync()] without argument is settled: it returns
    the instance with the store untouched and asks the request handler
    nothing, whatever storage holds by then; only [sync(true)] fetches
    again. *)
Theorem sync_settles w this force r w1 :
  force <> Some false ->
  Settings.sync this force w = Some (Resolved r, w1) ->
  r = this
  /\ (status_at w1 this = Some SettingsExistenceStatus.Exists
      \/ status_at w1 this = Some SettingsExistenceStatus.NotExists)
  /\ Settings.sync this None w1 = Some (Resolved this, w1)
  /\ forall gws log,
       Settings.sync this None (mkWorld (heap w1) gws log)
       = Some (Resolved this, mkWorld (heap w1) gws log).
Proof.
  intros Hforce H.
  destruct (sync_resolved_status w this force r w1 Hforce H) as (-> & o1 & Ho1 & Hs).
  split; [reflexivity|]. split; [|split].
  - unfold status_at. rewrite Ho1. cbn.
    destruct (SettingsObject.existenceStatus o1); [congruence|now right|now left].
  - now apply (sync_settled w1 this o1).
  - intros gws log. now apply (sync_settled _ this o1).
Qed.

Lemma sync_settles_witness :
  exists w1,
    Settings.sync 0 None world_fresh = Some (Resolved 0, w1)
    /\ status_at w1 0 = Some SettingsExistenceStatus.Exists
    /\ Settings.sync 0 None
         (mkWorld (heap w1) [example_gateway (Some "json") []] (trace w1))
       = Some (Resolved 0, mkWorld (heap w1) [example_gateway (Some "json") []] (trace w1)).
Proof.
  eexists. split; [vm_compute; reflexivity|]. split; [reflexivity|].
  refine (proj2 (proj2 (proj2 (sync_settles world_fresh 0 None 0 _ _ _))) _ _).
  - discriminate.
  - vm_compute. reflexivity.
Defined.

(** X2: when the request handler's fetch fails, a fetching [sync] rejects
    with the handler's error, and it has done nothing but ask: no instance
    and no gateway has changed (the status and the values are as before),
    nothing was patched and no event was emitted. *)
Theorem sync_fetch_failure w this o gw force e :
  heap w !! this = Some o ->
  gateways w !! SettingsObject.gateway o = Some gw ->
  effective_force o force = true ->
  Backend.read_error (Gateway.backend gw) = Some e ->
  exists w',
    Settings.sync this force w = Some (Rejected e, w')
    /\ heap w' = heap w
    /\ gateways w' = gateways w
    /\ trace w' = trace w ++ [CallPush (SettingsObject.gateway o) (SettingsObject.id o)]
    /\ status_at w' this = Some (SettingsObject.existenceStatus o)
    /\ entries_at w' this = Some (SettingsObject.entries o).
Proof.
  intros Ho Hg Hf He. rewrite (sync_forced w this o Ho gw Hg force Hf), He.
  eexists. split; [reflexivity|]. cbn [heap gateways trace].
  unfold status_at, entries_at. cbn [heap]. rewrite Ho. now repeat split.
Qed.

Lemma sync_fetch_failure_witness :
  let down := mkWorld (heap world_fresh)
                [Gateway.mk "guilds" example_schema (Some "json")
                   (Backend.mk [("42", example_row)] (Some "ECONNRESET") None)] [] in
  exists w',
    Settings.sync 0 None down = Some (Rejected "ECONNRESET", w')
    /\ heap w' = heap down
    /\ trace w' = [CallPush 0 "42"].
Proof.
  cbv zeta.
  destruct (sync_fetch_failure
              (mkWorld (heap world_fresh)
                 [Gateway.mk "guilds" example_schema (Some "json")
                    (Backend.mk [("42", example_row)] (Some "ECONNRESET") None)] [])
              0 (example_settings SettingsExistenceStatus.Unsynchronized "!")
              (Gateway.mk "guilds" example_schema (Some "json")
                 (Backend.mk [("42", example_row)] (Some "ECONNRESET") None))
              None "ECONNRESET" eq_refl eq_refl eq_refl eq_refl)
    as (w' & Hrun & Hh & _ & Ht & _).
  exists w'. split; [exact Hrun|]. split; [exact Hh | exact Ht].
Defined.

(** X3: a [destroy()] that resolves returns the instance it was called on
    and leaves it [NotExists], whatever its status was before. From then on
    the instance is settled: [destroy()] and [sync()] both return it with the
    store untouched, asking neither the request handler nor the provider,
    whatever storage and the provider are by then. *)
Theorem destroy_settles w this r w' :
  Settings.destroy this w = Some (Resolved r, w') ->
  r = this
  /\ status_at w' this = Some SettingsExistenceStatus.NotExists
  /\ Settings.destroy this w' = Some (Resolved this, w')
  /\ forall gws log,
       Settings.destroy this (mkWorld (heap w') gws log)
       = Some (Resolved this, mkWorld (heap w') gws log)
       /\ Settings.sync this None (mkWorld (heap w') gws log)
          = Some (Resolved this, mkWorld (heap w') gws log).
Proof.
  intros H.
  destruct (destroy_inv _ _ _ _ H) as (r1 & w1 & Hsync & Hcase).
  destruct Hcase as [(e & _ & Hr & _)|(o1 & -> & Ho1 & Hout)]; [discriminate|].
  assert (Hfinal : r = this
                   /\ exists o', heap w' !! this = Some o'
                        /\ SettingsObject.existenceStatus o'
                           = SettingsExistenceStatus.NotExists).
  { remember (Resolved r) as res eqn:Hres.
    destruct Hout as [Hne| | |gw b Hex Hgw]; try discriminate; injection Hres as <-.
    - split; [reflexivity|]. exists o1. split; [assumption|].
      destruct (sync_resolved_status w this None this w1 ltac:(discriminate) Hsync)
        as (_ & o1' & Ho1' & Hs).
      assert (o1' = o1) as -> by congruence.
      destruct (SettingsObject.existenceStatus o1); congruence.
    - split; [reflexivity|]. cbn [heap]. eexists.
      split; [eapply lookup_written, Ho1|reflexivity]. }
  destruct Hfinal as (-> & o' & Ho' & Hs).
  split; [reflexivity|]. split; [|split].
  - unfold status_at. rewrite Ho'. cbn. now rewrite Hs.
  - now apply (destroy_settled w' this o').
  - intros gws log. split.
    + now apply (destroy_settled _ this o').
    + apply (sync_settled _ this o'); [assumption|]. congruence.
Qed.

Lemma destroy_settles_witness :
  exists w',
    Settings.destroy 0 world_fresh = Some (Resolved 0, w')
    /\ status_at w' 0 = Some SettingsExistenceStatus.NotExists
    /\ Settings.destroy 0 w' = Some (Resolved 0, w').
Proof.
  eexists. split; [vm_compute; reflexivity|].
  refine ((fun H => conj (proj1 (proj2 H)) (proj1 (proj2 (proj2 H))))
            (destroy_settles world_fresh 0 0 _ _)).
  vm_compute. reflexivity.
Defined.



(** X5: when [provider.delete] rejects, [destroy()] rejects with the
    provider's error and the instance is as it was: still [Exists], its values
    not reset, no [settingsDelete] emitted. So the call can be made again: once
    the provider accepts the delete, a second [destroy()] calls
    [provider.delete] again, without asking the request handler first, and
    completes the deletion. *)
Theorem destroy_retry_after_failed_delete w this o gw p e gws gw' p' :
  heap w !! this = Some o ->
  SettingsObject.existenceStatus o = SettingsExistenceStatus.Exists ->
  gateways w !! SettingsObject.gateway o = Some gw ->
  Gateway.provider gw = Some p ->
  Backend.write_error (Gateway.backend gw) = Some e ->
  gws !! SettingsObject.gateway o = Some gw' ->
  Gateway.provider gw' = Some p' ->
  Backend.write_error (Gateway.backend gw') = None ->
  let g := SettingsObject.gateway o in
  let w1 := mkWorld (heap w) (gateways w)
              (trace w ++ [CallDelete g (Gateway.name gw) (SettingsObject.id o)]) in
  Settings.destroy this w = Some (Rejected e, w1)
  /\ status_at w1 this = Some SettingsExistenceStatus.Exists
  /\ entries_at w1 this = Some (SettingsObject.entries o)
  /\ exists w2,
       Settings.destroy this (mkWorld (heap w1) gws (trace w1)) = Some (Resolved this, w2)
       /\ trace w2 = trace w ++ [CallDelete g (Gateway.name gw) (SettingsObject.id o);
                                 CallDelete g (Gateway.name gw') (SettingsObject.id o);
                                 Emit "settingsDelete" this; DoInit this;
                                 SetStatus this SettingsExistenceStatus.NotExists]
       /\ status_at w2 this = Some SettingsExistenceStatus.NotExists.
Proof.
  intros Ho Hex Hg Hp He Hg' Hp' He' g w1.
  assert (Hns : SettingsObject.existenceStatus o <> SettingsExistenceStatus.Unsynchronized)
    by congruence.
  split; [|split; [|split]].
  - rewrite (destroy_exists w w this this o (sync_settled w this o Ho Hns) Ho gw Hex Hg p Hp).
    cbn zeta. now rewrite He.
  - unfold status_at. cbn [w1 heap]. rewrite Ho. cbn. now rewrite Hex.
  - unfold entries_at. cbn [w1 heap]. now rewrite Ho.
  - set (w1' := mkWorld (heap w1) gws (trace w1)).
    assert (Ho1 : heap w1' !! this = Some o) by exact Ho.
    rewrite (destroy_exists w1' w1' this this o (sync_settled w1' this o Ho1 Hns) Ho1
               gw' Hex Hg' p' Hp').
    cbn zeta. rewrite He'. eexists. split; [reflexivity|].
    cbn [w1' w1 heap gateways trace]. split.
    + now rewrite <- app_assoc.
    + unfold status_at. cbn [heap]. now rewrite (lookup_written _ _ o).
Qed.

Lemma destroy_retry_after_failed_delete_witness :
  let readonly := Gateway.mk "guilds" example_schema (Some "json")
                    (Backend.mk [("42", example_row)] None (Some "EROFS")) in
  let w := mkWorld (heap (world_synced (Some "json"))) [readonly] [] in
  Settings.destroy 0 w
  = Some (Rejected "EROFS", mkWorld (heap w) [readonly] [CallDelete 0 "guilds" "42"])
  /\ exists w2,
       Settings.destroy 0
         (mkWorld (heap w) (gateways (world_synced (Some "json"))) [CallDelete 0 "guilds" "42"])
       = Some (Resolved 0, w2)
       /\ status_at w2 0 = Some SettingsExistenceStatus.NotExists.
Proof.
  cbv zeta.
  destruct (destroy_retry_after_failed_delete
              (mkWorld (heap (world_synced (Some "json")))
                 [Gateway.mk "guilds" example_schema (Some "json")
                    (Backend.mk [("42", example_row)] None (Some "EROFS"))] [])
              0 (example_settings SettingsExistenceStatus.Exists "?")
              (Gateway.mk "guilds" example_schema (Some "json")
                 (Backend.mk [("42", example_row)] None (Some "EROFS")))
              "json" "EROFS" (gateways (world_synced (Some "json")))
              (example_gateway (Some "json") [("42", example_row)]) "json"
              eq_refl eq_refl eq_refl eq_refl eq_refl eq_refl eq_refl eq_refl)
    as (Hfail & _ & _ & w2 & Hretry & _ & Hs).
  split; [exact Hfail|]. exists w2. split; [exact Hretry | exact Hs].
Defined.

(** X6: [destroy()] on an instance that is still [Unsynchronized] and whose
    row is in storage, with a provider at hand, does both things in one call:
    it fetches and patches the row and emits [settingsSync], then deletes the
    row, emits [settingsDelete], resets the folder and sets [NotExists]; the
    eight steps come in this order. *)
Theorem destroy_unsynchronized_existing w this o gw p row :
  heap w !! this = Some o ->
  SettingsObject.existenceStatus o = SettingsExistenceStatus.Unsynchronized ->
  gateways w !! SettingsObject.gateway o = Some gw ->
  Backend.read_error (Gateway.backend gw) = None ->
  find_row (Backend.rows (Gateway.backend gw)) (SettingsObject.id o) = Some row ->
  Gateway.provider gw = Some p ->
  Backend.write_error (Gateway.backend gw) = None ->
  let g := SettingsObject.gateway o in
  exists w',
    Settings.destroy this w = Some (Resolved this, w')
    /\ trace w' = trace w ++ [CallPush g (SettingsObject.id o);
                              SetStatus this SettingsExistenceStatus.Exists;
                              DoPatch this row;
                              Emit "settingsSync" this;
                              CallDelete g (Gateway.name gw) (SettingsObject.id o);
                              Emit "settingsDelete" this;
                              DoInit this;
                              SetStatus this SettingsExistenceStatus.NotExists]
    /\ status_at w' this = Some SettingsExistenceStatus.NotExists
    /\ entries_at w' this
       = Some (_init (_patch (SettingsObject.entries o) row) (SettingsObject.schema o))
    /\ forall a, a <> this -> heap w' !! a = heap w !! a.
Proof.
  intros Ho Hs Hg Her Hrow Hp Hew g.
  assert (Hsync := sync_forced w this o Ho gw Hg None (proj2 (default_force_iff o) Hs)).
  rewrite Her, Hrow in Hsync.
  rewrite (destroy_exists w _ this this _ Hsync (lookup_written _ _ o _ Ho) gw eq_refl Hg p Hp).
  cbn zeta. rewrite Hew. eexists. split; [reflexivity|].
  cbn [heap gateways trace]. split; [now rewrite <- app_assoc|].
  unfold status_at, entries_at. cbn [heap].
  rewrite list_insert_insert_eq, (lookup_written _ _ o) by assumption.
  split; [reflexivity|]. split; [reflexivity|].
  intros a Hne. now rewrite list_lookup_insert_ne by congruence.
Qed.

Lemma destroy_unsynchronized_existing_witness :
  exists w',
    Settings.destroy 0 world_fresh = Some (Resolved 0, w')
    /\ trace w' = [DoInit 0; CallPush 0 "42"; SetStatus 0 SettingsExistenceStatus.Exists;
                   DoPatch 0 example_row; Emit "settingsSync" 0;
                   CallDelete 0 "guilds" "42"; Emit "settingsDelete" 0; DoInit 0;
                   SetStatus 0 SettingsExistenceStatus.NotExists].
Proof.
  destruct (destroy_unsynchronized_existing world_fresh 0
              (example_settings SettingsExistenceStatus.Unsynchronized "!")
              (example_gateway (Some "json") [("42", example_row)]) "json" example_row
              eq_refl eq_refl eq_refl eq_refl eq_refl eq_refl eq_refl)
    as (w' & Hrun & Ht & _).
  exists w'. split; [exact Hrun | exact Ht].
Defined.

(** * Beyond the specification: construction and cloning *)

(** X7: the constructor and [clone()] only add one instance to the store, at
    a reference no instance had: every instance there was is as before, no
    gateway changes, and the call reaches neither the request handler nor the
    provider nor the client's listeners. The new instance has the id, gateway
    and target it was given (for a clone, the original's) and is bound to the
    gateway's schema. *)
Theorem construction_is_local :
  (forall w g gw target id,
     gateways w !! g = Some gw ->
     exists w' o' added,
       Settings.new g target id w = Some (Resolved (length (heap w)), w')
       /\ heap w' = heap w ++ [o']
       /\ gateways w' = gateways w
       /\ SettingsObject.id o' = id
       /\ SettingsObject.gateway o' = g
       /\ SettingsObject.target o' = target
       /\ SettingsObject.schema o' = Gateway.schema gw
       /\ trace w' = trace w ++ added
       /\ forallb (fun s => negb (is_io s)) added = true)
  /\ (forall w this o gw,
        heap w !! this = Some o ->
        gateways w !! SettingsObject.gateway o = Some gw ->
        exists w' oc added,
          Settings.clone this w = Some (Resolved (length (heap w)), w')
          /\ heap w' = heap w ++ [oc]
          /\ gateways w' = gateways w
          /\ SettingsObject.id oc = SettingsObject.id o
          /\ SettingsObject.gateway oc = SettingsObject.gateway o
          /\ SettingsObject.target oc = SettingsObject.target o
          /\ SettingsObject.schema oc = Gateway.schema gw
          /\ trace w' = trace w ++ added
          /\ forallb (fun s => negb (is_io s)) added = true).
Proof.
  split.
  - intros w g gw target id Hg. rewrite (new_run w g gw) by assumption.
    do 3 eexists. split; [reflexivity|]. cbn [heap gateways trace].
    repeat (split; [reflexivity|]). reflexivity.
  - intros w this o gw Ho Hg. rewrite (clone_run w this o gw Ho Hg).
    do 3 eexists. split; [reflexivity|]. cbn [heap gateways trace].
    repeat (split; [reflexivity|]). reflexivity.
Qed.

Lemma construction_is_local_witness :
  exists w',
    Settings.clone 0 (world_synced (Some "json")) = Some (Resolved 1, w')
    /\ heap w' !! 0 = heap (world_synced (Some "json")) !! 0
    /\ trace w' = [DoInit 1; DoPatch 1 (toJSON (SettingsObject.entries
                                                 (example_settings
                                                    SettingsExistenceStatus.Exists "?")))].
Proof.
  destruct (proj2 construction_is_local (world_synced (Some "json")) 0
              (example_settings SettingsExistenceStatus.Exists "?")
              (example_gateway (Some "json") [("42", example_row)]) eq_refl eq_refl)
    as (w' & oc & added & Hrun & Hh & _ & _ & _ & _ & _ & Ht & _).
  exists w'. split; [exact Hrun|]. split.
  - rewrite Hh. reflexivity.
  - rewrite (clone_run (world_synced (Some "json")) 0
               (example_settings SettingsExistenceStatus.Exists "?")
               (example_gateway (Some "json") [("42", example_row)]) eq_refl eq_refl) in Hrun.
    injection Hrun as <-. reflexivity.
Defined.

(** X8: the first [sync()] of a clone always fetches, whatever the status of
    the original: it asks the request handler of the original's gateway for
    the original's id (once), and the clone becomes [Exists], patched with the
    row, or [NotExists]. The original is not touched by it. *)
Theorem clone_first_sync_fetches w this o gw :
  heap w !! this = Some o ->
  gateways w !! SettingsObject.gateway o = Some gw ->
  Backend.read_error (Gateway.backend gw) = None ->
  let found := find_row (Backend.rows (Gateway.backend gw)) (SettingsObject.id o) in
  exists w1 c oc w2,
    Settings.clone this w = Some (Resolved c, w1)
    /\ heap w1 !! c = Some oc
    /\ Settings.sync c None w1 = Some (Resolved c, w2)
    /\ trace w2
       = trace w1 ++ CallPush (SettingsObject.gateway o) (SettingsObject.id o)
                     :: match found with
                        | Some row => [SetStatus c SettingsExistenceStatus.Exists;
                                       DoPatch c row; Emit "settingsSync" c]
                        | None => [SetStatus c SettingsExistenceStatus.NotExists]
                        end
    /\ status_at w2 c
       = Some (match found with
               | Some _ => SettingsExistenceStatus.Exists
               | None => SettingsExistenceStatus.NotExists
               end)
    /\ entries_at w2 c
       = Some (match found with
               | Some row => _patch (SettingsObject.entries oc) row
               | None => SettingsObject.entries oc
               end)
    /\ heap w2 !! this = Some o.
Proof.
  intros Ho Hg He found.
  assert (Hlt : this < length (heap w)) by (eapply lookup_lt_Some, Ho).
  rewrite (clone_run w this o gw Ho Hg).
  unfold status_at, entries_at.
  destruct found as [row|] eqn:Hrow; subst found;
    do 4 eexists; (split; [reflexivity|]); cbn [heap gateways trace];
    (split; [apply lookup_last_added|]);
    (erewrite sync_forced;
     [ | cbn [heap]; apply lookup_last_added | cbn [gateways SettingsObject.gateway]; exact Hg
       | reflexivity ]);
    rewrite He; cbn [SettingsObject.id]; rewrite Hrow;
    (split; [reflexivity|]); cbn [heap gateways trace];
    rewrite insert_last_added, lookup_last_added;
    (split; [reflexivity|]); (split; [reflexivity|]); (split; [reflexivity|]);
    now rewrite lookup_app_l.
Qed.

Lemma clone_first_sync_fetches_witness :
  exists w1 w2,
    Settings.clone 0 (world_synced (Some "json")) = Some (Resolved 1, w1)
    /\ Settings.sync 1 None w1 = Some (Resolved 1, w2)
    /\ trace w2 = trace w1 ++ [CallPush 0 "42"; SetStatus 1 SettingsExistenceStatus.Exists;
                               DoPatch 1 example_row; Emit "settingsSync" 1].
Proof.
  destruct (clone_first_sync_fetches (world_synced (Some "json")) 0
              (example_settings SettingsExistenceStatus.Exists "?")
              (example_gateway (Some "json") [("42", example_row)]) eq_refl eq_refl eq_refl)
    as (w1 & c & oc & w2 & Hclone & _ & Hsync & Ht & _).
  assert (c = 1) as ->.
  { rewrite (clone_run (world_synced (Some "json")) 0
               (example_settings SettingsExistenceStatus.Exists "?")
               (example_gateway (Some "json") [("42", example_row)]) eq_refl eq_refl) in Hclone.
    now injection Hclone as <- _. }
  exists w1, w2. split; [exact Hclone|]. split; [exact Hsync | exact Ht].
Defined.

(** * Beyond the specification: sequences of calls *)

Lemma new_inv w g target id r w' :
  Settings.new g target id w = Some (r, w') -> exists gw, gateways w !! g = Some gw.
Proof.
  unfold Settings.new, bind, read_gateway. destruct (gateways w !! g); [eauto|discriminate].
Qed.

Lemma clone_inv w this r w' :
  Settings.clone this w = Some (r, w') ->
  exists o gw, heap w !! this = Some o /\ gateways w !! SettingsObject.gateway o = Some gw.
Proof.
  intros H. destruct (heap w !! this) as [o|] eqn:Ho.
  2: { unfold Settings.clone, bind, read in H. rewrite Ho in H. discriminate. }
  exists o. destruct (gateways w !! SettingsObject.gateway o) as [gw|] eqn:Hg; [eauto|].
  unfold Settings.clone in H. rewrite (run_read this o) in H by assumption.
  unfold bind at 1 in H. unfold Settings.new, bind, read_gateway in H.
  rewrite Hg in H. discriminate.
Qed.

Lemma same_identity_refl o : same_identity o o.
Proof. now repeat split. Qed.

Lemma same_identity_trans o1 o2 o3 :
  same_identity o1 o2 -> same_identity o2 o3 -> same_identity o1 o3.
Proof. unfold same_identity. intros (? & ? & ? & ?) (? & ? & ? & ?). repeat split; congruence. Qed.

(** Writing to one instance something with its identity keeps every
    instance's identity. *)
Lemma insert_identity (h : list SettingsObject.t) this o1 o1' a o :
  h !! this = Some o1 ->
  same_identity o1 o1' ->
  h !! a = Some o ->
  exists o', <[this := o1']> h !! a = Some o' /\ same_identity o o'.
Proof.
  intros H1 Hid Ha. destruct (decide (a = this)) as [->|Hne].
  - rewrite (lookup_written _ _ o1) by assumption. exists o1'. split; [reflexivity|].
    congruence.
  - rewrite list_lookup_insert_ne by congruence. exists o. split; [assumption|].
    apply same_identity_refl.
Qed.

Lemma sync_identity w this force r w' a o :
  Settings.sync this force w = Some (r, w') ->
  heap w !! a = Some o ->
  exists o', heap w' !! a = Some o' /\ same_identity o o'.
Proof.
  intros H Ha. destruct (sync_inv _ _ _ _ _ H) as (o1 & Ho1 & Hout).
  destruct Hout; cbn [heap];
    try (exists o; split; [assumption|apply same_identity_refl]);
    now apply (insert_identity _ _ o1).
Qed.

Lemma destroy_identity w this r w' a o :
  Settings.destroy this w = Some (r, w') ->
  heap w !! a = Some o ->
  exists o', heap w' !! a = Some o' /\ same_identity o o'.
Proof.
  intros H Ha. destruct (destroy_inv _ _ _ _ H) as (r1 & w1 & Hsync & Hcase).
  destruct (sync_identity _ _ _ _ _ a o Hsync Ha) as (o1' & Ha1 & Hid1).
  destruct Hcase as [(e & _ & _ & ->)|(o1 & _ & Ho1 & Hout)]; [eauto|].
  destruct Hout; cbn [heap]; eauto.
  destruct (insert_identity (heap w1) this o1
              (with_status
                 (with_entries o1 (_init (SettingsObject.entries o1) (SettingsObject.schema o1)))
                 SettingsExistenceStatus.NotExists) a o1' Ho1 (same_identity_refl o1) Ha1)
    as (o' & Ha' & Hid').
  exists o'. split; [assumption|]. now apply (same_identity_trans o o1' o').
Qed.

Lemma added_identity (h : list SettingsObject.t) x a o :
  h !! a = Some o -> exists o', (h ++ [x]) !! a = Some o' /\ same_identity o o'.
Proof.
  intros Ha. exists o. split; [|apply same_identity_refl].
  rewrite lookup_app_l; [assumption|]. eapply lookup_lt_Some, Ha.
Qed.

Lemma set_behind_heap g provider b w : heap (set_behind g provider b w) = heap w.
Proof. unfold set_behind. now destruct (gateways w !! g). Qed.

Lemma set_behind_trace g provider b w : trace (set_behind g provider b w) = trace w.
Proof. unfold set_behind. now destruct (gateways w !! g). Qed.

Lemma run_method_identity m w w' a o :
  run_method m w = Some w' ->
  heap w !! a = Some o ->
  exists o', heap w' !! a = Some o' /\ same_identity o o'.
Proof.
  intros H Ha. destruct m as [g target id|this|this force|this|g provider b]; cbn [run_method] in H.
  - destruct (Settings.new g target id w) as [[r w0]|] eqn:Hnew; [|discriminate].
    injection H as <-. destruct (new_inv _ _ _ _ _ _ Hnew) as (gw & Hg).
    rewrite (new_run w g gw) in Hnew by assumption. injection Hnew as _ <-.
    now apply added_identity.
  - destruct (Settings.clone this w) as [[r w0]|] eqn:Hclone; [|discriminate].
    injection H as <-. destruct (clone_inv _ _ _ _ Hclone) as (o0 & gw & Ho0 & Hg).
    rewrite (clone_run w this o0 gw) in Hclone by assumption. injection Hclone as _ <-.
    now apply added_identity.
  - destruct (Settings.sync this force w) as [[r w0]|] eqn:Hsync; [|discriminate].
    injection H as <-. exact (sync_identity _ _ _ _ _ a o Hsync Ha).
  - destruct (Settings.destroy this w) as [[r w0]|] eqn:Hd; [|discriminate].
    injection H as <-. exact (destroy_identity _ _ _ _ a o Hd Ha).
  - injection H as <-. rewrite set_behind_heap. exists o. split; [assumption|].
    apply same_identity_refl.
Qed.

(** X9: over any sequence of constructor calls, [clone], [sync] and
    [destroy] calls on any instances, resolving or rejecting, with the
    providers and storage changing in between, no instance is ever removed
    from the store, and none changes its id, its gateway, its target or the
    schema it is bound to: the calls only ever change an instance's status and
    values. *)
Theorem calls_keep_identity ms : forall w w' a o,
  run_methods ms w = Some w' ->
  heap w !! a = Some o ->
  exists o', heap w' !! a = Some o' /\ same_identity o o'.
Proof.
  induction ms as [|m ms IH]; intros w w' a o Hrun Ha; cbn [run_methods] in Hrun.
  - injection Hrun as <-. exists o. split; [assumption|apply same_identity_refl].
  - destruct (run_method m w) as [w0|] eqn:Hm; [|discriminate].
    destruct (run_method_identity m w w0 a o Hm Ha) as (o0 & Ha0 & Hid0).
    destruct (IH w0 w' a o0 Hrun Ha0) as (o' & Ha' & Hid').
    exists o'. split; [assumption|]. now apply (same_identity_trans o o0 o').
Qed.

Lemma calls_keep_identity_witness :
  exists w' o',
    run_methods [Sync 0 None; Clone 0; Behind 0 None (Backend.mk [] None (Some "EROFS"));
                 Destroy 0; Sync 1 (Some true); New 0 (VStr "guild") "7"; Destroy 2]
      world_fresh = Some w'
    /\ heap w' !! 0 = Some o'
    /\ SettingsObject.id o' = "42"
    /\ SettingsObject.existenceStatus o' = SettingsExistenceStatus.Exists.
Proof.
  destruct (calls_keep_identity
              [Sync 0 None; Clone 0; Behind 0 None (Backend.mk [] None (Some "EROFS"));
               Destroy 0; Sync 1 (Some true); New 0 (VStr "guild") "7"; Destroy 2]
              world_fresh
              (mkWorld
                 [example_settings SettingsExistenceStatus.Exists "?";
                  example_settings SettingsExistenceStatus.NotExists "?";
                  SettingsObject.mk "7" 0 (VStr "guild") SettingsExistenceStatus.NotExists
                    example_schema (defaults example_schema)]
                 [Gateway.mk "guilds" example_schema None (Backend.mk [] None (Some "EROFS"))]
                 [DoInit 0; CallPush 0 "42"; SetStatus 0 SettingsExistenceStatus.Exists;
                  DoPatch 0 example_row; Emit "settingsSync" 0;
                  DoInit 1; DoPatch 1 (toJSON (SettingsObject.entries
                                                 (example_settings
                                                    SettingsExistenceStatus.Exists "?")));
                  CallPush 0 "42"; SetStatus 1 SettingsExistenceStatus.NotExists;
                  DoInit 2; CallPush 0 "7"; SetStatus 2 SettingsExistenceStatus.NotExists])
              0 (example_settings SettingsExistenceStatus.Unsynchronized "!"))
    as (o' & Ho' & Hid & _).
  - vm_compute. reflexivity.
  - reflexivity.
  - eexists. exists o'. split; [vm_compute; reflexivity|]. split; [exact Ho'|].
    split; [exact Hid|]. cbn in Ho'. now injection Ho' as <-.
Defined.

(** What is behind a gateway can change; its schema does not. *)
Lemma set_behind_schemas g provider b w :
  (forall g0 gw, gateways w !! g0 = Some gw ->
     exists gw', gateways (set_behind g provider b w) !! g0 = Some gw'
                 /\ Gateway.schema gw' = Gateway.schema gw)
  /\ (forall g0 gw', gateways (set_behind g provider b w) !! g0 = Some gw' ->
        exists gw, gateways w !! g0 = Some gw /\ Gateway.schema gw' = Gateway.schema gw).
Proof.
  unfold set_behind. destruct (gateways w !! g) as [gw0|] eqn:Hg; [|split; eauto].
  cbn [gateways]. split; intros g0 gw H.
  - destruct (decide (g0 = g)) as [->|Hne].
    + rewrite list_lookup_insert_eq by (eapply lookup_lt_Some, Hg).
      eexists. split; [reflexivity|]. cbn.
      assert (E : Some gw0 = Some gw) by exact (eq_trans (eq_sym Hg) H).
      now injection E as ->.
    + rewrite list_lookup_insert_ne by congruence. eauto.
  - destruct (decide (g0 = g)) as [->|Hne].
    + rewrite list_lookup_insert_eq in H by (eapply lookup_lt_Some, Hg).
      injection H as <-. eauto.
    + rewrite list_lookup_insert_ne in H by congruence. eauto.
Qed.

Lemma run_method_schemas m w w' :
  run_method m w = Some w' ->
  forall g gw', gateways w' !! g = Some gw' ->
    exists gw, gateways w !! g = Some gw /\ Gateway.schema gw' = Gateway.schema gw.
Proof.
  intros H. destruct m as [g0 target id|this|this force|this|g0 provider b]; cbn [run_method] in H.
  - destruct (Settings.new g0 target id w) as [[r w0]|] eqn:Hnew; [|discriminate].
    injection H as <-. destruct (new_inv _ _ _ _ _ _ Hnew) as (gw & Hg).
    rewrite (new_run w g0 gw) in Hnew by assumption. injection Hnew as _ <-. eauto.
  - destruct (Settings.clone this w) as [[r w0]|] eqn:Hclone; [|discriminate].
    injection H as <-. destruct (clone_inv _ _ _ _ Hclone) as (o0 & gw & Ho0 & Hg).
    rewrite (clone_run w this o0 gw) in Hclone by assumption. injection Hclone as _ <-. eauto.
  - destruct (Settings.sync this force w) as [[r w0]|] eqn:Hsync; [|discriminate].
    injection H as <-. destruct (sync_inv _ _ _ _ _ Hsync) as (o & Ho & Hout).
    rewrite (sync_outcome_gateways _ _ _ _ _ Hout). eauto.
  - destruct (Settings.destroy this w) as [[r w0]|] eqn:Hd; [|discriminate].
    injection H as <-. destruct (destroy_inv _ _ _ _ Hd) as (r1 & w1 & Hsync & Hcase).
    destruct (sync_inv _ _ _ _ _ Hsync) as (o & Ho & Hout).
    rewrite <- (sync_outcome_gateways _ _ _ _ _ Hout).
    destruct Hcase as [(e & _ & _ & ->)|(o1 & _ & Ho1 & Hdout)]; [eauto|].
    destruct Hdout as [| | |gw b Hex Hgw]; cbn [gateways]; eauto.
    intros g gw' H. destruct (decide (g = SettingsObject.gateway o1)) as [->|Hne].
    + rewrite list_lookup_insert_eq in H by (eapply lookup_lt_Some, Hgw).
      injection H as <-. eauto.
    + rewrite list_lookup_insert_ne in H by congruence. eauto.
  - injection H as <-. apply set_behind_schemas.
Qed.

Lemma run_method_well_formed m w w' :
  well_formed_store w -> schemas_unique w ->
  run_method m w = Some w' ->
  well_formed_store w' /\ schemas_unique w'.
Proof.
  intros Hw Hu H. split.
  - destruct (folder_shape_invariant w Hw) as (Hsync & Hdestroy & Hnew & Hclone).
    destruct m as [g target id|this|this force|this|g provider b]; cbn [run_method] in H.
    + destruct (Settings.new g target id w) as [[r w0]|] eqn:Hrun; [|discriminate].
      injection H as <-. destruct (new_inv _ _ _ _ _ _ Hrun) as (gw & Hg).
      exact (Hnew g gw target id r w0 Hg (Hu g gw Hg) Hrun).
    + destruct (Settings.clone this w) as [[r w0]|] eqn:Hrun; [|discriminate].
      injection H as <-. exact (Hclone this r w0 Hrun).
    + destruct (Settings.sync this force w) as [[r w0]|] eqn:Hrun; [|discriminate].
      injection H as <-. exact (Hsync this force r w0 Hrun).
    + destruct (Settings.destroy this w) as [[r w0]|] eqn:Hrun; [|discriminate].
      injection H as <-. exact (Hdestroy this r w0 Hrun).
    + injection H as <-. intros a o Ha. rewrite set_behind_heap in Ha.
      apply (well_formed_gateways w); [apply set_behind_schemas|]. exact (Hw a o Ha).
  - intros g gw' Hg'. destruct (run_method_schemas m w w' H g gw' Hg') as (gw & Hg & ->).
    exact (Hu g gw Hg).
Qed.

(** X10: the folder of every instance keeps the shape of its gateway's
    schema. In a store where every instance's folder has that shape and no
    schema has a key twice, this still holds after any sequence of
    constructor calls, [clone], [sync] and [destroy] calls, resolving or
    rejecting, with the providers and storage changing in between: the folder
    (a map, which keeps its keys as they were inserted) has the schema's keys
    with a value at every entry and a sub-folder at every folder, and the keys
    of its snapshot are exactly the keys of its schema, whatever rows storage
    returned. Nothing is said of the order in which the snapshot, a plain
    object, lists them. *)
Theorem calls_keep_folder_shape ms : forall w w',
  well_formed_store w ->
  schemas_unique w ->
  run_methods ms w = Some w' ->
  well_formed_store w'
  /\ forall a o,
       heap w' !! a = Some o ->
       same_shape (SettingsObject.schema o) (SettingsObject.entries o) = true
       /\ forall k, In k (okeys (toJSON (SettingsObject.entries o)))
                    <-> In k (fkeys (SettingsObject.schema o)).
Proof.
  induction ms as [|m ms IH]; intros w w' Hw Hu Hrun; cbn [run_methods] in Hrun.
  - injection Hrun as <-. split; [assumption|]. intros a o Ha.
    destruct (Hw a o Ha) as (gw & _ & _ & _ & Hs). split; [assumption|].
    intros k. rewrite okeys_toJSON. now rewrite (same_shape_keys _ _ Hs).
  - destruct (run_method m w) as [w0|] eqn:Hm; [|discriminate].
    destruct (run_method_well_formed m w w0 Hw Hu Hm) as (Hw0 & Hu0).
    exact (IH w0 w' Hw0 Hu0 Hrun).
Qed.

Lemma world_fresh_schemas_unique : schemas_unique world_fresh.
Proof.
  intros [|g] gw H; [|destruct g; discriminate]. injection H as <-. reflexivity.
Qed.

Lemma calls_keep_folder_shape_witness :
  exists w' o',
    run_methods [Sync 0 None; Clone 0; Behind 0 None (Backend.mk [] None (Some "EROFS"));
                 Destroy 0; Sync 1 (Some true); New 0 (VStr "guild") "7"; Destroy 2]
      world_fresh = Some w'
    /\ heap w' !! 1 = Some o'
    /\ forall k, In k (okeys (toJSON (SettingsObject.entries o')))
                 <-> In k ["prefix"; "mod"].
Proof.
  eexists. eexists. split; [vm_compute; reflexivity|]. split; [reflexivity|].
  refine (proj2 (proj2 (calls_keep_folder_shape
                          [Sync 0 None; Clone 0;
                           Behind 0 None (Backend.mk [] None (Some "EROFS"));
                           Destroy 0; Sync 1 (Some true); New 0 (VStr "guild") "7"; Destroy 2]
                          world_fresh _ world_fresh_well_formed world_fresh_schemas_unique _)
                   1 _ _)).
  - vm_compute. reflexivity.
  - reflexivity.
Defined.

(** ** What a call logs *)

Lemma sync_outcome_log w this o r w' :
  sync_outcome w this o r w' ->
  exists added, trace w' = trace w ++ added /\ sync_log this added.
Proof.
  intros H. destruct H; cbn [trace].
  - exists []. split; [now rewrite app_nil_r|constructor].
  - eexists. split; [reflexivity|constructor].
  - eexists. split; [reflexivity|constructor].
  - eexists. split; [reflexivity|constructor].
Qed.

Lemma destroy_outcome_log w1 this o1 r w' :
  destroy_outcome w1 this o1 r w' ->
  exists added, trace w' = trace w1 ++ added /\ destroy_log this added.
Proof.
  intros H. destruct H; cbn [trace];
    try (exists []; split; [now rewrite app_nil_r|constructor]);
    eexists; (split; [reflexivity|constructor]).
Qed.

Lemma run_method_log m w w' :
  run_method m w = Some w' ->
  exists added, trace w' = trace w ++ added /\ method_log m added.
Proof.
  intros H. destruct m as [g target id|this|this force|this|g provider b]; cbn [run_method] in H.
  - destruct (Settings.new g target id w) as [[r w0]|] eqn:Hnew; [|discriminate].
    injection H as <-. destruct (new_inv _ _ _ _ _ _ Hnew) as (gw & Hg).
    rewrite (new_run w g gw) in Hnew by assumption. injection Hnew as _ <-.
    eexists. split; [reflexivity|constructor].
  - destruct (Settings.clone this w) as [[r w0]|] eqn:Hclone; [|discriminate].
    injection H as <-. destruct (clone_inv _ _ _ _ Hclone) as (o0 & gw & Ho0 & Hg).
    rewrite (clone_run w this o0 gw) in Hclone by assumption. injection Hclone as _ <-.
    eexists. split; [reflexivity|constructor].
  - destruct (Settings.sync this force w) as [[r w0]|] eqn:Hsync; [|discriminate].
    injection H as <-. destruct (sync_inv _ _ _ _ _ Hsync) as (o & Ho & Hout).
    destruct (sync_outcome_log _ _ _ _ _ Hout) as (added & Ht & Hl).
    exists added. split; [assumption|now constructor].
  - destruct (Settings.destroy this w) as [[r w0]|] eqn:Hd; [|discriminate].
    injection H as <-. destruct (destroy_inv _ _ _ _ Hd) as (r1 & w1 & Hsync & Hcase).
    destruct (sync_inv _ _ _ _ _ Hsync) as (o & Ho & Hout).
    destruct (sync_outcome_log _ _ _ _ _ Hout) as (l1 & Ht1 & Hl1).
    destruct Hcase as [(e & _ & _ & ->)|(o1 & _ & Ho1 & Hdout)].
    + exists (l1 ++ []). split; [now rewrite app_nil_r|].
      constructor; [assumption|constructor].
    + destruct (destroy_outcome_log _ _ _ _ _ Hdout) as (l2 & Ht2 & Hl2).
      exists (l1 ++ l2). split; [now rewrite Ht2, Ht1, app_assoc|].
      now constructor.
  - injection H as <-. exists []. rewrite set_behind_trace, app_nil_r.
    split; [reflexivity|constructor].
Qed.

Lemma events_follow_append l1 : forall prev l2,
  events_follow prev l1 = true ->
  (forall p, events_follow p l2 = true) ->
  events_follow prev (l1 ++ l2) = true.
Proof.
  induction l1 as [|s l1 IH]; intros prev l2 H1 H2; [apply H2|].
  cbn [app events_follow] in *. apply andb_true_iff in H1 as [Hs H1].
  rewrite Hs. now apply IH.
Qed.

Lemma sync_log_events this l : sync_log this l -> forall p, events_follow p l = true.
Proof. intros H p. destruct H; cbn; rewrite ?Nat.eqb_refl; reflexivity. Qed.

Lemma destroy_log_events this l : destroy_log this l -> forall p, events_follow p l = true.
Proof. intros H p. destruct H; reflexivity. Qed.

Lemma method_log_events m l : method_log m l -> forall p, events_follow p l = true.
Proof.
  intros H p. destruct H as [| |this force l Hl|this l1 l2 H1 H2|]; try reflexivity.
  - now apply (sync_log_events this).
  - apply events_follow_append; [now apply (sync_log_events this)|].
    now apply (destroy_log_events this).
Qed.

(** X11: the class emits only after the fact. In the log of any sequence of
    constructor calls, [clone], [sync] and [destroy] calls, resolving or
    rejecting, every event the client is sent is a [settingsSync] or a
    [settingsDelete]; a [settingsSync] carries the instance that was patched
    in the step right before it, and a [settingsDelete] comes right after a
    [provider.delete] call. So nothing is announced right after a request to
    the handler, a change of status or a reset: a fetch that fails or finds no
    row emits nothing. *)
Theorem events_report_performed_steps ms : forall w w',
  run_methods ms w = Some w' ->
  events_follow None (trace w) = true ->
  events_follow None (trace w') = true.
Proof.
  induction ms as [|m ms IH]; intros w w' Hrun Hw; cbn [run_methods] in Hrun.
  - now injection Hrun as <-.
  - destruct (run_method m w) as [w0|] eqn:Hm; [|discriminate].
    apply (IH w0 w' Hrun).
    destruct (run_method_log m w w0 Hm) as (added & -> & Hl).
    apply events_follow_append; [assumption|]. now apply (method_log_events m).
Qed.

Lemma events_report_performed_steps_witness :
  exists w',
    run_methods [Sync 0 None; Clone 0; Behind 0 None (Backend.mk [] None (Some "EROFS"));
                 Destroy 0; Sync 1 (Some true); New 0 (VStr "guild") "7"; Destroy 2]
      world_fresh = Some w'
    /\ List.filter is_emit (trace w') = [Emit "settingsSync" 0]
    /\ events_follow None (trace w') = true.
Proof.
  eexists. split; [vm_compute; reflexivity|]. split; [reflexivity|].
  apply (events_report_performed_steps
           [Sync 0 None; Clone 0; Behind 0 None (Backend.mk [] None (Some "EROFS"));
            Destroy 0; Sync 1 (Some true); New 0 (VStr "guild") "7"; Destroy 2]
           world_fresh).
  - vm_compute. reflexivity.
  - reflexivity.
Defined.

Lemma count_app p l1 l2 : count p (l1 ++ l2) = count p l1 + count p l2.
Proof. unfold count. now rewrite List.filter_app, length_app. Qed.

Lemma sync_log_counts this l :
  sync_log this l ->
  count is_push l <= 1 /\ count is_delete l = 0 /\ count is_emit l <= count is_push l.
Proof. intros H. destruct H; cbn; lia. Qed.

Lemma destroy_log_counts this l :
  destroy_log this l ->
  count is_push l = 0 /\ count is_delete l <= 1 /\ count is_emit l <= count is_delete l.
Proof. intros H. destruct H; cbn; lia. Qed.

Lemma method_log_counts m l :
  method_log m l ->
  count is_push l <= fetches m
  /\ count is_delete l <= deletes m
  /\ count is_emit l <= count is_push l + count is_delete l.
Proof.
  intros H. destruct H as [| |this force l Hl|this l1 l2 H1 H2|]; cbn; try lia.
  - destruct (sync_log_counts this l Hl) as (? & ? & ?). cbn in *. lia.
  - rewrite !count_app.
    destruct (sync_log_counts this l1 H1) as (? & ? & ?).
    destruct (destroy_log_counts this l2 H2) as (? & ? & ?). lia.
Qed.

(** X12: what a sequence of calls costs. The constructor and [clone] make no
    request; a [sync] makes at most one request to the request handler and
    never calls [provider.delete]; a [destroy] makes at most one request and
    at most one [provider.delete]. So over any sequence of calls, resolving or
    rejecting, the requests to the handler are at most as many as the [sync]
    and [destroy] calls, the [provider.delete] calls at most as many as the
    [destroy] calls, and the events emitted at most as many as the requests
    and deletes together. *)
Theorem calls_bound_requests ms : forall w w',
  run_methods ms w = Some w' ->
  exists added,
    trace w' = trace w ++ added
    /\ count is_push added <= total fetches ms
    /\ count is_delete added <= total deletes ms
    /\ count is_emit added <= count is_push added + count is_delete added.
Proof.
  induction ms as [|m ms IH]; intros w w' Hrun; cbn [run_methods] in Hrun.
  - injection Hrun as <-. exists []. rewrite app_nil_r. cbn. repeat split; lia.
  - destruct (run_method m w) as [w0|] eqn:Hm; [|discriminate].
    destruct (run_method_log m w w0 Hm) as (l1 & Ht1 & Hl1).
    destruct (IH w0 w' Hrun) as (l2 & Ht2 & Hp & Hd & He).
    destruct (method_log_counts m l1 Hl1) as (Hp1 & Hd1 & He1).
    exists (l1 ++ l2). split; [now rewrite Ht2, Ht1, app_assoc|].
    rewrite !count_app. cbn [total fold_right]. fold (total fetches ms) (total deletes ms).
    repeat split; lia.
Qed.

Lemma calls_bound_requests_witness :
  exists w' added,
    run_methods [Sync 0 None; Clone 0; Behind 0 None (Backend.mk [] None (Some "EROFS"));
                 Destroy 0; Sync 1 (Some true); New 0 (VStr "guild") "7"; Destroy 2]
      world_fresh = Some w'
    /\ trace w' = trace world_fresh ++ added
    /\ count is_push added <= 4
    /\ count is_delete added <= 2.
Proof.
  destruct (calls_bound_requests
              [Sync 0 None; Clone 0; Behind 0 None (Backend.mk [] None (Some "EROFS"));
               Destroy 0; Sync 1 (Some true); New 0 (VStr "guild") "7"; Destroy 2]
              world_fresh
              (mkWorld
                 [example_settings SettingsExistenceStatus.Exists "?";
                  example_settings SettingsExistenceStatus.NotExists "?";
                  SettingsObject.mk "7" 0 (VStr "guild") SettingsExistenceStatus.NotExists
                    example_schema (defaults example_schema)]
                 [Gateway.mk "guilds" example_schema None (Backend.mk [] None (Some "EROFS"))]
                 [DoInit 0; CallPush 0 "42"; SetStatus 0 SettingsExistenceStatus.Exists;
                  DoPatch 0 example_row; Emit "settingsSync" 0;
                  DoInit 1; DoPatch 1 (toJSON (SettingsObject.entries
                                                 (example_settings
                                                    SettingsExistenceStatus.Exists "?")));
                  CallPush 0 "42"; SetStatus 1 SettingsExistenceStatus.NotExists;
                  DoInit 2; CallPush 0 "7"; SetStatus 2 SettingsExistenceStatus.NotExists]))
    as (added & Ht & Hp & Hd & _).
  - vm_compute. reflexivity.
  - eexists. exists added. split; [vm_compute; reflexivity|].
    split; [exact Ht|]. split; [exact Hp | exact Hd].
Defined.

(** * Beyond the specification: the keys of a parsed update *)

Lemma okeys_oset_In o k v k' :
  In k' (okeys (oset o k v)) <-> In k' (okeys o) \/ k' = k.
Proof.
  induction o as [|k0 v0 o IH]; cbn [oset okeys In].
  - intuition congruence.
  - destruct (String.eqb k0 k) eqn:E; cbn [okeys In].
    + apply String.eqb_eq in E as ->. intuition congruence.
    + rewrite IH. tauto.
Qed.

Lemma okeys_oset_NoDup o k v : List.NoDup (okeys o) -> List.NoDup (okeys (oset o k v)).
Proof.
  induction o as [|k0 v0 o IH]; cbn [oset okeys]; intros H.
  - repeat constructor. now intros [].
  - destruct (String.eqb k0 k) eqn:E; cbn [okeys]; [assumption|].
    apply List.NoDup_cons_iff in H as [Hnin Hnd].
    apply List.NoDup_cons_iff. split; [|now apply IH].
    rewrite okeys_oset_In. intros [Hin| ->]; [now apply Hnin|].
    now rewrite String.eqb_refl in E.
Qed.

Lemma first_key_route path k r : split_dot path = k :: r -> first_key path = k.
Proof. unfold first_key. now intros ->. Qed.

(** One more change sets one key of the result: the first key of its path. *)
Lemma parse_snoc_key cs c :
  exists v,
    Provider.parseUpdateInput (UpdateResults (cs ++ [c]))
    = oset (Provider.parseUpdateInput (UpdateResults cs)) (first_key (change_path c)) v.
Proof.
  rewrite parse_snoc.
  destruct (makeObject_route (change_path c) (SettingsUpdateResult.next c))
    as (k & r & Hroute & ->).
  rewrite mergeObjects_single, (first_key_route _ k r Hroute). eauto.
Qed.

Lemma includes_dot_snoc s c :
  includes_dot (s ++ String c EmptyString)%string
  = includes_dot s || Ascii.eqb c "."%char.
Proof.
  induction s as [|a s IH].
  - change (includes_dot (String c EmptyString)
            = includes_dot EmptyString || Ascii.eqb c "."%char).
    cbn [includes_dot orb]. now destruct (Ascii.eqb c ".").
  - change (includes_dot (String a (s ++ String c EmptyString)%string)
            = includes_dot (String a s) || Ascii.eqb c "."%char).
    cbn [includes_dot]. destruct (Ascii.eqb a "."); [reflexivity|apply IH].
Qed.

(** No segment of a split path holds a dot. *)
Lemma split_from_no_dots s : forall cur,
  includes_dot cur = false ->
  Forall (fun k => includes_dot k = false) (split_from cur s).
Proof.
  induction s as [|c rest IH]; intros cur H; cbn [split_from].
  - now repeat constructor.
  - destruct (Ascii.eqb c ".") eqn:E.
    + constructor; [assumption|]. now apply IH.
    + apply IH. now rewrite includes_dot_snoc, H, E.
Qed.

Lemma first_key_no_dot path : includes_dot (first_key path) = false.
Proof.
  unfold first_key.
  pose proof (split_from_no_dots path EmptyString eq_refl) as H. fold (split_dot path) in H.
  destruct (split_dot path) as [|k r] eqn:E.
  - destruct (split_from_cons path EmptyString) as (k & r & Hs).
    unfold split_dot in E. congruence.
  - now inversion H.
Qed.

(** X13: the top-level keys of what [parseUpdateInput] makes of a sequence of
    changes are the first keys of the changes' paths (the part of a path
    before its first dot), each key once; so none of them holds a dot, unlike
    the keys of a plain object, which is returned with its keys as they
    are. *)
Theorem parseUpdateInput_keys cs :
  let updated := Provider.parseUpdateInput (UpdateResults cs) in
  List.NoDup (okeys updated)
  /\ (forall k, In k (okeys updated)
                <-> exists c, In c cs /\ first_key (change_path c) = k)
  /\ Forall (fun k => includes_dot k = false) (okeys updated).
Proof.
  cbv zeta.
  assert (H : List.NoDup (okeys (Provider.parseUpdateInput (UpdateResults cs)))
              /\ forall k, In k (okeys (Provider.parseUpdateInput (UpdateResults cs)))
                           <-> exists c, In c cs /\ first_key (change_path c) = k).
  { induction cs as [|c cs [IHn IHk]] using rev_ind.
    - split; [constructor|]. intros k. split; [intros []|intros (c & [] & _)].
    - destruct (parse_snoc_key cs c) as (v & ->). split; [now apply okeys_oset_NoDup|].
      intros k. rewrite okeys_oset_In, IHk. split.
      + intros [(c0 & Hin & Hk)| ->].
        * exists c0. split; [apply in_or_app; now left|assumption].
        * exists c. split; [apply in_or_app; right; now left|reflexivity].
      + intros (c0 & Hin & Hk). apply in_app_or in Hin as [Hin|[<-|[]]]; eauto. }
  destruct H as [Hn Hk]. split; [assumption|]. split; [assumption|].
  apply List.Forall_forall. intros k Hin. apply Hk in Hin as (c & _ & <-).
  apply first_key_no_dot.
Qed.

(** * Beyond the specification: instances are independent *)

(** X14: a call works on one instance. The constructor and [clone] leave
    every instance of the store exactly as it was (status and values
    included), and so do [sync] and [destroy] for every instance other than
    the one they are called on, resolving or rejecting: also for another
    instance of the same id and gateway, such as a clone or its original,
    which is not told of a fetch or a deletion made through the other. *)
Theorem a_call_touches_one_instance m w w' a o :
  run_method m w = Some w' ->
  heap w !! a = Some o ->
  subject m <> Some a ->
  heap w' !! a = Some o.
Proof.
  intros H Ha Hsub.
  assert (Hadd : forall x, (heap w ++ [x]) !! a = Some o).
  { intros x. rewrite lookup_app_l; [assumption|]. eapply lookup_lt_Some, Ha. }
  destruct m as [g target id|this|this force|this|g provider b]; cbn [run_method subject] in *.
  - destruct (Settings.new g target id w) as [[r w0]|] eqn:Hnew; [|discriminate].
    injection H as <-. destruct (new_inv _ _ _ _ _ _ Hnew) as (gw & Hg).
    rewrite (new_run w g gw) in Hnew by assumption. injection Hnew as _ <-. apply Hadd.
  - destruct (Settings.clone this w) as [[r w0]|] eqn:Hclone; [|discriminate].
    injection H as <-. destruct (clone_inv _ _ _ _ Hclone) as (o0 & gw & Ho0 & Hg).
    rewrite (clone_run w this o0 gw) in Hclone by assumption. injection Hclone as _ <-.
    apply Hadd.
  - destruct (Settings.sync this force w) as [[r w0]|] eqn:Hsync; [|discriminate].
    injection H as <-. rewrite <- Ha. apply (sync_frame _ _ _ _ _ a Hsync). congruence.
  - destruct (Settings.destroy this w) as [[r w0]|] eqn:Hd; [|discriminate].
    injection H as <-. rewrite <- Ha. apply (destroy_frame _ _ _ _ a Hd). congruence.
  - injection H as <-. now rewrite set_behind_heap.
Qed.

Lemma a_call_touches_one_instance_witness :
  let twins := mkWorld [example_settings SettingsExistenceStatus.Exists "?";
                        example_settings SettingsExistenceStatus.Exists "?"]
                 [example_gateway (Some "json") [("42", example_row)]] [] in
  exists w',
    run_method (Destroy 0) twins = Some w'
    /\ status_at w' 0 = Some SettingsExistenceStatus.NotExists
    /\ heap w' !! 1 = Some (example_settings SettingsExistenceStatus.Exists "?").
Proof.
  cbv zeta. eexists. split; [vm_compute; reflexivity|]. split; [reflexivity|].
  apply (a_call_touches_one_instance (Destroy 0)
           (mkWorld [example_settings SettingsExistenceStatus.Exists "?";
                     example_settings SettingsExistenceStatus.Exists "?"]
              [example_gateway (Some "json") [("42", example_row)]] [])).
  - vm_compute. reflexivity.
  - reflexivity.
  - discriminate.
Defined.
